(** * BleInTheBackground: timers, background tasks and the tick protocol

    A shallow embedding of the lifecycle layer of the application:

    - [PLXBackground]: the native module (Background.m) with its three
      registries [pendingTimers], [pendingBackgroundTasks], [executingTasks]
      and the [hasListeners] flag, together with the part of the operating
      system it talks to (dispatch blocks, background-task tokens,
      processing-task instances);
    - [Background]: the TypeScript wrapper (Background.ts) that hands out
      timer identifiers and forwards completions;
    - [BleManager]: the tick protocol and the connection sequence
      (BleManager.ts): [downloadTicks], [waitForPendingTicks],
      [establishConnection], [scheduleBackgroundProcessingTask];
    - [Scan], [Jobs], [Utils]: [scanDevice], the jobs that run under a
      background task ([executeJob], [restoredProcess]) and the log
      (Utils.ts);
    - [TimerRuns], [TaskRuns], [Sessions]: runs of the registries and of an
      idle-drain session, and what they keep.

    Everything runs on one logical thread, so every callback is a state
    transformer and a run of the program is a list of callbacks applied in
    order. *)

From stdpp Require Import gmap strings list fin_maps.
From Stdlib Require Import ZArith Lia DecimalString DecimalNat.

Open Scope Z_scope.

(** ** The native module: Background.m *)

Module PLXBackground.

(** A [dispatch_block_t] created by [setTimeout:].  The block remembers the
    [timeoutId] its body captured and the time [dispatch_after] was asked to
    run it at.  [dispatch_block_cancel] moves a block that has not run yet to
    [Cancelled]; the main queue moves it to [Fired] when it runs its body. *)
Inductive BlockStatus := Scheduled | Cancelled | Fired.

Record Block := {
  blk_timeoutId : string;
  blk_deadline : Z;
  blk_status : BlockStatus;
}.

Global Instance BlockStatus_eq_dec : EqDecision BlockStatus.
Proof. solve_decision. Defined.

(** A [BGProcessingTask] delivered by the scheduler: its identifier and the
    instance the OS handed over. *)
Record BGProcessingTask := {
  identifier : string;
  instance : nat;
}.

Definition BackgroundTaskExpiredEvent : string := "BackgroundTaskExpired".
Definition BackgroundProcessingExecutingEvent : string := "BackgroundProcessingExecuting".
Definition BackgroundProcessingExpiredEvent : string := "BackgroundProcessingExpired".

(** [UIBackgroundTaskInvalid] *)
Definition UIBackgroundTaskInvalid : N := 0%N.

(** What leaves the module: events sent to JavaScript, promise callbacks and
    calls into UIKit / BackgroundTasks. *)
Inductive Effect :=
| SendEvent (name : string) (taskName : string)
| Resolve (value : string)
| Reject (code : string) (message : string)
| EndBackgroundTask (taskId : N)
| SetExpirationHandler (task : BGProcessingTask)
| SetTaskCompleted (task : BGProcessingTask) (success : bool).

(** The instance variables of [PLXBackground], the dispatch blocks created so
    far (a block is referred to by its index) and the effects so far, oldest
    first. *)
Record World := {
  pendingTimers : gmap string nat;
  pendingBackgroundTasks : gmap string N;
  executingTasks : gmap string BGProcessingTask;
  hasListeners : bool;
  blocks : list Block;
  effects : list Effect;
}.

(** [- (instancetype)init] *)
Definition init : World := {|
  pendingTimers := ∅;
  pendingBackgroundTasks := ∅;
  executingTasks := ∅;
  hasListeners := false;
  blocks := [];
  effects := [];
|}.

Definition set_pendingTimers (m : gmap string nat) (w : World) : World :=
  {| pendingTimers := m;
     pendingBackgroundTasks := pendingBackgroundTasks w;
     executingTasks := executingTasks w;
     hasListeners := hasListeners w;
     blocks := blocks w;
     effects := effects w |}.

Definition set_pendingBackgroundTasks (m : gmap string N) (w : World) : World :=
  {| pendingTimers := pendingTimers w;
     pendingBackgroundTasks := m;
     executingTasks := executingTasks w;
     hasListeners := hasListeners w;
     blocks := blocks w;
     effects := effects w |}.

Definition set_executingTasks (m : gmap string BGProcessingTask) (w : World) : World :=
  {| pendingTimers := pendingTimers w;
     pendingBackgroundTasks := pendingBackgroundTasks w;
     executingTasks := m;
     hasListeners := hasListeners w;
     blocks := blocks w;
     effects := effects w |}.

Definition set_hasListeners (b : bool) (w : World) : World :=
  {| pendingTimers := pendingTimers w;
     pendingBackgroundTasks := pendingBackgroundTasks w;
     executingTasks := executingTasks w;
     hasListeners := b;
     blocks := blocks w;
     effects := effects w |}.

Definition set_blocks (l : list Block) (w : World) : World :=
  {| pendingTimers := pendingTimers w;
     pendingBackgroundTasks := pendingBackgroundTasks w;
     executingTasks := executingTasks w;
     hasListeners := hasListeners w;
     blocks := l;
     effects := effects w |}.

Definition emit (e : Effect) (w : World) : World :=
  {| pendingTimers := pendingTimers w;
     pendingBackgroundTasks := pendingBackgroundTasks w;
     executingTasks := executingTasks w;
     hasListeners := hasListeners w;
     blocks := blocks w;
     effects := effects w ++ [e] |}.

(** [startObserving] / [stopObserving] *)
Definition startObserving (w : World) : World := set_hasListeners true w.
Definition stopObserving (w : World) : World := set_hasListeners false w.

(** *** Timers *)

Definition with_status (s : BlockStatus) (b : Block) : Block :=
  {| blk_timeoutId := blk_timeoutId b;
     blk_deadline := blk_deadline b;
     blk_status := s |}.

(** [dispatch_block_cancel]: only a block that has not run yet is affected. *)
Definition dispatch_block_cancel (b : nat) (w : World) : World :=
  set_blocks
    (alter (fun blk => match blk_status blk with
                       | Scheduled => with_status Cancelled blk
                       | _ => blk
                       end) b (blocks w)) w.

(** [setTimeout:timeoutId:resolver:rejecter:].  [now] is the reading of
    [DISPATCH_TIME_NOW]; the new block is scheduled for [now + timeout] and
    stored under [timeoutId], replacing whatever was stored there. *)
Definition setTimeout (now timeout : Z) (timeoutId : string) (w : World) : World :=
  let work := length (blocks w) in
  let w1 := set_blocks (blocks w ++ [{| blk_timeoutId := timeoutId;
                                        blk_deadline := now + timeout;
                                        blk_status := Scheduled |}]) w in
  set_pendingTimers (<[timeoutId := work]> (pendingTimers w1)) w1.

(** The main queue reaches block [b].  A block that was cancelled, or has
    run already, does nothing; otherwise its body runs: it removes the entry
    stored under the captured [timeoutId] and resolves the promise. *)
Definition runBlock (b : nat) (w : World) : World :=
  match blocks w !! b with
  | Some blk =>
      match blk_status blk with
      | Scheduled =>
          let w1 := set_blocks (<[b := with_status Fired blk]> (blocks w)) w in
          let w2 := set_pendingTimers (delete (blk_timeoutId blk) (pendingTimers w1)) w1 in
          emit (Resolve (blk_timeoutId blk)) w2
      | _ => w
      end
  | None => w
  end.

(** [clearTimeout:] *)
Definition clearTimeout (timeoutId : string) (w : World) : World :=
  match pendingTimers w !! timeoutId with
  | Some block =>
      let w1 := dispatch_block_cancel block w in
      set_pendingTimers (delete timeoutId (pendingTimers w1)) w1
  | None => w
  end.

(** *** Background tasks *)

(** The expiration handler passed to [beginBackgroundTaskWithName:], a
    closure over [taskName]. *)
Definition backgroundTaskExpired (taskName : string) (w : World) : World :=
  match pendingBackgroundTasks w !! taskName with
  | Some taskId =>
      if hasListeners w then
        emit (SendEvent BackgroundTaskExpiredEvent taskName) w
      else
        let w1 := emit (EndBackgroundTask taskId) w in
        set_pendingBackgroundTasks (delete taskName (pendingBackgroundTasks w1)) w1
  | None => w
  end.

(** [startBackgroundTask:resolver:rejecter:].  [identifier] is what
    [beginBackgroundTaskWithName:expirationHandler:] returned. *)
Definition startBackgroundTask (taskName : string) (identifier : N) (w : World) : World :=
  if decide (identifier = UIBackgroundTaskInvalid) then
    emit (Reject "PLXBackground"
            ("Cannot start background task with id: " +:+ taskName)) w
  else
    let w1 := set_pendingBackgroundTasks
                (<[taskName := identifier]> (pendingBackgroundTasks w)) w in
    emit (Resolve taskName) w1.

(** [endBackgroundTask:] *)
Definition endBackgroundTask (taskName : string) (w : World) : World :=
  match pendingBackgroundTasks w !! taskName with
  | Some taskId =>
      let w1 := emit (EndBackgroundTask taskId) w in
      set_pendingBackgroundTasks (delete taskName (pendingBackgroundTasks w1)) w1
  | None => w
  end.

(** *** Processing tasks *)

(** The expiration handler installed by [backgroundTaskExecuting:], a closure
    over the task's [identifier]. *)
Definition processingTaskExpired (identifier : string) (w : World) : World :=
  if hasListeners w then
    emit (SendEvent BackgroundProcessingExpiredEvent identifier) w
  else
    match executingTasks w !! identifier with
    | Some task =>
        let w1 := set_executingTasks (delete identifier (executingTasks w)) w in
        emit (SetTaskCompleted task true) w1
    | None => w
    end.

(** [backgroundTaskExecuting:] *)
Definition backgroundTaskExecuting (task : BGProcessingTask) (w : World) : World :=
  let identifier := identifier task in
  if hasListeners w then
    let w1 := emit (SetExpirationHandler task) w in
    let w2 := set_executingTasks (<[identifier := task]> (executingTasks w1)) w1 in
    emit (SendEvent BackgroundProcessingExecutingEvent identifier) w2
  else
    emit (SetTaskCompleted task true) w.

(** [completeBackgroundProcessing:result:] *)
Definition completeBackgroundProcessing (taskName : string) (result : bool) (w : World) : World :=
  match executingTasks w !! taskName with
  | Some task =>
      let w1 := set_executingTasks (delete taskName (executingTasks w)) w in
      emit (SetTaskCompleted task result) w1
  | None => w
  end.

(** *** Runs of the timer service *)

Inductive TimerStep :=
| Start (now timeout : Z) (timeoutId : string)
| Cancel (timeoutId : string)
| Fire (b : nat).

Definition timer_step (w : World) (a : TimerStep) : World :=
  match a with
  | Start now timeout timeoutId => setTimeout now timeout timeoutId w
  | Cancel timeoutId => clearTimeout timeoutId w
  | Fire b => runBlock b w
  end.

Definition timer_run (w : World) (steps : list TimerStep) : World :=
  foldl timer_step w steps.

(** The live timers of an identifier: the blocks that captured it and are
    still going to run. *)
Definition is_live (timeoutId : string) (w : World) (b : nat) : bool :=
  match blocks w !! b with
  | Some blk => bool_decide (blk_status blk = Scheduled ∧ blk_timeoutId blk = timeoutId)
  | None => false
  end.

Definition live_timers (timeoutId : string) (w : World) : list nat :=
  List.filter (is_live timeoutId w) (seq 0 (length (blocks w))).

(** A run in which no identifier is started while it is still stored in
    [pendingTimers]. *)
Fixpoint fresh_starts (w : World) (steps : list TimerStep) : bool :=
  match steps with
  | [] => true
  | a :: rest =>
      match a with
      | Start _ _ timeoutId => bool_decide (pendingTimers w !! timeoutId = None)
      | _ => true
      end && fresh_starts (timer_step w a) rest
  end.

End PLXBackground.

(** ** The TypeScript wrapper: Background.ts *)

Module Background.

(** [Number.prototype.toString] on a timer identifier. *)
Definition Number_toString (n : nat) : string :=
  NilEmpty.string_of_uint (Nat.to_uint n).

(** The module-level variables of Background.ts ([nextTimeoutId],
    [registeredCallbacks]), the listeners held by [PLXEventEmitter] as
    (event name, listener) pairs, the native module behind the bridge and
    the clock the dispatch queue reads. *)
Record State := {
  nextTimeoutId : nat;
  registeredCallbacks : gmap string (nat * nat);
  listeners : list (string * nat);
  clock : Z;
  native : PLXBackground.World;
}.

Definition init : State := {|
  nextTimeoutId := 0;
  registeredCallbacks := ∅;
  listeners := [];
  clock := 0;
  native := PLXBackground.init;
|}.

Definition set_native (w : PLXBackground.World) (s : State) : State :=
  {| nextTimeoutId := nextTimeoutId s;
     registeredCallbacks := registeredCallbacks s;
     listeners := listeners s;
     clock := clock s;
     native := w |}.

Definition set_clock (t : Z) (s : State) : State :=
  {| nextTimeoutId := nextTimeoutId s;
     registeredCallbacks := registeredCallbacks s;
     listeners := listeners s;
     clock := t;
     native := native s |}.

(** [setTimeout(callback, timeout)]: takes the next identifier and starts the
    native timer under its decimal spelling.  The caller's [callback] is the
    continuation of the native promise; each caller below passes one fixed
    callback and says itself when that continuation runs. *)
Definition setTimeout (timeout : Z) (s : State) : nat * State :=
  let timeoutId := nextTimeoutId s in
  (timeoutId,
   {| nextTimeoutId := S timeoutId;
      registeredCallbacks := registeredCallbacks s;
      listeners := listeners s;
      clock := clock s;
      native := PLXBackground.setTimeout (clock s) timeout
                  (Number_toString timeoutId) (native s) |}).

(** [clearTimeout(timeoutId)] *)
Definition clearTimeout (timeoutId : nat) (s : State) : State :=
  set_native (PLXBackground.clearTimeout (Number_toString timeoutId) (native s)) s.

(** [PLXEventEmitter] is a [NativeEventEmitter] over the module, which is an
    [RCTEventEmitter]: adding a listener calls the module's [addListener:],
    removing a subscription calls [removeListeners:] with 1, and
    [removeAllListeners(name)] calls it with the number of listeners of the
    event.  The module counts its listeners, runs [startObserving] when the
    count reaches one and [stopObserving] when it reaches zero.  Every
    change of the count comes from the emitter, so the count is the number
    of listeners the emitter holds; [count] below is that number before the
    call. *)
Definition native_addListener (count : nat) (w : PLXBackground.World) : PLXBackground.World :=
  if decide (S count = 1%nat) then PLXBackground.startObserving w else w.

Definition native_removeListeners (count removed : nat) (w : PLXBackground.World)
    : PLXBackground.World :=
  if decide ((count - removed)%nat = 0%nat) then PLXBackground.stopObserving w else w.

(** [removed] subscriptions removed one after the other. *)
Fixpoint native_removeSubscriptions (removed count : nat) (w : PLXBackground.World)
    : PLXBackground.World :=
  match removed with
  | O => w
  | S removed' =>
      native_removeSubscriptions removed' (count - 1) (native_removeListeners count 1 w)
  end.

(** [PLXEventEmitter.addListener(name, listener)] *)
Definition addListener (name : string) (listener : nat) (s : State) : State :=
  {| nextTimeoutId := nextTimeoutId s;
     registeredCallbacks := registeredCallbacks s;
     listeners := listeners s ++ [(name, listener)];
     clock := clock s;
     native := native_addListener (length (listeners s)) (native s) |}.

(** [PLXEventEmitter.removeListener(name, listener)]: every subscription of
    the event with this listener is removed. *)
Definition removeListener (name : string) (listener : nat) (s : State) : State :=
  let matching := List.filter (fun l => bool_decide (l = (name, listener))) (listeners s) in
  {| nextTimeoutId := nextTimeoutId s;
     registeredCallbacks := registeredCallbacks s;
     listeners := List.filter (fun l => negb (bool_decide (l = (name, listener)))) (listeners s);
     clock := clock s;
     native := native_removeSubscriptions (length matching) (length (listeners s))
                 (native s) |}.

(** [PLXEventEmitter.removeAllListeners(name)] *)
Definition removeAllListeners (name : string) (s : State) : State :=
  let matching := List.filter (fun l => bool_decide (l.1 = name)) (listeners s) in
  {| nextTimeoutId := nextTimeoutId s;
     registeredCallbacks := registeredCallbacks s;
     listeners := List.filter (fun l => negb (bool_decide (l.1 = name))) (listeners s);
     clock := clock s;
     native := native_removeListeners (length (listeners s)) (length matching)
                 (native s) |}.

Definition delete_registeredCallbacks (taskName : string) (s : State) : State :=
  {| nextTimeoutId := nextTimeoutId s;
     registeredCallbacks := delete taskName (registeredCallbacks s);
     listeners := listeners s;
     clock := clock s;
     native := native s |}.

Definition insert_registeredCallbacks (taskName : string) (cbs : nat * nat)
    (s : State) : State :=
  {| nextTimeoutId := nextTimeoutId s;
     registeredCallbacks := <[taskName := cbs]> (registeredCallbacks s);
     listeners := listeners s;
     clock := clock s;
     native := native s |}.

(** [scheduleBackgroundProcessingTask(taskName, timeout, ...)].  The two
    closures it creates are named by [execution] and [expired]; [submitted]
    tells whether the promise of [PLXBackground.scheduleBackgroundProcessing]
    resolved.  The result is [false] when the function throws. *)
Definition scheduleBackgroundProcessingTask (taskName : string) (timeout : Z)
    (execution expired : nat) (submitted : bool) (s : State) : bool * State :=
  let s1 := addListener PLXBackground.BackgroundProcessingExpiredEvent expired
              (addListener PLXBackground.BackgroundProcessingExecutingEvent execution s) in
  if submitted then
    (true, insert_registeredCallbacks taskName (execution, expired) s1)
  else
    (false,
     removeListener PLXBackground.BackgroundProcessingExpiredEvent expired
       (removeListener PLXBackground.BackgroundProcessingExecutingEvent execution s1)).

(** [cancelAllBackgroundProcessingTasks()] *)
Definition cancelAllBackgroundProcessingTasks (s : State) : State :=
  let s1 := removeAllListeners PLXBackground.BackgroundProcessingExpiredEvent
              (removeAllListeners PLXBackground.BackgroundProcessingExecutingEvent s) in
  {| nextTimeoutId := nextTimeoutId s1;
     registeredCallbacks := ∅;
     listeners := listeners s1;
     clock := clock s1;
     native := native s1 |}.

(** [completeBackgroundProcessingTask(taskName, result)] *)
Definition completeBackgroundProcessingTask (taskName : string) (result : bool)
    (s : State) : State :=
  let s1 :=
    match registeredCallbacks s !! taskName with
    | Some (execution, expired) =>
        delete_registeredCallbacks taskName
          (removeListener PLXBackground.BackgroundProcessingExpiredEvent expired
             (removeListener PLXBackground.BackgroundProcessingExecutingEvent execution s))
    | None => s
    end in
  set_native (PLXBackground.completeBackgroundProcessing taskName result (native s1)) s1.

(** The dispatch queue runs block [b] at time [deadline]. *)
Definition runTimer (b : nat) (deadline : Z) (s : State) : State :=
  set_native (PLXBackground.runBlock b (native s)) (set_clock deadline s).

End Background.

(** ** The tick protocol and the connection sequence: BleManager.ts *)

Module BleManager.

Definition serviceUUID : string := "00001000-3a53-9db1-0643-2a72eaff78b2".
Definition txUUID : string := "00001001-3a53-9db1-0643-2a72eaff78b2".
Definition rxUUID : string := "00001002-3a53-9db1-0643-2a72eaff78b2".

(** A JavaScript [Error] created by this code, or a [BleError] coming from
    the transport. *)
Inductive Error :=
| JsError (message : string)
| BleError (message : string).

(** The error [downloadTicks] rejects an out-of-range request with; the
    specification calls it [InvalidArgument]. *)
Definition InvalidArgument : Error :=
  JsError "Total ticks number should be > 0 and < 256".

Inductive Promise (A : Type) :=
| Pending
| Resolved (a : A)
| Rejected (e : Error).
Arguments Pending {A}.
Arguments Resolved {A} a.
Arguments Rejected {A} e.

(** [resolve] and [reject] only act on a pending promise. *)
Definition settle {A} (outcome : Promise A) (p : Promise A) : Promise A :=
  match p with
  | Pending => outcome
  | _ => p
  end.

(** A characteristic as the monitor listener receives it.  [value] is the
    payload after [Base64.toByteArray], one integer in 0..255 per byte. *)
Record Characteristic := { value : option (list Z) }.

(** [new DataView(bytes.buffer).getUint32(0, true)]: little endian; a buffer
    shorter than four bytes makes it throw a [RangeError]. *)
Definition getUint32 (bytes : list Z) : option Z :=
  match bytes with
  | b0 :: b1 :: b2 :: b3 :: _ =>
      Some (Z.lor (Z.lor b0 (Z.shiftl b1 8))
                  (Z.lor (Z.shiftl b2 16) (Z.shiftl b3 24)))
  | _ => None
  end.

(** Storing a number in a [Uint8Array]. *)
Definition toUint8 (n : Z) : Z := n mod 256.

(** What a session does to the device and to its own promise, in order. *)
Inductive Call :=
| MonitorCharacteristic (service characteristic : string)
| WriteWithoutResponse (service characteristic : string) (bytes : list Z)
| SubscriptionRemove
| PromiseResolve
| PromiseReject (e : Error).

(** *** downloadTicks *)

(** The variables of one [downloadTicks] call: the counter, the promise, and
    what the transport holds for it: the monitor subscription
    ([monitoring], from [monitorCharacteristicForService] until
    [subscription.remove()]) and the write in flight. *)
Record Download := {
  receivedTicks : Z;
  promise : Promise Z;
  monitoring : bool;
  write_pending : bool;
  onTick_calls : list (Z * Z * Z);
  trace : list Call;
}.

Definition dl_call (c : Call) (s : Download) : Download :=
  {| receivedTicks := receivedTicks s; promise := promise s;
     monitoring := monitoring s; write_pending := write_pending s;
     onTick_calls := onTick_calls s; trace := trace s ++ [c] |}.

Definition dl_reject (e : Error) (s : Download) : Download :=
  let s1 := dl_call (PromiseReject e) s in
  {| receivedTicks := receivedTicks s1; promise := settle (Rejected e) (promise s1);
     monitoring := monitoring s1; write_pending := write_pending s1;
     onTick_calls := onTick_calls s1; trace := trace s1 |}.

Definition dl_resolve (v : Z) (s : Download) : Download :=
  let s1 := dl_call PromiseResolve s in
  {| receivedTicks := receivedTicks s1; promise := settle (Resolved v) (promise s1);
     monitoring := monitoring s1; write_pending := write_pending s1;
     onTick_calls := onTick_calls s1; trace := trace s1 |}.

(** [subscription.remove()] *)
Definition dl_remove (s : Download) : Download :=
  let s1 := dl_call SubscriptionRemove s in
  {| receivedTicks := receivedTicks s1; promise := promise s1;
     monitoring := false; write_pending := write_pending s1;
     onTick_calls := onTick_calls s1; trace := trace s1 |}.

(** [receivedTicks++] followed by [onTick(receivedTicks, totalTicks, ticks)] *)
Definition dl_tick (totalTicks ticks : Z) (s : Download) : Download :=
  let n := receivedTicks s + 1 in
  {| receivedTicks := n; promise := promise s;
     monitoring := monitoring s; write_pending := write_pending s;
     onTick_calls := onTick_calls s ++ [(n, totalTicks, ticks)];
     trace := trace s |}.

(** The promise executor of [downloadTicks(device, totalTicks, onTick)], run
    up to the point where it returns.  [totalTicks] is an integral number
    and [onTick] is supplied. *)
Definition downloadTicks (totalTicks : Z) : Download :=
  if (totalTicks <=? 0) || (totalTicks >=? 256) then
    {| receivedTicks := 0; promise := Rejected InvalidArgument;
       monitoring := false; write_pending := false;
       onTick_calls := [];
       trace := [PromiseReject InvalidArgument] |}
  else
    {| receivedTicks := 0; promise := Pending;
       monitoring := true; write_pending := true;
       onTick_calls := [];
       trace := [MonitorCharacteristic serviceUUID rxUUID;
                 WriteWithoutResponse serviceUUID txUUID [toUint8 totalTicks]] |}.

(** The listener passed to [monitorCharacteristicForService]. *)
Definition download_listener (totalTicks : Z) (error : option Error)
    (characteristic : option Characteristic) (s : Download) : Download :=
  match error with
  | Some e => dl_reject e s
  | None =>
      match characteristic with
      | Some c =>
          match value c with
          | Some bytes =>
              match getUint32 bytes with
              | Some ticks =>
                  let s1 := dl_tick totalTicks ticks s in
                  if receivedTicks s1 =? totalTicks then
                    dl_resolve totalTicks (dl_remove s1)
                  else s1
              | None => s
              end
          | None => s
          end
      | None => s
      end
  end.

(** The two continuations of the write. *)
Definition download_written (error : option Error) (s : Download) : Download :=
  let s1 :=
    {| receivedTicks := receivedTicks s; promise := promise s;
       monitoring := monitoring s; write_pending := false;
       onTick_calls := onTick_calls s; trace := trace s |} in
  match error with
  | None => s1
  | Some e => dl_reject e (dl_remove s1)
  end.

(** What the transport can do to a session: call the listener of a live
    subscription, or finish the write that is in flight. *)
Inductive DownloadEvent :=
| Notified (error : option Error) (characteristic : option Characteristic)
| Written (error : option Error).

Definition download_step (totalTicks : Z) (s : Download) (ev : DownloadEvent) : Download :=
  match ev with
  | Notified error characteristic =>
      if monitoring s then download_listener totalTicks error characteristic s else s
  | Written error =>
      if write_pending s then download_written error s else s
  end.

Definition download_run (totalTicks : Z) (evs : list DownloadEvent) : Download :=
  foldl (download_step totalTicks) (downloadTicks totalTicks) evs.

(** The tick carried by an event, if the listener gets to read one. *)
Definition tick_of (ev : DownloadEvent) : option Z :=
  match ev with
  | Notified None (Some c) => value c ≫= getUint32
  | _ => None
  end.

(** Events of a stream without a transport error in which every payload has
    its four bytes. *)
Definition clean (ev : DownloadEvent) : bool :=
  match ev with
  | Notified None (Some c) =>
      match value c with
      | Some bytes => bool_decide (4 ≤ length bytes)%nat
      | None => true
      end
  | Notified None None => true
  | Notified (Some _) _ => false
  | Written None => true
  | Written (Some _) => false
  end.

(** *** waitForPendingTicks *)

(** The variables of one [waitForPendingTicks] call: the two slots of
    [subscriptions], the promise, and around them the timer wrapper and the
    monitor subscription held by the transport.  [settled_at] is the clock
    reading at which the promise was settled.

    Each [Background.setTimeout] call of the session attaches the timeout
    callback to the promise of one native call, that is, to one dispatch
    block: [timer_blocks] lists these blocks, the newest last, and
    [resolved_blocks] those of them whose promise the module has resolved
    and whose continuation has not run yet. *)
Record Idle := {
  bg : Background.State;
  subscriptions_monitor : bool;
  subscriptions_timeout : option nat;
  idle_monitoring : bool;
  idle_promise : Promise unit;
  settled_at : option Z;
  idle_onTick_calls : list Z;
  idle_trace : list Call;
  timer_blocks : list nat;
  resolved_blocks : list nat;
}.

Definition set_bg (b : Background.State) (s : Idle) : Idle :=
  {| bg := b; subscriptions_monitor := subscriptions_monitor s;
     subscriptions_timeout := subscriptions_timeout s;
     idle_monitoring := idle_monitoring s; idle_promise := idle_promise s;
     settled_at := settled_at s; idle_onTick_calls := idle_onTick_calls s;
     idle_trace := idle_trace s;
     timer_blocks := timer_blocks s; resolved_blocks := resolved_blocks s |}.

Definition set_monitor (m : bool) (s : Idle) : Idle :=
  {| bg := bg s; subscriptions_monitor := m;
     subscriptions_timeout := subscriptions_timeout s;
     idle_monitoring := idle_monitoring s; idle_promise := idle_promise s;
     settled_at := settled_at s; idle_onTick_calls := idle_onTick_calls s;
     idle_trace := idle_trace s;
     timer_blocks := timer_blocks s; resolved_blocks := resolved_blocks s |}.

Definition set_timeout (t : option nat) (s : Idle) : Idle :=
  {| bg := bg s; subscriptions_monitor := subscriptions_monitor s;
     subscriptions_timeout := t;
     idle_monitoring := idle_monitoring s; idle_promise := idle_promise s;
     settled_at := settled_at s; idle_onTick_calls := idle_onTick_calls s;
     idle_trace := idle_trace s;
     timer_blocks := timer_blocks s; resolved_blocks := resolved_blocks s |}.

Definition set_timer_blocks (l : list nat) (s : Idle) : Idle :=
  {| bg := bg s; subscriptions_monitor := subscriptions_monitor s;
     subscriptions_timeout := subscriptions_timeout s;
     idle_monitoring := idle_monitoring s; idle_promise := idle_promise s;
     settled_at := settled_at s; idle_onTick_calls := idle_onTick_calls s;
     idle_trace := idle_trace s;
     timer_blocks := l; resolved_blocks := resolved_blocks s |}.

Definition set_resolved_blocks (l : list nat) (s : Idle) : Idle :=
  {| bg := bg s; subscriptions_monitor := subscriptions_monitor s;
     subscriptions_timeout := subscriptions_timeout s;
     idle_monitoring := idle_monitoring s; idle_promise := idle_promise s;
     settled_at := settled_at s; idle_onTick_calls := idle_onTick_calls s;
     idle_trace := idle_trace s;
     timer_blocks := timer_blocks s; resolved_blocks := l |}.

(** [subscriptions.monitor.remove()] *)
Definition idle_remove (s : Idle) : Idle :=
  {| bg := bg s; subscriptions_monitor := subscriptions_monitor s;
     subscriptions_timeout := subscriptions_timeout s;
     idle_monitoring := false; idle_promise := idle_promise s;
     settled_at := settled_at s; idle_onTick_calls := idle_onTick_calls s;
     idle_trace := idle_trace s ++ [SubscriptionRemove];
     timer_blocks := timer_blocks s; resolved_blocks := resolved_blocks s |}.

Definition idle_settle (outcome : Promise unit) (c : Call) (s : Idle) : Idle :=
  {| bg := bg s; subscriptions_monitor := subscriptions_monitor s;
     subscriptions_timeout := subscriptions_timeout s;
     idle_monitoring := idle_monitoring s;
     idle_promise := settle outcome (idle_promise s);
     settled_at := match idle_promise s with
                   | Pending => Some (Background.clock (bg s))
                   | _ => settled_at s
                   end;
     idle_onTick_calls := idle_onTick_calls s;
     idle_trace := idle_trace s ++ [c];
     timer_blocks := timer_blocks s; resolved_blocks := resolved_blocks s |}.

Definition idle_resolve (s : Idle) : Idle := idle_settle (Resolved tt) PromiseResolve s.
Definition idle_reject (e : Error) (s : Idle) : Idle :=
  idle_settle (Rejected e) (PromiseReject e) s.

(** [onTick(ticks)] *)
Definition idle_tick (ticks : Z) (s : Idle) : Idle :=
  {| bg := bg s; subscriptions_monitor := subscriptions_monitor s;
     subscriptions_timeout := subscriptions_timeout s;
     idle_monitoring := idle_monitoring s; idle_promise := idle_promise s;
     settled_at := settled_at s;
     idle_onTick_calls := idle_onTick_calls s ++ [ticks];
     idle_trace := idle_trace s;
     timer_blocks := timer_blocks s; resolved_blocks := resolved_blocks s |}.

(** [clearSubscriptions] *)
Definition clearSubscriptions (s : Idle) : Idle :=
  let s1 :=
    if subscriptions_monitor s then set_monitor false (idle_remove s) else s in
  match subscriptions_timeout s1 with
  | Some timeoutId =>
      set_timeout None (set_bg (Background.clearTimeout timeoutId (bg s1)) s1)
  | None => s1
  end.

(** The callback both [Background.setTimeout] calls pass. *)
Definition timeoutCallback (s : Idle) : Idle :=
  idle_resolve (clearSubscriptions (set_timeout None s)).

(** [subscriptions.timeout = Background.setTimeout(..., tickTimeout)].  The
    native call creates the next block, and the callback becomes the
    continuation of that call's promise. *)
Definition startTickTimeout (tickTimeout : Z) (s : Idle) : Idle :=
  let work := length (PLXBackground.blocks (Background.native (bg s))) in
  let '(timeoutId, b) := Background.setTimeout tickTimeout (bg s) in
  set_timer_blocks (timer_blocks s ++ [work])
    (set_timeout (Some timeoutId) (set_bg b s)).

(** The promise executor of [waitForPendingTicks(device, tickTimeout, onTick)],
    with [onTick] supplied. *)
Definition waitForPendingTicks (tickTimeout : Z) (b : Background.State) : Idle :=
  let s0 :=
    {| bg := b; subscriptions_monitor := false; subscriptions_timeout := None;
       idle_monitoring := false; idle_promise := Pending; settled_at := None;
       idle_onTick_calls := []; idle_trace := [];
       timer_blocks := []; resolved_blocks := [] |} in
  let s1 := startTickTimeout tickTimeout s0 in
  {| bg := bg s1; subscriptions_monitor := true;
     subscriptions_timeout := subscriptions_timeout s1;
     idle_monitoring := true; idle_promise := idle_promise s1;
     settled_at := settled_at s1; idle_onTick_calls := idle_onTick_calls s1;
     idle_trace := idle_trace s1 ++ [MonitorCharacteristic serviceUUID rxUUID];
     timer_blocks := timer_blocks s1; resolved_blocks := resolved_blocks s1 |}.

(** The listener passed to [monitorCharacteristicForService].  The result is
    [None] when the listener throws: [getUint32] raises a [RangeError] on a
    payload of fewer than four bytes, before anything else is done, and
    nothing in the listener catches it. *)
Definition idle_listener (tickTimeout : Z) (error : option Error)
    (characteristic : option Characteristic) (s : Idle) : option Idle :=
  match error with
  | Some e => Some (idle_reject e (clearSubscriptions (set_monitor false s)))
  | None =>
      match characteristic with
      | Some c =>
          match value c with
          | Some bytes =>
              match getUint32 bytes with
              | Some ticks =>
                  let s1 := idle_tick ticks s in
                  let s2 :=
                    match subscriptions_timeout s1 with
                    | Some timeoutId =>
                        set_bg (Background.clearTimeout timeoutId (bg s1)) s1
                    | None => s1
                    end in
                  Some (startTickTimeout tickTimeout s2)
              | None => None
              end
          | None => Some s
          end
      | None => Some s
      end
  end.

(** Whether the step from [w] to [w'] made the module resolve a promise: the
    one effect the step added is a [resolve] call. *)
Definition resolves (w w' : PLXBackground.World) : bool :=
  match drop (length (PLXBackground.effects w)) (PLXBackground.effects w') with
  | [PLXBackground.Resolve _] => true
  | _ => false
  end.

(** What can happen while a session is open, each on the JavaScript thread
    or on the main queue, one at a time and in any order:
    - the transport calls the monitor listener at time [t] (only the
      listener of a live subscription is called);
    - the main queue runs block [b] at time [t]; when the block resolves its
      promise and the promise is one the session's callback is attached to,
      the continuation is queued;
    - the queued continuation of block [b] runs the timeout callback;
    - other code calls [Background.setTimeout] or [Background.clearTimeout].
    A call from JavaScript into the module takes effect at once. *)
Inductive IdleEvent :=
| Monitored (t : Z) (error : option Error) (characteristic : option Characteristic)
| TimerBlockRuns (b : nat) (t : Z)
| Continues (b : nat)
| OtherSetTimeout (timeout : Z)
| OtherClearTimeout (timeoutId : nat).

Definition idle_step (tickTimeout : Z) (s : Idle) (ev : IdleEvent) : option Idle :=
  match ev with
  | Monitored t error characteristic =>
      let s1 := set_bg (Background.set_clock t (bg s)) s in
      if idle_monitoring s1 then idle_listener tickTimeout error characteristic s1
      else Some s1
  | TimerBlockRuns b t =>
      let s1 := set_bg (Background.runTimer b t (bg s)) s in
      if resolves (Background.native (bg s)) (Background.native (bg s1))
         && bool_decide (b ∈ timer_blocks s)
      then Some (set_resolved_blocks (resolved_blocks s ++ [b]) s1)
      else Some s1
  | Continues b =>
      if bool_decide (b ∈ resolved_blocks s)
      then Some (timeoutCallback
                   (set_resolved_blocks
                      (List.filter (fun b' => negb (bool_decide (b' = b)))
                         (resolved_blocks s)) s))
      else Some s
  | OtherSetTimeout timeout =>
      Some (set_bg (Background.setTimeout timeout (bg s)).2 s)
  | OtherClearTimeout timeoutId =>
      Some (set_bg (Background.clearTimeout timeoutId (bg s)) s)
  end.

(** A run of events from state [s]; [None] when a listener threw. *)
Fixpoint idle_run (tickTimeout : Z) (s : Idle) (evs : list IdleEvent) : option Idle :=
  match evs with
  | [] => Some s
  | ev :: rest =>
      match idle_step tickTimeout s ev with
      | Some s' => idle_run tickTimeout s' rest
      | None => None
      end
  end.

(** The block of the timer [subscriptions.timeout] names, while the module
    holds it. *)
Definition current_block (s : Idle) : option nat :=
  match subscriptions_timeout s with
  | Some timeoutId =>
      PLXBackground.pendingTimers (Background.native (bg s))
        !! Background.Number_toString timeoutId
  | None => None
  end.

(** The events that leave a waiting session waiting: notifications without
    an error whose payload, if there is one, has its four bytes; blocks
    other than the one of the session's pending timer; continuations; and
    timer calls of other code that do not clear the session's timer. *)
Definition keeps_waiting (s : Idle) (ev : IdleEvent) : bool :=
  match ev with
  | Monitored _ None None => true
  | Monitored _ None (Some c) =>
      match value c with
      | Some bytes => bool_decide (4 ≤ length bytes)%nat
      | None => true
      end
  | Monitored _ (Some _) _ => false
  | TimerBlockRuns b _ => bool_decide (current_block s ≠ Some b)
  | Continues _ => true
  | OtherSetTimeout _ => true
  | OtherClearTimeout timeoutId => bool_decide (subscriptions_timeout s ≠ Some timeoutId)
  end.

Fixpoint waiting_run (tickTimeout : Z) (s : Idle) (evs : list IdleEvent) : bool :=
  match evs with
  | [] => true
  | ev :: rest =>
      keeps_waiting s ev
      && match idle_step tickTimeout s ev with
         | Some s' => waiting_run tickTimeout s' rest
         | None => false
         end
  end.

(** What may happen between the run of the session's block [cur] and the
    run of its continuation without changing the outcome: anything but a
    call of the monitor listener. *)
Definition in_gap (cur : nat) (ev : IdleEvent) : bool :=
  match ev with
  | Monitored _ _ _ => false
  | Continues b => negb (bool_decide (b = cur))
  | _ => true
  end.

(** The value a notification makes the listener read. *)
Definition idle_tick_of (ev : IdleEvent) : option Z :=
  match ev with
  | Monitored _ None (Some c) => value c ≫= getUint32
  | _ => None
  end.

(** The arrival time of the last notification that carried a value,
    [start] if there is none. *)
Fixpoint last_value_time (start : Z) (evs : list IdleEvent) : Z :=
  match evs with
  | [] => start
  | Monitored t None (Some {| value := Some _ |}) :: rest => last_value_time t rest
  | _ :: rest => last_value_time start rest
  end.

(** The clock after the events [evs], when it read [start] before them. *)
Fixpoint clock_after (start : Z) (evs : list IdleEvent) : Z :=
  match evs with
  | [] => start
  | Monitored t _ _ :: rest => clock_after t rest
  | TimerBlockRuns _ t :: rest => clock_after t rest
  | _ :: rest => clock_after start rest
  end.

(** A value notification carrying the four bytes of [v], little endian. *)
Definition frame (v : Z) : Characteristic :=
  {| value := Some [Z.land v 255; Z.land (Z.shiftr v 8) 255;
                    Z.land (Z.shiftr v 16) 255; Z.land (Z.shiftr v 24) 255] |}.

(** *** establishConnection and the scheduled job *)

Definition Device : Type := string.

(** [State] of react-native-ble-plx: the states of the radio. *)
Inductive State :=
| Unknown
| Resetting
| Unsupported
| Unauthorized
| PoweredOff
| PoweredOn.

Global Instance State_eq_dec : EqDecision State.
Proof. solve_decision. Defined.

(** The value of a [State] inside a template literal. *)
Definition State_toString (st : State) : string :=
  match st with
  | Unknown => "Unknown"
  | Resetting => "Resetting"
  | Unsupported => "Unsupported"
  | Unauthorized => "Unauthorized"
  | PoweredOff => "PoweredOff"
  | PoweredOn => "PoweredOn"
  end.

(** The calls an [async] function makes on the manager, on a device and on
    the log, in program order. *)
Inductive Op :=
| Log (message : string)
| OnStateChange
| StateSubscriptionRemove
| ConnectedDevices (serviceUUIDs : list string)
| StartDeviceScan (serviceUUIDs : list string) (timeout : Z)
| OnDisconnected (device : Device)
| IsConnected (device : Device)
| Connect (device : Device) (timeout : Z)
| DiscoverAllServicesAndCharacteristics (device : Device)
| DownloadTicks (device : Device) (totalTicks : Z)
| CancelConnection (device : Device).

(** How an awaited promise ends: it resolves, it rejects, or it stays
    pending for ever. *)
Inductive Outcome (A : Type) :=
| Returned (a : A)
| Thrown (e : Error)
| Waiting.
Arguments Returned {A} a.
Arguments Thrown {A} e.
Arguments Waiting {A}.

(** An [async] function: the calls made so far and how it ended. *)
Definition Async (A : Type) : Type := list Op * Outcome A.

Global Instance Async_ret : MRet Async := fun A a => ([], Returned a).

Global Instance Async_bind : MBind Async := fun A B k m =>
  match m.2 with
  | Returned a => (m.1 ++ (k a).1, (k a).2)
  | Thrown e => (m.1, Thrown e)
  | Waiting => (m.1, Waiting)
  end.

(** [await] on a call whose promise the transport settles with [o]. *)
Definition await {A} (op : Op) (o : Outcome A) : Async A := ([op], o).

Definition log (message : string) : Async unit := ([Log message], Returned tt).

(** The transport the functions below run against: the states the manager
    passes to a state listener (the current state first, the listener being
    registered with [emitCurrentState], then every change), and how each
    promise they await is settled. *)
Record Transport := {
  stateChanges : list State;
  connectedDevices : list string → Outcome (list Device);
  scanned : Outcome Device;
  isConnected : Device → Outcome bool;
  connect : Device → Outcome unit;
  discoverAllServicesAndCharacteristics : Device → Outcome unit;
  downloaded : Device → Z → Outcome Z;
  connectedAtCleanup : list string → Outcome (list Device);
  cancelConnection : Device → Outcome unit;
}.

Section Connection.
Variable tr : Transport.

(** The line the state listener logs for a state. *)
Definition stateLog (st : State) : Op := Log ("BLE state: " +:+ State_toString st).

(** The listener [waitForBLEState(state)] registers: it logs every state it
    is told; on the state waited for it removes its subscription and
    resolves the promise. *)
Fixpoint stateListener (state : State) (reported : list State) : Async unit :=
  match reported with
  | [] => ([], Waiting)
  | newState :: rest =>
      _ ← log ("BLE state: " +:+ State_toString newState);
      if decide (newState = state) then await StateSubscriptionRemove (Returned tt)
      else stateListener state rest
  end.

(** [waitForBLEState(state)]: resolves once the listener sees the state, and
    never rejects. *)
Definition waitForBLEState (state : State) : Async unit :=
  _ ← await OnStateChange (Returned tt);
  stateListener state (stateChanges tr).

(** [scanDevice(timeout)]: starts the scan; the promise resolves with the
    first matching device and rejects on a scan error or on the timeout. *)
Definition scanDevice (timeout : Z) : Async Device :=
  await (StartDeviceScan [serviceUUID] timeout) (scanned tr).

(** [connectToDevice(device, timeout, onDisconnected)] *)
Definition connectToDevice (device : Device) (timeout : Z) : Async Device :=
  _ ← await (OnDisconnected device) (Returned tt);
  connected ← await (IsConnected device) (isConnected tr device);
  _ ← (if connected : bool then log "Device is already connected"
       else _ ← log "Connecting to the device...";
            await (Connect device timeout) (connect tr device));
  _ ← log "Discovering device...";
  _ ← await (DiscoverAllServicesAndCharacteristics device)
        (discoverAllServicesAndCharacteristics tr device);
  _ ← log "Device connected!";
  mret device.

(** [establishConnection(onDisconnected)] *)
Definition establishConnection : Async Device :=
  _ ← log "Waiting for PoweredOn state...";
  _ ← waitForBLEState PoweredOn;
  _ ← log "Checking connected devices...";
  connectedDevices ← await (ConnectedDevices [serviceUUID])
                       (connectedDevices tr [serviceUUID]);
  device ← match connectedDevices with
           | device :: _ => _ ← log "Already connected..."; mret device
           | [] => _ ← log "Scanning for device..."; scanDevice 5000
           end;
  _ ← log "Preparing connection...";
  _ ← connectToDevice device 5000;
  mret device.

(** [cancelAllConnections()] *)
Fixpoint cancelEach (devices : list Device) : Async unit :=
  match devices with
  | [] => mret tt
  | device :: rest =>
      _ ← await (CancelConnection device) (cancelConnection tr device);
      cancelEach rest
  end.

Definition cancelAllConnections : Async unit :=
  connectedDevices ← await (ConnectedDevices [serviceUUID])
                       (connectedAtCleanup tr [serviceUUID]);
  cancelEach connectedDevices.

(** The body of the [async] arrow inside the execution callback of
    [scheduleBackgroundProcessingTask]. *)
Definition longRunningJob : Async unit :=
  device ← establishConnection;
  _ ← await (DownloadTicks device 10) (downloaded tr device 10);
  cancelAllConnections.

End Connection.

(** The [.then(...)] and [.catch(...)] attached to the job: both log and
    complete the task with [true]; nothing runs while the job is pending. *)
Definition jobSettled (taskName : string) (outcome : Outcome unit)
    (s : Background.State) : Background.State :=
  match outcome with
  | Returned _ => Background.completeBackgroundProcessingTask taskName true s
  | Thrown _ => Background.completeBackgroundProcessingTask taskName true s
  | Waiting => s
  end.

(** The execution callback, from the event to the end of the job. *)
Definition taskExecutionCallback (tr : Transport) (taskName : string)
    (s : Background.State) : Background.State :=
  jobSettled taskName (longRunningJob tr).2 s.

(** The expiration callback. *)
Definition taskExpiredCallback (taskName : string)
    (s : Background.State) : Background.State :=
  Background.completeBackgroundProcessingTask taskName false s.

(** [scheduleBackgroundProcessingTask()] *)
Definition scheduleBackgroundProcessingTask (execution expired : nat)
    (submitted : bool) (s : Background.State) : bool * Background.State :=
  Background.scheduleBackgroundProcessingTask "LongRunningTask" (16 * 60 * 1000)
    execution expired submitted
    (Background.cancelAllBackgroundProcessingTasks s).

End BleManager.

(** ** Invariants used below *)

Module Invariants.

(** Every block that is still going to run is the one [pendingTimers] holds
    for its identifier. *)
Definition registry_tracks_live (w : PLXBackground.World) : Prop :=
  ∀ b blk,
    PLXBackground.blocks w !! b = Some blk →
    PLXBackground.blk_status blk = PLXBackground.Scheduled →
    PLXBackground.pendingTimers w !! PLXBackground.blk_timeoutId blk = Some b.

Definition SubscriptionRemove_absent (tr : list BleManager.Call) : Prop :=
  BleManager.SubscriptionRemove ∉ tr.

(** The session after the listener has read [ticks]: one [onTick] call per
    tick up to [totalTicks]; below [totalTicks] the promise is pending and
    the subscription live, from [totalTicks] on the subscription has been
    removed and then the promise resolved. *)
Definition expected_calls (totalTicks : Z) (ticks : list Z) : list (Z * Z * Z) :=
  imap (fun i v => (Z.of_nat (S i), totalTicks, v)) (take (Z.to_nat totalTicks) ticks).

Definition download_inv (totalTicks : Z) (ticks : list Z)
    (s : BleManager.Download) : Prop :=
  BleManager.onTick_calls s = expected_calls totalTicks ticks
  ∧ if decide (Z.of_nat (length ticks) < totalTicks) then
      BleManager.receivedTicks s = Z.of_nat (length ticks)
      ∧ BleManager.promise s = BleManager.Pending
      ∧ BleManager.monitoring s = true
      ∧ SubscriptionRemove_absent (BleManager.trace s)
    else
      BleManager.promise s = BleManager.Resolved totalTicks
      ∧ BleManager.monitoring s = false
      ∧ ∃ pre, BleManager.trace s
               = pre ++ [BleManager.SubscriptionRemove; BleManager.PromiseResolve].

End Invariants.

(** ** Runs through the wrapper, and more invariants *)

Module TimerRuns.

(** Every entry of [pendingTimers] names a block that is still going to run
    and that captured the identifier it is stored under. *)
Definition registry_entries_live (w : PLXBackground.World) : Prop :=
  ∀ timeoutId b,
    PLXBackground.pendingTimers w !! timeoutId = Some b →
    ∃ blk, PLXBackground.blocks w !! b = Some blk
           ∧ PLXBackground.blk_status blk = PLXBackground.Scheduled
           ∧ PLXBackground.blk_timeoutId blk = timeoutId.

(** Block [b] exists and is not going to run any more. *)
Definition spent (b : nat) (w : PLXBackground.World) : Prop :=
  ∃ blk, PLXBackground.blocks w !! b = Some blk
         ∧ PLXBackground.blk_status blk ≠ PLXBackground.Scheduled.

(** What JavaScript and the dispatch queue can do to the timers through
    Background.ts: [setTimeout(callback, timeout)], [clearTimeout(timeoutId)],
    the queue running block [b] at time [t], and time passing. *)
Inductive JsTimerStep :=
| JsSetTimeout (timeout : Z)
| JsClearTimeout (timeoutId : nat)
| JsRunBlock (b : nat) (t : Z)
| JsClock (t : Z).

Definition js_timer_step (s : Background.State) (a : JsTimerStep) : Background.State :=
  match a with
  | JsSetTimeout timeout => (Background.setTimeout timeout s).2
  | JsClearTimeout timeoutId => Background.clearTimeout timeoutId s
  | JsRunBlock b t => Background.runTimer b t s
  | JsClock t => Background.set_clock t s
  end.

Definition js_timer_run (s : Background.State) (steps : list JsTimerStep) : Background.State :=
  foldl js_timer_step s steps.

(** Every identifier in [pendingTimers] is the spelling of a number the
    wrapper has handed out. *)
Definition keys_issued (s : Background.State) : Prop :=
  ∀ timeoutId b,
    PLXBackground.pendingTimers (Background.native s) !! timeoutId = Some b →
    ∃ k, (k < Background.nextTimeoutId s)%nat
         ∧ timeoutId = Background.Number_toString k.

(** What holds of a [downloadTicks] session whatever the transport does:
    [onTick] has been called [receivedTicks] times, with the counts 1, 2,
    ..., never more than [totalTicks] times, and a live subscription means
    there are ticks still to come. *)
Definition download_bounded (totalTicks : Z) (s : BleManager.Download) : Prop :=
  BleManager.receivedTicks s = Z.of_nat (length (BleManager.onTick_calls s))
  ∧ (fun c : Z * Z * Z => c.1.1) <$> BleManager.onTick_calls s
    = Z.of_nat <$> seq 1 (length (BleManager.onTick_calls s))
  ∧ BleManager.receivedTicks s <= totalTicks
  ∧ (BleManager.monitoring s = true → BleManager.receivedTicks s < totalTicks).

End TimerRuns.

(** ** Invariants of an idle-drain session *)

Module Sessions.

(** Every block captured the spelling of an identifier below [n]. *)
Definition issued_below (n : nat) (w : PLXBackground.World) : Prop :=
  ∀ i blk,
    PLXBackground.blocks w !! i = Some blk →
    ∃ k, (k < n)%nat ∧ PLXBackground.blk_timeoutId blk = Background.Number_toString k.

(** A timer module that has only been used through the wrapper: every block
    was created for an identifier the wrapper has handed out, and every
    entry of [pendingTimers] names a block that is still going to run. *)
Definition wrapper_state (b : Background.State) : Prop :=
  issued_below (Background.nextTimeoutId b) (Background.native b)
  ∧ TimerRuns.registry_entries_live (Background.native b).

(** The timer [timeoutId] is pending: [pendingTimers] holds block [cur] for
    it, the block is due at [deadline] and still going to run, and no other
    block captured the identifier. *)
Definition owns (timeoutId cur : nat) (deadline : Z) (w : PLXBackground.World) : Prop :=
  PLXBackground.pendingTimers w !! Background.Number_toString timeoutId = Some cur
  ∧ PLXBackground.blocks w !! cur
    = Some {| PLXBackground.blk_timeoutId := Background.Number_toString timeoutId;
              PLXBackground.blk_deadline := deadline;
              PLXBackground.blk_status := PLXBackground.Scheduled |}
  ∧ ∀ i blk,
      PLXBackground.blocks w !! i = Some blk →
      PLXBackground.blk_timeoutId blk = Background.Number_toString timeoutId →
      i = cur.

(** None of the session's blocks is going to run any more. *)
Definition timers_spent (s : BleManager.Idle) : Prop :=
  ∀ b, b ∈ BleManager.timer_blocks s →
       TimerRuns.spent b (Background.native (BleManager.bg s)).

(** An idle-drain session that is waiting: [subscriptions.timeout] names a
    pending timer due at [deadline], held in the newest of the session's
    blocks; the older blocks of the session are not going to run any more
    and no continuation is queued; the monitor is live, the promise pending
    and [onTick] has been called on [ticks]. *)
Definition idle_waiting (deadline : Z) (ticks : list Z) (s : BleManager.Idle) : Prop :=
  ∃ timeoutId cur,
    BleManager.subscriptions_timeout s = Some timeoutId
    ∧ (timeoutId < Background.nextTimeoutId (BleManager.bg s))%nat
    ∧ owns timeoutId cur deadline (Background.native (BleManager.bg s))
    ∧ wrapper_state (BleManager.bg s)
    ∧ (∃ older, BleManager.timer_blocks s = older ++ [cur]
                ∧ length older = length ticks
                ∧ ∀ b, b ∈ older →
                       TimerRuns.spent b (Background.native (BleManager.bg s)))
    ∧ BleManager.resolved_blocks s = []
    ∧ BleManager.subscriptions_monitor s = true
    ∧ BleManager.idle_monitoring s = true
    ∧ BleManager.idle_promise s = BleManager.Pending
    ∧ BleManager.settled_at s = None
    ∧ BleManager.idle_onTick_calls s = ticks
    ∧ BleManager.idle_trace s
      = [BleManager.MonitorCharacteristic BleManager.serviceUUID BleManager.rxUUID].

(** The session's timer has run in block [cur] and its continuation is
    queued: nothing has changed for the session yet. *)
Definition idle_fired (cur : nat) (ticks : list Z) (s : BleManager.Idle) : Prop :=
  BleManager.resolved_blocks s = [cur]
  ∧ timers_spent s
  ∧ TimerRuns.registry_entries_live (Background.native (BleManager.bg s))
  ∧ BleManager.subscriptions_monitor s = true
  ∧ BleManager.idle_monitoring s = true
  ∧ BleManager.idle_promise s = BleManager.Pending
  ∧ BleManager.settled_at s = None
  ∧ BleManager.idle_onTick_calls s = ticks
  ∧ BleManager.idle_trace s
    = [BleManager.MonitorCharacteristic BleManager.serviceUUID BleManager.rxUUID].

(** An idle-drain session that is over: the promise was settled with
    [outcome] at time [at_time], by the calls [calls]; both slots of
    [subscriptions] are empty, none of the session's blocks is going to run
    and no continuation is queued; the monitor subscription is live or not
    as [monitoring] says. *)
Definition idle_over (outcome : BleManager.Promise unit) (at_time : Z)
    (ticks : list Z) (monitoring : bool) (calls : list BleManager.Call)
    (s : BleManager.Idle) : Prop :=
  timers_spent s
  ∧ TimerRuns.registry_entries_live (Background.native (BleManager.bg s))
  ∧ BleManager.resolved_blocks s = []
  ∧ BleManager.subscriptions_monitor s = false
  ∧ BleManager.subscriptions_timeout s = None
  ∧ BleManager.idle_monitoring s = monitoring
  ∧ BleManager.idle_promise s = outcome
  ∧ BleManager.settled_at s = Some at_time
  ∧ BleManager.idle_onTick_calls s = ticks
  ∧ BleManager.idle_trace s
    = BleManager.MonitorCharacteristic BleManager.serviceUUID BleManager.rxUUID
      :: calls.

End Sessions.

(** ** Runs of the task registries *)

Module TaskRuns.

(** What the OS and JavaScript can do to the processing-task side of the
    module: the scheduler delivers a task, the OS runs the expiration handler
    installed for an identifier, JavaScript completes a task, and the
    emitter gains or loses its observers. *)
Inductive ProcessingStep :=
| OsLaunch (task : PLXBackground.BGProcessingTask)
| OsExpire (identifier : string)
| JsComplete (taskName : string) (result : bool)
| Observing (observed : bool).

Definition processing_step (w : PLXBackground.World) (a : ProcessingStep)
    : PLXBackground.World :=
  match a with
  | OsLaunch task => PLXBackground.backgroundTaskExecuting task w
  | OsExpire identifier => PLXBackground.processingTaskExpired identifier w
  | JsComplete taskName result => PLXBackground.completeBackgroundProcessing taskName result w
  | Observing true => PLXBackground.startObserving w
  | Observing false => PLXBackground.stopObserving w
  end.

Definition processing_run (w : PLXBackground.World) (steps : list ProcessingStep)
    : PLXBackground.World :=
  foldl processing_step w steps.

(** The task instances [setTaskCompletedWithSuccess:] was called on. *)
Definition reported (w : PLXBackground.World) : list PLXBackground.BGProcessingTask :=
  omap (fun e => match e with
                 | PLXBackground.SetTaskCompleted task _ => Some task
                 | _ => None
                 end) (PLXBackground.effects w).

(** The instances the scheduler delivered in a run. *)
Definition launched (steps : list ProcessingStep) : list nat :=
  omap (fun a => match a with
                 | OsLaunch task => Some (PLXBackground.instance task)
                 | _ => None
                 end) steps.

Definition processing_inv (seen : list nat) (w : PLXBackground.World) : Prop :=
  NoDup (reported w)
  ∧ (∀ task, task ∈ reported w → PLXBackground.instance task ∈ seen)
  ∧ (∀ k task, PLXBackground.executingTasks w !! k = Some task →
       PLXBackground.identifier task = k ∧ (task ∉ reported w)
       ∧ PLXBackground.instance task ∈ seen).

(** The same for background tasks: JavaScript starts a task and the OS
    answers with [identifier], JavaScript ends a task, the OS runs the
    expiration handler of a name, observers come and go. *)
Inductive BackgroundStep :=
| JsStart (taskName : string) (identifier : N)
| JsEnd (taskName : string)
| OsTaskExpire (taskName : string)
| TaskObserving (observed : bool).

Definition background_step (w : PLXBackground.World) (a : BackgroundStep)
    : PLXBackground.World :=
  match a with
  | JsStart taskName identifier => PLXBackground.startBackgroundTask taskName identifier w
  | JsEnd taskName => PLXBackground.endBackgroundTask taskName w
  | OsTaskExpire taskName => PLXBackground.backgroundTaskExpired taskName w
  | TaskObserving true => PLXBackground.startObserving w
  | TaskObserving false => PLXBackground.stopObserving w
  end.

Definition background_run (w : PLXBackground.World) (steps : list BackgroundStep)
    : PLXBackground.World :=
  foldl background_step w steps.

(** The tokens [endBackgroundTask:] was called on. *)
Definition ended (w : PLXBackground.World) : list N :=
  omap (fun e => match e with
                 | PLXBackground.EndBackgroundTask taskId => Some taskId
                 | _ => None
                 end) (PLXBackground.effects w).

(** The tokens the OS granted in a run. *)
Definition granted (steps : list BackgroundStep) : list N :=
  omap (fun a => match a with
                 | JsStart _ identifier =>
                     if decide (identifier = PLXBackground.UIBackgroundTaskInvalid)
                     then None else Some identifier
                 | _ => None
                 end) steps.

Definition background_inv (seen : list N) (w : PLXBackground.World) : Prop :=
  NoDup (ended w)
  ∧ (∀ taskId, taskId ∈ ended w → taskId ∈ seen)
  ∧ (∀ k taskId, PLXBackground.pendingBackgroundTasks w !! k = Some taskId →
       (taskId ∉ ended w) ∧ taskId ∈ seen)
  ∧ (∀ k k' taskId, PLXBackground.pendingBackgroundTasks w !! k = Some taskId →
       PLXBackground.pendingBackgroundTasks w !! k' = Some taskId → k = k').

End TaskRuns.

(** ** scanDevice *)

Module Scan.


(** What a scan does to the manager and to its own promise, in order. *)
Inductive ScanCall :=
| StartDeviceScan (uuids : list string) (allowDuplicates : bool)
| StopDeviceScan
| ScanResolve (device : BleManager.Device)
| ScanReject (e : BleManager.Error).

(** The variables of one [scanDevice] call: the [timeout] slot of
    [subscriptions], the promise, the timer wrapper, whether the manager is
    scanning for this call, and the block whose promise carries the timeout
    callback. *)
Record Scan := {
  bg : Background.State;
  subscriptions_timeout : option nat;
  timer_block : option nat;
  scanning : bool;
  promise : BleManager.Promise BleManager.Device;
  calls : list ScanCall;
}.

Definition set_bg (b : Background.State) (s : Scan) : Scan :=
  {| bg := b; subscriptions_timeout := subscriptions_timeout s;
     timer_block := timer_block s; scanning := scanning s;
     promise := promise s; calls := calls s |}.

Definition set_timeout (t : option nat) (s : Scan) : Scan :=
  {| bg := bg s; subscriptions_timeout := t;
     timer_block := timer_block s; scanning := scanning s;
     promise := promise s; calls := calls s |}.

(** [manager.stopDeviceScan()] *)
Definition stopDeviceScan (s : Scan) : Scan :=
  {| bg := bg s; subscriptions_timeout := subscriptions_timeout s;
     timer_block := timer_block s; scanning := false;
     promise := promise s; calls := calls s ++ [StopDeviceScan] |}.

Definition scan_settle (outcome : BleManager.Promise BleManager.Device)
    (c : ScanCall) (s : Scan) : Scan :=
  {| bg := bg s; subscriptions_timeout := subscriptions_timeout s;
     timer_block := timer_block s; scanning := scanning s;
     promise := BleManager.settle outcome (promise s);
     calls := calls s ++ [c] |}.

(** The truth value JavaScript gives a [number | null]: [null] and [0] are
    false. *)
Definition truthy (n : option nat) : bool :=
  match n with
  | Some (S _) => true
  | _ => false
  end.

(** [clearSubscriptions]: stops the scan, then clears the timer
    [if (subscriptions.timeout)]. *)
Definition clearSubscriptions (s : Scan) : Scan :=
  let s1 := stopDeviceScan s in
  if truthy (subscriptions_timeout s1) then
    match subscriptions_timeout s1 with
    | Some timeoutId =>
        set_timeout None (set_bg (Background.clearTimeout timeoutId (bg s1)) s1)
    | None => s1
    end
  else s1.

(** The error of the timeout callback. *)
Definition scanTimeoutError (timeout : Z) : BleManager.Error :=
  BleManager.JsError
    ("Scan timeout after " +:+ Background.Number_toString (Z.to_nat timeout) +:+ " ms").

(** The callback passed to [Background.setTimeout]. *)
Definition timeoutCallback (timeout : Z) (s : Scan) : Scan :=
  let e := scanTimeoutError timeout in
  scan_settle (BleManager.Rejected e) (ScanReject e)
    (clearSubscriptions (set_timeout None s)).

(** The promise executor of [scanDevice(timeout)]. *)
Definition scanDevice (timeout : Z) (b : Background.State) : Scan :=
  let s0 :=
    {| bg := b; subscriptions_timeout := None; timer_block := None;
       scanning := false; promise := BleManager.Pending; calls := [] |} in
  let s1 :=
    if 0 <? timeout then
      let '(timeoutId, b1) := Background.setTimeout timeout b in
      {| bg := b1; subscriptions_timeout := Some timeoutId;
         timer_block := Some (length (PLXBackground.blocks (Background.native b)));
         scanning := false; promise := BleManager.Pending; calls := [] |}
    else s0 in
  {| bg := bg s1; subscriptions_timeout := subscriptions_timeout s1;
     timer_block := timer_block s1; scanning := true;
     promise := promise s1;
     calls := calls s1 ++ [StartDeviceScan [BleManager.serviceUUID] true] |}.








End Scan.

(** ** Jobs under a background task *)

Module Jobs.

(** [startBackgroundTask(taskName, expiredCallback)] of Background.ts.
    [listener] names the closure it registers and [identifier] is the OS's
    answer to the native call, which rejects exactly when the answer is
    [UIBackgroundTaskInvalid].  The function returns [taskName] either
    way. *)
Definition startBackgroundTask (taskName : string) (listener : nat)
    (identifier : N) (s : Background.State) : Background.State :=
  let s1 := Background.addListener PLXBackground.BackgroundTaskExpiredEvent listener s in
  let s2 := Background.set_native
              (PLXBackground.startBackgroundTask taskName identifier (Background.native s1))
              s1 in
  if decide (identifier = PLXBackground.UIBackgroundTaskInvalid) then
    Background.removeListener PLXBackground.BackgroundTaskExpiredEvent listener s2
  else s2.

(** [Background.endBackgroundTask], which is the native method. *)
Definition endBackgroundTask (taskName : string) (s : Background.State) : Background.State :=
  Background.set_native (PLXBackground.endBackgroundTask taskName (Background.native s)) s.

(** The closure [startBackgroundTask] registers, for the expiration
    callback both [executeJob] and [restoredProcess] pass: log, then
    [Background.endBackgroundTask(taskName)]. *)
Definition expiredListener (taskName : string) (listener : nat)
    (eventTaskName : string) (s : Background.State) : Background.State :=
  if decide (eventTaskName = taskName) then
    Background.removeListener PLXBackground.BackgroundTaskExpiredEvent listener
      (endBackgroundTask taskName s)
  else s.

(** The OS runs the expiration handler of [taskName]; when the module sends
    the event, the emitter passes it to the listener if it is registered. *)
Definition osExpires (taskName : string) (listener : nat)
    (s : Background.State) : Background.State :=
  let w := Background.native s in
  let s1 := Background.set_native (PLXBackground.backgroundTaskExpired taskName w) s in
  if bool_decide (is_Some (PLXBackground.pendingBackgroundTasks w !! taskName))
     && PLXBackground.hasListeners w
     && bool_decide ((PLXBackground.BackgroundTaskExpiredEvent, listener)
                     ∈ Background.listeners s)
  then expiredListener taskName listener taskName s1
  else s1.

(** [executeJob(device)]: [taskName] is the spelling of [Date.now()] and
    [download] is how the promise of [downloadTicks(device, 255, ...)]
    settles. *)
Definition executeJob (taskName : string) (listener : nat) (identifier : N)
    (download : BleManager.Outcome Z) (s : Background.State)
    : Background.State * BleManager.Outcome unit :=
  let s1 := startBackgroundTask taskName listener identifier s in
  match download with
  | BleManager.Returned _ => (endBackgroundTask taskName s1, BleManager.Returned tt)
  | BleManager.Thrown e => (s1, BleManager.Thrown e)
  | BleManager.Waiting => (s1, BleManager.Waiting)
  end.

(** The [try] block of [restoredProcess(device)]; [drained] is how the
    promise of [waitForPendingTicks(device, 10000, ...)] settles. *)
Definition restoredBody (tr : BleManager.Transport) (device : BleManager.Device)
    (drained : BleManager.Outcome unit) : BleManager.Async unit :=
  _ ← BleManager.log "Make sure that device is connected...";
  _ ← BleManager.connectToDevice tr device 2000;
  _ ← BleManager.log "Waiting for pending events...";
  _ ← (([], drained) : BleManager.Async unit);
  _ ← BleManager.log "Closing all connections...";
  BleManager.cancelAllConnections tr.

(** [restoredProcess(device)]: the [catch] turns an error of the block into
    a log line, and the task is ended after it. *)
Definition restoredProcess (tr : BleManager.Transport) (device : BleManager.Device)
    (taskName : string) (listener : nat) (identifier : N)
    (drained : BleManager.Outcome unit) (s : Background.State)
    : Background.State * BleManager.Outcome unit :=
  let s1 := startBackgroundTask taskName listener identifier s in
  match (restoredBody tr device drained).2 with
  | BleManager.Waiting => (s1, BleManager.Waiting)
  | _ => (endBackgroundTask taskName s1, BleManager.Returned tt)
  end.

(** Whether a listener is one of a processing event. *)
Definition is_processing (l : string * nat) : bool :=
  bool_decide (l.1 = PLXBackground.BackgroundProcessingExecutingEvent
               ∨ l.1 = PLXBackground.BackgroundProcessingExpiredEvent).

(** The listeners of the processing events, and those of every other
    event. *)
Definition processing_listeners (s : Background.State) : list (string * nat) :=
  List.filter is_processing (Background.listeners s).

Definition other_listeners (s : Background.State) : list (string * nat) :=
  List.filter (fun l => negb (is_processing l)) (Background.listeners s).

End Jobs.

(** ** The log: Utils.ts *)

Module Utils.

(** The module-level variables [inForeground] and [logListeners], the store
    behind [AsyncStorage], the console, and the calls made to listeners as
    (listener, message) pairs. *)
Record State := {
  inForeground : bool;
  logListeners : list nat;
  storage : gmap string string;
  console : list string;
  delivered : list (nat * string);
}.

Definition init : State :=
  {| inForeground := true; logListeners := []; storage := ∅;
     console := []; delivered := [] |}.

(** [addLogListener(listener)] *)
Definition addLogListener (listener : nat) (u : State) : State :=
  {| inForeground := inForeground u; logListeners := logListeners u ++ [listener];
     storage := storage u; console := console u; delivered := delivered u |}.

(** [removeLogListener(listener)] *)
Definition removeLogListener (listener : nat) (u : State) : State :=
  {| inForeground := inForeground u;
     logListeners := List.filter (fun l => negb (bool_decide (l = listener))) (logListeners u);
     storage := storage u; console := console u; delivered := delivered u |}.

(** [log(message)] at [Date.now() = time], with [AsyncStorage.setItem]
    succeeding. *)
Definition log (time : nat) (message : string) (u : State) : State :=
  let key := Background.Number_toString time in
  let messageWithTime := key +:+ ": " +:+ message in
  {| inForeground := inForeground u; logListeners := logListeners u;
     storage := <[key := messageWithTime]> (storage u);
     console := console u ++ [messageWithTime];
     delivered :=
       delivered u
       ++ (if inForeground u
           then (fun l => (l, messageWithTime)) <$> logListeners u
           else []) |}.

(** The [AppState] listener, called with the new [state] at
    [Date.now() = time]: it sets [inForeground] and then logs the state. *)
Definition appStateChanged (time : nat) (state : string) (u : State) : State :=
  log time ("App state: " +:+ state)
    {| inForeground := bool_decide (state = "active"); logListeners := logListeners u;
       storage := storage u; console := console u; delivered := delivered u |}.

(** [clearAllLogs()] *)
Definition clearAllLogs (u : State) : State :=
  {| inForeground := inForeground u; logListeners := logListeners u;
     storage := ∅; console := console u; delivered := delivered u |}.

End Utils.

(** ** The timer service *)

Section Timers.
Import PLXBackground Invariants.

Lemma init_tracks_live : registry_tracks_live init.
Proof. intros b blk Hb. cbn in Hb. discriminate. Qed.

Lemma setTimeout_tracks_live now timeout timeoutId w :
  pendingTimers w !! timeoutId = None →
  registry_tracks_live w →
  registry_tracks_live (setTimeout now timeout timeoutId w).
Proof.
  intros Hfree Hinv b blk Hb Hs. cbn in Hb |- *.
  apply lookup_app_Some in Hb as [Hold | [Hge Hnew]].
  - pose proof (Hinv _ _ Hold Hs) as Hreg.
    rewrite lookup_insert_ne; [done |].
    intros ->. congruence.
  - destruct (b - length (blocks w))%nat as [| k] eqn:Hk; [| done].
    cbn in Hnew. injection Hnew as <-. cbn.
    replace b with (length (blocks w)) by lia.
    apply lookup_insert_eq.
Qed.

Lemma clearTimeout_tracks_live timeoutId w :
  registry_tracks_live w → registry_tracks_live (clearTimeout timeoutId w).
Proof.
  intros Hinv. unfold clearTimeout.
  destruct (pendingTimers w !! timeoutId) as [c |] eqn:Hc; [| done].
  intros b blk Hb Hs. cbn in Hb |- *.
  destruct (decide (b = c)) as [-> | Hne].
  - rewrite list_lookup_alter_eq in Hb.
    destruct (blocks w !! c) as [blk0 |]; cbn in Hb; [| done].
    injection Hb as <-.
    destruct (blk_status blk0) eqn:H0; cbn in Hs; congruence.
  - rewrite list_lookup_alter_ne in Hb by done.
    pose proof (Hinv _ _ Hb Hs) as Hreg.
    rewrite lookup_delete_ne; [done |].
    intros ->. congruence.
Qed.

Lemma runBlock_tracks_live c w :
  registry_tracks_live w → registry_tracks_live (runBlock c w).
Proof.
  intros Hinv. unfold runBlock.
  destruct (blocks w !! c) as [blk0 |] eqn:Hc; [| done].
  destruct (blk_status blk0) eqn:H0; try done.
  intros b blk Hb Hs. cbn in Hb |- *.
  destruct (decide (b = c)) as [-> | Hne].
  - rewrite list_lookup_insert_eq in Hb by (by eapply lookup_lt_Some).
    injection Hb as <-. discriminate.
  - rewrite list_lookup_insert_ne in Hb by done.
    pose proof (Hinv _ _ Hb Hs) as Hreg.
    rewrite lookup_delete_ne; [done |].
    intros Heq.
    pose proof (Hinv _ _ Hc H0) as Hreg0. rewrite Heq in Hreg0. congruence.
Qed.

Lemma timer_run_tracks_live steps : ∀ w,
  fresh_starts w steps = true →
  registry_tracks_live w →
  registry_tracks_live (timer_run w steps).
Proof.
  induction steps as [| a steps IH]; intros w Hfresh Hinv; [done |].
  cbn in Hfresh. apply andb_true_iff in Hfresh as [Ha Hrest].
  cbn. apply IH; [done |].
  destruct a as [now timeout timeoutId | timeoutId | b]; cbn.
  - apply setTimeout_tracks_live; [| done]. by apply bool_decide_eq_true in Ha.
  - by apply clearTimeout_tracks_live.
  - by apply runBlock_tracks_live.
Qed.

Lemma live_timers_elem timeoutId w b :
  In b (live_timers timeoutId w) →
  ∃ blk, blocks w !! b = Some blk ∧ blk_status blk = Scheduled
         ∧ blk_timeoutId blk = timeoutId.
Proof.
  unfold live_timers. rewrite filter_In. intros [_ Hlive].
  unfold is_live in Hlive.
  destruct (blocks w !! b) as [blk |]; [| done].
  apply bool_decide_eq_true in Hlive as [? ?]. eauto.
Qed.

Lemma tracked_live_timers_unique timeoutId w :
  registry_tracks_live w → (length (live_timers timeoutId w) ≤ 1)%nat.
Proof.
  intros Hinv.
  assert (Hnd : List.NoDup (live_timers timeoutId w)).
  { unfold live_timers. apply List.NoDup_filter, seq_NoDup. }
  assert (Hall : ∀ b, In b (live_timers timeoutId w) →
                      pendingTimers w !! timeoutId = Some b).
  { intros b Hb. apply live_timers_elem in Hb as (blk & Hb & Hs & <-). eauto. }
  destruct (live_timers timeoutId w) as [| b1 [| b2 l]]; cbn; [lia | lia |].
  exfalso.
  pose proof (Hall b1 (or_introl eq_refl)) as H1.
  pose proof (Hall b2 (or_intror (or_introl eq_refl))) as H2.
  assert (b1 = b2) as -> by congruence.
  apply List.NoDup_cons_iff in Hnd as [Hnotin _]. apply Hnotin. by left.
Qed.

End Timers.

Section TimerClaims.
Import PLXBackground Invariants.

(** C4, as amended.  In every run of start, cancel and fire steps from the
    initial module in which no identifier is started while [pendingTimers]
    still holds an entry for it, every identifier has at most one live
    timer. *)
Theorem at_most_one_live_timer_per_fresh_id steps timeoutId :
  fresh_starts init steps = true →
  (length (live_timers timeoutId (timer_run init steps)) ≤ 1)%nat.
Proof.
  intros Hfresh. apply tracked_live_timers_unique.
  by apply timer_run_tracks_live; [| apply init_tracks_live].
Qed.

Lemma at_most_one_live_timer_per_fresh_id_witness :
  let steps := [Start 0 10000 "0"; Fire 0; Start 10000 10000 "1";
                Cancel "1"; Start 12000 10000 "0"; Start 12000 500 "2"] in
  fresh_starts init steps = true ∧
  (length (live_timers "0" (timer_run init steps)) ≤ 1)%nat.
Proof.
  split.
  - vm_compute. reflexivity.
  - apply (at_most_one_live_timer_per_fresh_id
             [Start 0 10000 "0"; Fire 0; Start 10000 10000 "1";
              Cancel "1"; Start 12000 10000 "0"; Start 12000 500 "2"] "0").
    vm_compute. reflexivity.
Defined.

(** C4, as stated, fails.  Starting identifier "7" while its timer is still
    pending stores the new block over the old one without cancelling it:
    both blocks are live, and cancelling "7" afterwards stops only the
    second. *)
Lemma restarted_id_has_two_live_timers :
  let w := timer_run init [Start 0 10000 "7"; Start 9000 10000 "7"] in
  live_timers "7" w = [0; 1]%nat
  ∧ ¬ (length (live_timers "7" w) ≤ 1)%nat
  ∧ live_timers "7" (clearTimeout "7" w) = [0%nat].
Proof.
  cbn zeta. split; [vm_compute; reflexivity |].
  split; [| vm_compute; reflexivity].
  vm_compute. lia.
Qed.

End TimerClaims.

(** ** Background tasks and processing tasks *)

Section BackgroundTaskClaims.
Import PLXBackground.

Lemma endBackgroundTask_unknown taskName w :
  pendingBackgroundTasks w !! taskName = None → endBackgroundTask taskName w = w.
Proof. intros H. unfold endBackgroundTask. by rewrite H. Qed.

(** C6.  When the expiration handler of a background task runs while the
    registry holds a handle for its name: with an observer the module sends
    [BackgroundTaskExpired] with the task name, ends nothing and leaves the
    registry as it is; without an observer it ends the registered token and
    removes the handle. *)
Theorem backgroundTask_expiry_policy taskName taskId w :
  pendingBackgroundTasks w !! taskName = Some taskId →
  (hasListeners w = true →
     effects (backgroundTaskExpired taskName w)
       = effects w ++ [SendEvent BackgroundTaskExpiredEvent taskName]
     ∧ pendingBackgroundTasks (backgroundTaskExpired taskName w)
       = pendingBackgroundTasks w)
  ∧ (hasListeners w = false →
     effects (backgroundTaskExpired taskName w)
       = effects w ++ [EndBackgroundTask taskId]
     ∧ pendingBackgroundTasks (backgroundTaskExpired taskName w)
       = delete taskName (pendingBackgroundTasks w)).
Proof.
  intros Hreg. unfold backgroundTaskExpired. rewrite Hreg.
  split; intros ->; done.
Qed.

Lemma backgroundTask_expiry_policy_witness :
  let observed := startBackgroundTask "job" 7 (startObserving init) in
  let unobserved := startBackgroundTask "job" 7 init in
  (effects (backgroundTaskExpired "job" observed)
     = effects observed ++ [SendEvent BackgroundTaskExpiredEvent "job"]
   ∧ pendingBackgroundTasks (backgroundTaskExpired "job" observed)
     = pendingBackgroundTasks observed)
  ∧ (effects (backgroundTaskExpired "job" unobserved)
     = effects unobserved ++ [EndBackgroundTask 7]
   ∧ pendingBackgroundTasks (backgroundTaskExpired "job" unobserved)
     = delete "job" (pendingBackgroundTasks unobserved)).
Proof.
  split.
  - apply (backgroundTask_expiry_policy "job" 7
             (startBackgroundTask "job" 7 (startObserving init))).
    + vm_compute. reflexivity.
    + reflexivity.
  - apply (backgroundTask_expiry_policy "job" 7
             (startBackgroundTask "job" 7 init)).
    + vm_compute. reflexivity.
    + reflexivity.
Defined.

(** C7.  A granted [startBackgroundTask] followed at once by
    [endBackgroundTask] ends the granted token and leaves no handle under
    the name; starting the same name again then resolves and registers the
    new token exactly as it would have without the earlier pair; and
    [endBackgroundTask] on a name without a handle changes nothing, so
    ending twice is ending once. *)
Theorem begin_end_leaves_no_handle taskName identifier identifier' w :
  identifier ≠ UIBackgroundTaskInvalid →
  identifier' ≠ UIBackgroundTaskInvalid →
  let w1 := endBackgroundTask taskName (startBackgroundTask taskName identifier w) in
  let w2 := startBackgroundTask taskName identifier' w1 in
  (pendingBackgroundTasks w1 = delete taskName (pendingBackgroundTasks w)
   ∧ pendingBackgroundTasks w1 !! taskName = None
   ∧ effects w1 = effects w ++ [Resolve taskName; EndBackgroundTask identifier])
  ∧ (pendingBackgroundTasks w2 !! taskName = Some identifier'
     ∧ pendingBackgroundTasks w2
       = pendingBackgroundTasks (startBackgroundTask taskName identifier' w)
     ∧ effects w2 = effects w1 ++ [Resolve taskName])
  ∧ (∀ w0 name, pendingBackgroundTasks w0 !! name = None →
                endBackgroundTask name w0 = w0)
  ∧ endBackgroundTask taskName w1 = w1.
Proof.
  intros Hok Hok'. cbn zeta.
  assert (Hstart : ∀ i v, i ≠ UIBackgroundTaskInvalid →
            startBackgroundTask taskName i v
            = emit (Resolve taskName)
                (set_pendingBackgroundTasks
                   (<[taskName := i]> (pendingBackgroundTasks v)) v)).
  { intros i v Hi. unfold startBackgroundTask. by destruct (decide _). }
  set (w1 := endBackgroundTask taskName (startBackgroundTask taskName identifier w)).
  assert (Hpt1 : pendingBackgroundTasks w1 = delete taskName (pendingBackgroundTasks w)).
  { subst w1. rewrite Hstart by done. unfold endBackgroundTask. cbn.
    rewrite lookup_insert_eq. cbn. apply delete_insert_eq. }
  assert (Heff1 : effects w1 = effects w ++ [Resolve taskName; EndBackgroundTask identifier]).
  { subst w1. rewrite Hstart by done. unfold endBackgroundTask. cbn.
    rewrite lookup_insert_eq. cbn. by rewrite <- app_assoc. }
  assert (Hnone : pendingBackgroundTasks w1 !! taskName = None).
  { rewrite Hpt1. apply lookup_delete_eq. }
  rewrite !Hstart by done. cbn.
  repeat split; try done.
  - apply lookup_insert_eq.
  - rewrite Hpt1. by rewrite insert_delete_eq.
  - intros w0 name. apply endBackgroundTask_unknown.
  - by apply endBackgroundTask_unknown.
Qed.

Lemma begin_end_leaves_no_handle_witness :
  let w1 := endBackgroundTask "1583495305000"
              (startBackgroundTask "1583495305000" 3 init) in
  let w2 := startBackgroundTask "1583495305000" 4 w1 in
  pendingBackgroundTasks w1 !! "1583495305000" = None
  ∧ effects w1 = [Resolve "1583495305000"; EndBackgroundTask 3]
  ∧ pendingBackgroundTasks w2 !! "1583495305000" = Some 4%N
  ∧ endBackgroundTask "1583495305000" w1 = w1.
Proof.
  assert (H3 : 3%N ≠ UIBackgroundTaskInvalid) by (vm_compute; discriminate).
  assert (H4 : 4%N ≠ UIBackgroundTaskInvalid) by (vm_compute; discriminate).
  pose proof (begin_end_leaves_no_handle "1583495305000" 3 4 init H3 H4) as H.
  cbn zeta in H.
  destruct H as ((_ & Hnone & Heff) & (Hsome & _ & _) & _ & Hidem).
  exact (conj Hnone (conj Heff (conj Hsome Hidem))).
Defined.

End BackgroundTaskClaims.

Section ProcessingTaskClaims.
Import PLXBackground.

(** C8.  A processing task delivered while no observer is registered is
    reported to the OS as completed with success and the executing registry
    is left as it was; [completeBackgroundProcessing] on a name that is not
    in the registry changes nothing and reports nothing, and on a name that
    is there it removes the entry and reports the given result for the
    stored instance. *)
Theorem processing_task_without_observer task taskName result w :
  (hasListeners w = false →
     effects (backgroundTaskExecuting task w)
       = effects w ++ [SetTaskCompleted task true]
     ∧ executingTasks (backgroundTaskExecuting task w) = executingTasks w)
  ∧ (executingTasks w !! taskName = None →
     completeBackgroundProcessing taskName result w = w)
  ∧ (∀ stored, executingTasks w !! taskName = Some stored →
     executingTasks (completeBackgroundProcessing taskName result w)
       = delete taskName (executingTasks w)
     ∧ effects (completeBackgroundProcessing taskName result w)
       = effects w ++ [SetTaskCompleted stored result]).
Proof.
  split; [| split].
  - intros Hnone. unfold backgroundTaskExecuting. by rewrite Hnone.
  - intros Habsent. unfold completeBackgroundProcessing. by rewrite Habsent.
  - intros stored Hstored. unfold completeBackgroundProcessing. by rewrite Hstored.
Qed.

Lemma processing_task_without_observer_witness :
  let task := {| identifier := "LongRunningTask"; instance := 1 |} in
  let running := backgroundTaskExecuting task (startObserving init) in
  (effects (backgroundTaskExecuting task init) = [SetTaskCompleted task true]
   ∧ executingTasks (backgroundTaskExecuting task init) = ∅)
  ∧ completeBackgroundProcessing "LongRunningTask" false init = init
  ∧ (executingTasks (completeBackgroundProcessing "LongRunningTask" false running)
       = delete "LongRunningTask" (executingTasks running)
     ∧ effects (completeBackgroundProcessing "LongRunningTask" false running)
       = effects running ++ [SetTaskCompleted task false]).
Proof.
  pose (task := {| identifier := "LongRunningTask"; instance := 1 |}).
  pose (running := backgroundTaskExecuting task (startObserving init)).
  destruct (processing_task_without_observer task "LongRunningTask" false init)
    as (Hauto & Hnoop & _).
  destruct (processing_task_without_observer task "LongRunningTask" false running)
    as (_ & _ & Hdone).
  refine (conj (Hauto _) (conj (Hnoop _) (Hdone task _))).
  - reflexivity.
  - vm_compute. reflexivity.
  - vm_compute. reflexivity.
Defined.

End ProcessingTaskClaims.

(** ** downloadTicks *)

Section DownloadClaims.
Import BleManager Invariants.

Lemma downloadTicks_rejected totalTicks :
  totalTicks <= 0 ∨ 256 <= totalTicks →
  downloadTicks totalTicks
  = {| receivedTicks := 0; promise := Rejected InvalidArgument;
       monitoring := false; write_pending := false; onTick_calls := [];
       trace := [PromiseReject InvalidArgument] |}.
Proof.
  intros H. unfold downloadTicks.
  destruct (totalTicks <=? 0) eqn:H0; [done |].
  destruct (totalTicks >=? 256) eqn:H1; [done |]. lia.
Qed.

Lemma downloadTicks_started totalTicks :
  1 <= totalTicks <= 255 →
  downloadTicks totalTicks
  = {| receivedTicks := 0; promise := Pending;
       monitoring := true; write_pending := true; onTick_calls := [];
       trace := [MonitorCharacteristic serviceUUID rxUUID;
                 WriteWithoutResponse serviceUUID txUUID [totalTicks]] |}.
Proof.
  intros H. unfold downloadTicks, toUint8.
  destruct (totalTicks <=? 0) eqn:H0; [lia |].
  destruct (totalTicks >=? 256) eqn:H1; [lia |]. cbn.
  by rewrite Z.mod_small by lia.
Qed.

Lemma download_step_idle totalTicks s ev :
  monitoring s = false → write_pending s = false →
  download_step totalTicks s ev = s.
Proof. intros Hm Hw. destruct ev; cbn; by rewrite ?Hm, ?Hw. Qed.

Lemma download_run_rejected totalTicks evs :
  totalTicks <= 0 ∨ 256 <= totalTicks →
  download_run totalTicks evs = downloadTicks totalTicks.
Proof.
  intros H. unfold download_run. rewrite downloadTicks_rejected by done.
  induction evs as [| ev evs IH]; [done |].
  cbn [foldl]. by rewrite download_step_idle.
Qed.

(** C1.  A request for no ticks, or for 256 and more, is rejected with the
    range error before anything is asked of the device: the only thing the
    call ever does is reject its promise, whatever the transport does later.
    A request for 1 to 255 ticks passes the check: the call subscribes and
    writes the one-byte request holding [totalTicks]. *)
Theorem downloadTicks_checks_range totalTicks :
  (totalTicks <= 0 ∨ 256 <= totalTicks →
     promise (downloadTicks totalTicks) = Rejected InvalidArgument
     ∧ ∀ evs, trace (download_run totalTicks evs) = [PromiseReject InvalidArgument]
              ∧ promise (download_run totalTicks evs) = Rejected InvalidArgument)
  ∧ (1 <= totalTicks <= 255 →
     promise (downloadTicks totalTicks) = Pending
     ∧ trace (downloadTicks totalTicks)
       = [MonitorCharacteristic serviceUUID rxUUID;
          WriteWithoutResponse serviceUUID txUUID [totalTicks]]).
Proof.
  split.
  - intros H. split.
    + by rewrite downloadTicks_rejected.
    + intros evs. rewrite download_run_rejected by done.
      by rewrite downloadTicks_rejected.
  - intros H. by rewrite downloadTicks_started.
Qed.

Lemma downloadTicks_checks_range_witness :
  (trace (download_run 0 [Written None; Notified None (Some (frame 1))])
     = [PromiseReject InvalidArgument]
   ∧ trace (download_run 256 [Written None; Notified None (Some (frame 1))])
     = [PromiseReject InvalidArgument])
  ∧ trace (downloadTicks 255)
    = [MonitorCharacteristic serviceUUID rxUUID;
       WriteWithoutResponse serviceUUID txUUID [255]].
Proof.
  destruct (downloadTicks_checks_range 0) as [Hzero _].
  destruct (downloadTicks_checks_range 256) as [Hbig _].
  destruct (downloadTicks_checks_range 255) as [_ Hok].
  refine (conj (conj _ _) _).
  - apply Hzero. lia.
  - apply Hbig. lia.
  - apply Hok. lia.
Defined.

Lemma expected_calls_snoc totalTicks ticks v :
  Z.of_nat (length ticks) < totalTicks →
  expected_calls totalTicks (ticks ++ [v])
  = expected_calls totalTicks ticks ++ [(Z.of_nat (length ticks) + 1, totalTicks, v)].
Proof.
  intros Hlt. unfold expected_calls.
  rewrite !take_ge by (rewrite ?length_app; cbn; lia).
  rewrite imap_app. cbn. replace (Z.of_nat (S (length ticks + 0))) with (Z.of_nat (length ticks) + 1) by lia. done.
Qed.

Lemma expected_calls_full totalTicks ticks more :
  totalTicks <= Z.of_nat (length ticks) →
  expected_calls totalTicks (ticks ++ more) = expected_calls totalTicks ticks.
Proof.
  intros Hge. unfold expected_calls. by rewrite take_app_le by lia.
Qed.

Lemma getUint32_four bytes :
  (4 ≤ length bytes)%nat → ∃ v, getUint32 bytes = Some v.
Proof.
  destruct bytes as [| b0 [| b1 [| b2 [| b3 rest]]]]; cbn; try lia. eauto.
Qed.

Lemma download_inv_start totalTicks :
  1 <= totalTicks <= 255 → download_inv totalTicks [] (downloadTicks totalTicks).
Proof.
  intros H. rewrite downloadTicks_started by done.
  split; [by unfold expected_calls; rewrite take_nil |].
  cbn. destruct (decide _) as [_ | Hn]; [| lia].
  repeat split. unfold SubscriptionRemove_absent.
  rewrite !not_elem_of_cons. repeat split; try discriminate. apply not_elem_of_nil.
Qed.

Lemma download_inv_tick totalTicks ticks v s :
  download_inv totalTicks ticks s →
  download_inv totalTicks (ticks ++ [v])
    (if monitoring s then
       let s1 := dl_tick totalTicks v s in
       if receivedTicks s1 =? totalTicks then dl_resolve totalTicks (dl_remove s1)
       else s1
     else s).
Proof.
  intros [Hcalls Hst]. unfold download_inv.
  rewrite length_app. cbn [length].
  destruct (decide (Z.of_nat (length ticks) < totalTicks)) as [Hlt | Hge].
  - destruct Hst as (Hrecv & Hp & Hm & Habs). rewrite Hm. cbn zeta.
    rewrite expected_calls_snoc by done.
    destruct (receivedTicks (dl_tick totalTicks v s) =? totalTicks) eqn:Hlast;
      cbn in Hlast; rewrite Hrecv in Hlast.
    + apply Z.eqb_eq in Hlast.
      split; [cbn; by rewrite Hcalls, Hrecv |].
      destruct (decide _) as [Hlt' | _]; [lia |].
      cbn. rewrite Hp. repeat split. by exists (trace s); rewrite <- app_assoc.
    + apply Z.eqb_neq in Hlast.
      split; [cbn; by rewrite Hcalls, Hrecv |].
      destruct (decide _) as [_ | Hge']; [| lia].
      cbn. repeat split; try done. rewrite Hrecv. lia.
  - destruct Hst as (Hp & Hm & Htr). rewrite Hm.
    rewrite expected_calls_full by lia.
    split; [done |].
    destruct (decide _) as [Hlt' | _]; [lia | done].
Qed.

Lemma download_inv_step totalTicks ticks s ev :
  download_inv totalTicks ticks s →
  clean ev = true →
  download_inv totalTicks (ticks ++ option_list (tick_of ev))
    (download_step totalTicks s ev).
Proof.
  intros Hinv Hclean.
  assert (Hsame : ∀ s', (s' = s ∨ download_written None s = s') →
            download_inv totalTicks (ticks ++ []) s').
  { intros s' [-> | <-]; rewrite app_nil_r; [done |].
    destruct Hinv as [Hcalls Hst]. split; [done |]. cbn. done. }
  destruct ev as [[e |] [[[bytes |]] |] | [e |]]; cbn in Hclean; try discriminate.
  - apply bool_decide_eq_true in Hclean.
    destruct (getUint32_four bytes Hclean) as [v Hv].
    cbn. rewrite Hv. cbn. by apply download_inv_tick.
  - cbn. apply Hsame. left. by destruct (monitoring s).
  - cbn. apply Hsame. left. by destruct (monitoring s).
  - cbn. apply Hsame. destruct (write_pending s); [by right | by left].
Qed.

Lemma download_inv_run totalTicks evs : ∀ ticks s,
  download_inv totalTicks ticks s →
  forallb clean evs = true →
  download_inv totalTicks (ticks ++ omap tick_of evs)
    (foldl (download_step totalTicks) s evs).
Proof.
  induction evs as [| ev evs IH]; intros ticks s Hinv Hclean.
  - cbn. by rewrite app_nil_r.
  - cbn in Hclean. apply andb_true_iff in Hclean as [Hev Hrest].
    pose proof (download_inv_step _ _ _ _ Hinv Hev) as Hstep.
    specialize (IH _ _ Hstep Hrest).
    cbn [foldl omap list_omap]. rewrite <- app_assoc in IH.
    by destruct (tick_of ev).
Qed.

(** C2.  In a session for 1 to 255 ticks whose stream carries no transport
    error, [onTick] is called once for each value read, with the counts 1,
    2, 3, ... in arrival order, and for no value after the
    [totalTicks]-th.  While fewer than [totalTicks] values have been read
    the promise is pending and the subscription live; from the
    [totalTicks]-th on the promise is resolved with [totalTicks], after the
    subscription was removed. *)
Theorem downloadTicks_counts_ticks totalTicks evs :
  1 <= totalTicks <= 255 →
  forallb clean evs = true →
  let ticks := omap tick_of evs in
  let s := download_run totalTicks evs in
  onTick_calls s
    = imap (fun i v => (Z.of_nat (S i), totalTicks, v))
        (take (Z.to_nat totalTicks) ticks)
  ∧ length (onTick_calls s) = (length ticks `min` Z.to_nat totalTicks)%nat
  ∧ (Z.of_nat (length ticks) < totalTicks →
       promise s = Pending ∧ monitoring s = true
       ∧ receivedTicks s = Z.of_nat (length ticks))
  ∧ (totalTicks <= Z.of_nat (length ticks) →
       promise s = Resolved totalTicks ∧ monitoring s = false
       ∧ ∃ pre, trace s = pre ++ [SubscriptionRemove; PromiseResolve]).
Proof.
  intros Hrange Hclean ticks s.
  pose proof (download_inv_run totalTicks evs [] _
                (download_inv_start _ Hrange) Hclean) as [Hcalls Hst].
  cbn [app] in Hcalls, Hst. fold ticks in Hcalls, Hst.
  change (foldl _ _ evs) with s in Hcalls, Hst.
  split; [exact Hcalls |].
  split; [rewrite Hcalls; unfold expected_calls;
          rewrite length_imap, length_take; lia |].
  destruct (decide _) as [Hlt | Hge] in Hst.
  - split; [intros _ | lia]. by destruct Hst as (? & ? & ? & _).
  - split; [lia | intros _]. exact Hst.
Qed.

Lemma downloadTicks_counts_ticks_witness :
  let evs := Written None :: replicate 255 (Notified None (Some (frame 7))) in
  forallb clean evs = true
  ∧ length (onTick_calls (download_run 255 evs)) = 255%nat
  ∧ promise (download_run 255 evs) = Resolved 255.
Proof.
  intros evs.
  assert (Hclean : forallb clean evs = true) by (vm_compute; reflexivity).
  assert (Hrange : 1 <= 255 <= 255) by lia.
  pose proof (downloadTicks_counts_ticks 255 evs Hrange Hclean) as H.
  cbn zeta in H. destruct H as (_ & Hlen & _ & Hdone).
  refine (conj Hclean (conj _ _)).
  - rewrite Hlen. vm_compute. reflexivity.
  - apply Hdone. vm_compute. discriminate.
Defined.

(** C5, as stated, fails.  When the monitor listener of [downloadTicks] is
    called with an error it rejects the promise and returns: the session is
    over and [subscription.remove()] was never called. *)
Lemma download_error_leaves_subscription :
  let s := download_run 10
             [Written None; Notified None (Some (frame 1));
              Notified (Some (BleError "Device was disconnected")) None] in
  promise s = Rejected (BleError "Device was disconnected")
  ∧ monitoring s = true
  ∧ SubscriptionRemove ∉ trace s.
Proof.
  cbn zeta. split; [reflexivity |]. split; [reflexivity |].
  set (calls := trace _). vm_compute in calls. subst calls.
  rewrite !not_elem_of_cons.
  repeat split; try discriminate. apply not_elem_of_nil.
Qed.

End DownloadClaims.

(** ** establishConnection *)

Section ConnectionClaims.
Import BleManager.

Ltac not_in_trace :=
  repeat (apply not_elem_of_cons; split; [discriminate |]); apply not_elem_of_nil.

Ltac find_scan :=
  repeat first [rewrite elem_of_cons | rewrite elem_of_app | rewrite elem_of_nil];
  let Hin := fresh "Hin" in
  intros Hin;
  repeat match goal with
         | H : _ ∨ _ |- _ => destruct H as [H | H]
         | H : False |- _ => destruct H
         | H : ?x ∈ ?l, Hns : ?x ∉ ?l |- _ => destruct (Hns H)
         | H : StartDeviceScan _ _ = _ |- _ =>
             first [discriminate H | injection H as -> ->]
         end;
  done.

Lemma bind_returned {A B} (m : Async A) (k : A → Async B) a :
  m.2 = Returned a → m ≫= k = (m.1 ++ (k a).1, (k a).2).
Proof. intros H. unfold mbind, Async_bind. by rewrite H. Qed.

Lemma bind_thrown {A B} (m : Async A) (k : A → Async B) e :
  m.2 = Thrown e → m ≫= k = (m.1, Thrown e).
Proof. intros H. unfold mbind, Async_bind. by rewrite H. Qed.

Lemma bind_waiting {A B} (m : Async A) (k : A → Async B) :
  m.2 = Waiting → m ≫= k = (m.1, Waiting).
Proof. intros H. unfold mbind, Async_bind. by rewrite H. Qed.

Lemma stateLog_never_scans uuids timeout (states : list State) :
  StartDeviceScan uuids timeout ∉ (stateLog <$> states).
Proof.
  intros Hin. apply list_elem_of_fmap in Hin as (st & Heq & _). discriminate Heq.
Qed.

Lemma stateListener_found state before after :
  state ∉ before →
  stateListener state (before ++ state :: after)
  = ((stateLog <$> (before ++ [state])) ++ [StateSubscriptionRemove], Returned tt).
Proof.
  induction before as [| st before IH]; intros Hnot.
  - cbn [app stateListener]. unfold log, await.
    rewrite (bind_returned _ _ tt) by done. by rewrite decide_True.
  - apply not_elem_of_cons in Hnot as [Hne Hnot].
    cbn [app stateListener]. unfold log.
    rewrite (bind_returned _ _ tt) by done.
    rewrite decide_False by done. by rewrite IH.
Qed.

Lemma stateListener_never state reported :
  state ∉ reported →
  stateListener state reported = (stateLog <$> reported, Waiting).
Proof.
  induction reported as [| st reported IH]; intros Hnot; [done |].
  apply not_elem_of_cons in Hnot as [Hne Hnot].
  cbn [stateListener]. unfold log.
  rewrite (bind_returned _ _ tt) by done.
  rewrite decide_False by done. by rewrite IH.
Qed.

Lemma waitForBLEState_found tr state before after :
  stateChanges tr = before ++ state :: after →
  state ∉ before →
  waitForBLEState tr state
  = (OnStateChange :: (stateLog <$> (before ++ [state])) ++ [StateSubscriptionRemove],
     Returned tt).
Proof.
  intros Hst Hnot. unfold waitForBLEState, await.
  rewrite (bind_returned _ _ tt) by done.
  by rewrite Hst, stateListener_found.
Qed.

Lemma waitForBLEState_never tr state :
  state ∉ stateChanges tr →
  waitForBLEState tr state = (OnStateChange :: (stateLog <$> stateChanges tr), Waiting).
Proof.
  intros Hnot. unfold waitForBLEState, await.
  rewrite (bind_returned _ _ tt) by done.
  by rewrite stateListener_never.
Qed.

Lemma connectToDevice_never_scans tr device timeout uuids scanTimeout :
  StartDeviceScan uuids scanTimeout ∉ (connectToDevice tr device timeout).1.
Proof.
  unfold connectToDevice, await, log, mbind, Async_bind, mret, Async_ret. cbn.
  destruct (isConnected tr device) as [[|] | e |]; cbn;
    destruct (connect tr device) as [[] | e' |]; cbn;
    destruct (discoverAllServicesAndCharacteristics tr device) as [[] | e'' |]; cbn;
    not_in_trace.
Qed.

(** The calls [connectToDevice] is sure to make. *)
Lemma connectToDevice_calls tr device timeout :
  (∃ tail, (connectToDevice tr device timeout).1
           = OnDisconnected device :: IsConnected device :: tail)
  ∧ (isConnected tr device = Returned false →
       Connect device timeout ∈ (connectToDevice tr device timeout).1)
  ∧ (isConnected tr device = Returned true
     ∨ isConnected tr device = Returned false ∧ connect tr device = Returned tt →
       DiscoverAllServicesAndCharacteristics device
         ∈ (connectToDevice tr device timeout).1
       ∧ (discoverAllServicesAndCharacteristics tr device = Returned tt →
          (connectToDevice tr device timeout).2 = Returned device))
  ∧ (∀ d, (connectToDevice tr device timeout).2 = Returned d →
       d = device ∧ discoverAllServicesAndCharacteristics tr device = Returned tt).
Proof.
  unfold connectToDevice, await, log, mbind, Async_bind, mret, Async_ret. cbn.
  destruct (isConnected tr device) as [[|] | e |]; cbn;
    destruct (connect tr device) as [[] | e' |]; cbn;
    destruct (discoverAllServicesAndCharacteristics tr device) as [[] | e'' |]; cbn;
    (split; [eauto |]);
    (split; [intros ?; try discriminate; set_solver |]);
    (split; [intros [? | [? ?]]; try discriminate; (split; [set_solver | done]) |]);
    intros d Hd; by simplify_eq.
Qed.

Lemma establishConnection_reuses tr before after device rest :
  stateChanges tr = before ++ PoweredOn :: after →
  PoweredOn ∉ before →
  connectedDevices tr [serviceUUID] = Returned (device :: rest) →
  (establishConnection tr).1
  = [Log "Waiting for PoweredOn state..."; OnStateChange]
    ++ (stateLog <$> (before ++ [PoweredOn]))
    ++ [StateSubscriptionRemove;
        Log "Checking connected devices..."; ConnectedDevices [serviceUUID];
        Log "Already connected..."; Log "Preparing connection..."]
    ++ (connectToDevice tr device 5000).1
  ∧ (establishConnection tr).2
    = match (connectToDevice tr device 5000).2 with
      | Returned _ => Returned device
      | Thrown e => Thrown e
      | Waiting => Waiting
      end.
Proof.
  intros Hst Hnot Hconn.
  unfold establishConnection.
  rewrite (waitForBLEState_found tr PoweredOn before after Hst Hnot).
  unfold await, log. rewrite Hconn.
  rewrite (bind_returned ([Log _], _) _ tt) by done.
  rewrite (bind_returned (OnStateChange :: _, _) _ tt) by done.
  rewrite (bind_returned ([Log _], _) _ tt) by done.
  rewrite (bind_returned ([ConnectedDevices _], _) _ (device :: rest)) by done.
  rewrite (bind_returned (_ ≫= _) _ device) by done.
  rewrite (bind_returned ([Log _], _) _ tt) by done.
  destruct (connectToDevice tr device 5000) as [ops [d | e |]] eqn:Hc.
  - rewrite (bind_returned (ops, _) _ d) by done. cbn.
    split; [| done]. rewrite app_nil_r, <- !app_assoc. done.
  - rewrite (bind_thrown (ops, _) _ e) by done. cbn.
    split; [| done]. rewrite <- !app_assoc. done.
  - rewrite (bind_waiting (ops, _) _) by done. cbn.
    split; [| done]. rewrite <- !app_assoc. done.
Qed.

Lemma establishConnection_off tr :
  PoweredOn ∉ stateChanges tr →
  establishConnection tr
  = ([Log "Waiting for PoweredOn state..."; OnStateChange]
     ++ (stateLog <$> stateChanges tr), Waiting).
Proof.
  intros Hnot. unfold establishConnection.
  rewrite (waitForBLEState_never tr PoweredOn Hnot).
  unfold log. rewrite (bind_returned ([Log _], _) _ tt) by done.
  by rewrite (bind_waiting (OnStateChange :: _, _)) by done.
Qed.

Lemma establishConnection_query tr before after :
  stateChanges tr = before ++ PoweredOn :: after →
  PoweredOn ∉ before →
  establishConnection tr
  = (([Log "Waiting for PoweredOn state..."; OnStateChange]
      ++ (stateLog <$> (before ++ [PoweredOn]))
      ++ [StateSubscriptionRemove; Log "Checking connected devices..."]),
     Returned tt)
    ≫= (fun _ =>
          connectedDevices ← await (ConnectedDevices [serviceUUID])
                               (connectedDevices tr [serviceUUID]);
          device ← match connectedDevices with
                   | device :: _ => _ ← log "Already connected..."; mret device
                   | [] => _ ← log "Scanning for device..."; scanDevice tr 5000
                   end;
          _ ← log "Preparing connection...";
          _ ← connectToDevice tr device 5000;
          mret device).
Proof.
  intros Hst Hnot. unfold establishConnection.
  rewrite (waitForBLEState_found tr PoweredOn before after Hst Hnot).
  unfold log.
  set (m := await (ConnectedDevices _) _ ≫= _).
  unfold mbind, Async_bind. cbn [fst snd app].
  by rewrite <- !app_assoc.
Qed.

(** C9.  When the radio reports [PoweredOn] and the query for connected
    devices with the service returns a non-empty list, [establishConnection]
    starts no scan: after the query it goes straight to [connectToDevice] on
    the first device of the list.  It registers the disconnect listener on
    that device and asks whether it is connected; it connects when the
    answer is no, starts discovery once the device is connected, and returns
    that device when discovery succeeds; it returns no other device.  A scan
    is started only when the radio reported [PoweredOn] and the query
    returned the empty list. *)
Theorem establishConnection_scans_only_when_none_connected tr :
  (∀ before after device rest,
     stateChanges tr = before ++ PoweredOn :: after →
     PoweredOn ∉ before →
     connectedDevices tr [serviceUUID] = Returned (device :: rest) →
     let trace := (establishConnection tr).1 in
     let linked :=
       isConnected tr device = Returned true
       ∨ isConnected tr device = Returned false ∧ connect tr device = Returned tt in
     (∀ uuids timeout, StartDeviceScan uuids timeout ∉ trace)
     ∧ trace
       = [Log "Waiting for PoweredOn state..."; OnStateChange]
         ++ (stateLog <$> (before ++ [PoweredOn]))
         ++ [StateSubscriptionRemove;
             Log "Checking connected devices..."; ConnectedDevices [serviceUUID];
             Log "Already connected..."; Log "Preparing connection..."]
         ++ (connectToDevice tr device 5000).1
     ∧ (∃ tail,
          trace
          = [Log "Waiting for PoweredOn state..."; OnStateChange]
            ++ (stateLog <$> (before ++ [PoweredOn]))
            ++ [StateSubscriptionRemove;
                Log "Checking connected devices..."; ConnectedDevices [serviceUUID];
                Log "Already connected..."; Log "Preparing connection...";
                OnDisconnected device; IsConnected device]
            ++ tail)
     ∧ (isConnected tr device = Returned false → Connect device 5000 ∈ trace)
     ∧ (linked → DiscoverAllServicesAndCharacteristics device ∈ trace)
     ∧ (linked →
        discoverAllServicesAndCharacteristics tr device = Returned tt →
        (establishConnection tr).2 = Returned device)
     ∧ (∀ d, (establishConnection tr).2 = Returned d →
          d = device
          ∧ discoverAllServicesAndCharacteristics tr device = Returned tt))
  ∧ (∀ uuids timeout,
       StartDeviceScan uuids timeout ∈ (establishConnection tr).1 →
       PoweredOn ∈ stateChanges tr
       ∧ connectedDevices tr [serviceUUID] = Returned []
       ∧ uuids = [serviceUUID] ∧ timeout = 5000).
Proof.
  split.
  - intros before after device rest Hst Hnot Hconn trace linked.
    destruct (establishConnection_reuses tr before after device rest Hst Hnot Hconn)
      as [Hops Hres].
    destruct (connectToDevice_calls tr device 5000)
      as ((tail & Htail) & Hconnect & Hdiscover & Hreturned).
    subst trace. rewrite Hops, Hres.
    split; [| split; [done | split; [| split; [| split; [| split]]]]].
    + intros uuids timeout.
      rewrite !not_elem_of_app.
      split; [not_in_trace |]. split; [apply stateLog_never_scans |].
      split; [not_in_trace |]. apply connectToDevice_never_scans.
    + exists tail. by rewrite Htail.
    + intros Hno. rewrite !elem_of_app. do 3 right. by apply Hconnect.
    + intros Hl. rewrite !elem_of_app. do 3 right. by apply Hdiscover.
    + intros Hl Hd. destruct (Hdiscover Hl) as [_ Hret]. by rewrite (Hret Hd).
    + intros d Hd.
      destruct (connectToDevice tr device 5000).2 as [d' | e |] eqn:Hc; [| done ..].
      destruct (Hreturned d' eq_refl) as [_ Hdisc]. by simplify_eq.
  - intros uuids timeout Hin.
    destruct (decide (PoweredOn ∈ stateChanges tr)) as [Hon | Hoff].
    + split; [done |].
      destruct (list_elem_of_split_l _ _ Hon) as (before & after & Hst & Hnot).
      destruct (connectedDevices tr [serviceUUID]) as [[| device rest] | e |] eqn:Hconn.
      * split; [done |].
        revert Hin. rewrite (establishConnection_query tr before after Hst Hnot).
        rewrite (bind_returned _ _ tt) by done. cbn [fst snd].
        unfold await. rewrite Hconn.
        rewrite (bind_returned ([ConnectedDevices _], _) _ []) by done.
        cbn [fst snd]. unfold log, scanDevice, await.
        rewrite (bind_returned ([Log _], _) _ tt) by done. cbn [fst snd].
        pose proof (stateLog_never_scans uuids timeout (before ++ [PoweredOn])) as Hlogs.
        destruct (scanned tr) as [d | e |].
        -- rewrite (bind_returned (_ ++ _, Returned d) _ d) by done.
           rewrite (bind_returned ([Log _], _) _ tt) by done.
           pose proof (connectToDevice_never_scans tr d 5000 uuids timeout) as Hns.
           destruct (connectToDevice tr d 5000) as [ops [d' | e |]];
             cbn in Hns |- *; find_scan.
        -- rewrite (bind_thrown (_ ++ _, Thrown e) _ e) by done. cbn. find_scan.
        -- rewrite (bind_waiting (_ ++ _, Waiting) _) by done. cbn. find_scan.
      * exfalso.
        destruct (establishConnection_reuses tr before after device rest Hst Hnot Hconn)
          as [Hops _].
        revert Hin. rewrite Hops. rewrite !elem_of_app.
        intros [Hin | [Hin | [Hin | Hin]]].
        -- revert Hin. by not_in_trace.
        -- by apply stateLog_never_scans in Hin.
        -- revert Hin. by not_in_trace.
        -- by apply connectToDevice_never_scans in Hin.
      * exfalso. revert Hin.
        rewrite (establishConnection_query tr before after Hst Hnot).
        rewrite (bind_returned _ _ tt) by done. cbn [fst snd].
        unfold await. rewrite Hconn.
        rewrite (bind_thrown ([ConnectedDevices _], _) _ e) by done. cbn [fst snd].
        pose proof (stateLog_never_scans uuids timeout (before ++ [PoweredOn])) as Hlogs.
        find_scan.
      * exfalso. revert Hin.
        rewrite (establishConnection_query tr before after Hst Hnot).
        rewrite (bind_returned _ _ tt) by done. cbn [fst snd].
        unfold await. rewrite Hconn.
        rewrite (bind_waiting ([ConnectedDevices _], _) _) by done. cbn [fst snd].
        pose proof (stateLog_never_scans uuids timeout (before ++ [PoweredOn])) as Hlogs.
        find_scan.
    + exfalso. revert Hin. rewrite (establishConnection_off tr Hoff). cbn [fst].
      pose proof (stateLog_never_scans uuids timeout (stateChanges tr)) as Hlogs.
      find_scan.
Qed.

Lemma establishConnection_scans_only_when_none_connected_witness :
  let tr := {| stateChanges := [PoweredOff; PoweredOn];
               connectedDevices := fun _ => Returned ["peripheral-1"; "peripheral-2"];
               scanned := Thrown (JsError "Scan timeout after 5000 ms");
               isConnected := fun _ => Returned false;
               connect := fun _ => Returned tt;
               discoverAllServicesAndCharacteristics := fun _ => Returned tt;
               downloaded := fun _ n => Returned n;
               connectedAtCleanup := fun _ => Returned ["peripheral-1"];
               cancelConnection := fun _ => Returned tt |} in
  (StartDeviceScan [serviceUUID] 5000 ∉ (establishConnection tr).1)
  ∧ Connect "peripheral-1" 5000 ∈ (establishConnection tr).1
  ∧ DiscoverAllServicesAndCharacteristics "peripheral-1" ∈ (establishConnection tr).1
  ∧ (establishConnection tr).2 = Returned "peripheral-1".
Proof.
  intros tr.
  destruct (establishConnection_scans_only_when_none_connected tr) as [Hreuse _].
  destruct (Hreuse [PoweredOff] [] "peripheral-1" ["peripheral-2"] eq_refl)
    as (Hnoscan & _ & _ & Hconnect & Hdiscover & Hreturn & _).
  - apply not_elem_of_cons. split; [discriminate | apply not_elem_of_nil].
  - reflexivity.
  - split; [apply Hnoscan |]. split; [by apply Hconnect |].
    split; [apply Hdiscover; right; by split |].
    apply Hreturn; [right; by split | reflexivity].
Defined.

End ConnectionClaims.

(** ** The scheduled processing job *)

Section ScheduledJobClaims.
Import BleManager.

(** The calls the emitter makes on the module touch [hasListeners] and
    nothing else. *)
Lemma set_hasListeners_same w :
  PLXBackground.set_hasListeners (PLXBackground.hasListeners w) w = w.
Proof. by destruct w. Qed.

Lemma set_hasListeners_twice b b' w :
  PLXBackground.set_hasListeners b (PLXBackground.set_hasListeners b' w)
  = PLXBackground.set_hasListeners b w.
Proof. done. Qed.

Lemma native_addListener_flag count w :
  ∃ b, Background.native_addListener count w = PLXBackground.set_hasListeners b w.
Proof.
  unfold Background.native_addListener.
  destruct (decide _); [by exists true |].
  exists (PLXBackground.hasListeners w). by rewrite set_hasListeners_same.
Qed.

Lemma native_removeListeners_flag count removed w :
  ∃ b, Background.native_removeListeners count removed w
       = PLXBackground.set_hasListeners b w.
Proof.
  unfold Background.native_removeListeners.
  destruct (decide _); [by exists false |].
  exists (PLXBackground.hasListeners w). by rewrite set_hasListeners_same.
Qed.

Lemma native_removeSubscriptions_flag removed count w :
  ∃ b, Background.native_removeSubscriptions removed count w
       = PLXBackground.set_hasListeners b w.
Proof.
  revert count w. induction removed as [| removed IH]; intros count w.
  - exists (PLXBackground.hasListeners w). by rewrite set_hasListeners_same.
  - cbn [Background.native_removeSubscriptions].
    destruct (native_removeListeners_flag count 1 w) as [b1 ->].
    destruct (IH (count - 1)%nat (PLXBackground.set_hasListeners b1 w)) as [b ->].
    by exists b.
Qed.

Lemma native_addListener' name listener s :
  ∃ b, Background.native (Background.addListener name listener s)
       = PLXBackground.set_hasListeners b (Background.native s).
Proof. apply native_addListener_flag. Qed.

Lemma native_removeListener name listener s :
  ∃ b, Background.native (Background.removeListener name listener s)
       = PLXBackground.set_hasListeners b (Background.native s).
Proof. apply native_removeSubscriptions_flag. Qed.

Lemma native_completeBackgroundProcessingTask taskName result s :
  ∃ b, Background.native (Background.completeBackgroundProcessingTask taskName result s)
       = PLXBackground.completeBackgroundProcessing taskName result
           (PLXBackground.set_hasListeners b (Background.native s)).
Proof.
  unfold Background.completeBackgroundProcessingTask.
  destruct (Background.registeredCallbacks s !! taskName) as [[execution expired] |].
  - cbn [Background.native Background.set_native Background.delete_registeredCallbacks].
    destruct (native_removeListener PLXBackground.BackgroundProcessingExpiredEvent expired
                (Background.removeListener
                   PLXBackground.BackgroundProcessingExecutingEvent execution s))
      as [b ->].
    destruct (native_removeListener PLXBackground.BackgroundProcessingExecutingEvent
                execution s) as [b' ->].
    by exists b.
  - exists (PLXBackground.hasListeners (Background.native s)).
    by rewrite set_hasListeners_same.
Qed.

Lemma completeBackgroundProcessing_effects taskName result w :
  PLXBackground.effects (PLXBackground.completeBackgroundProcessing taskName result w)
  = PLXBackground.effects w
    ++ match PLXBackground.executingTasks w !! taskName with
       | Some task => [PLXBackground.SetTaskCompleted task result]
       | None => []
       end.
Proof.
  unfold PLXBackground.completeBackgroundProcessing.
  destruct (PLXBackground.executingTasks w !! taskName); cbn; by rewrite ?app_nil_r.
Qed.

(** C10.  When the OS delivers a processing task while an observer is
    registered, the task is entered under its identifier and the executing
    event is sent; once the job started by the execution callback ends,
    whether it resolved or rejected, the callback completes the task and the
    OS is told [true].  Whenever the job ends while the task is still in the
    registry the report is [true]; the job never makes a [false] report; the
    expiration callback is the one that reports [false]. *)
Theorem scheduled_job_reports_success tr task s :
  let taskName := PLXBackground.identifier task in
  let launched :=
    Background.set_native
      (PLXBackground.backgroundTaskExecuting task (Background.native s)) s in
  (PLXBackground.hasListeners (Background.native s) = true →
   (longRunningJob tr).2 ≠ Waiting →
     PLXBackground.effects (Background.native (taskExecutionCallback tr taskName launched))
     = PLXBackground.effects (Background.native s)
       ++ [PLXBackground.SetExpirationHandler task;
           PLXBackground.SendEvent PLXBackground.BackgroundProcessingExecutingEvent taskName;
           PLXBackground.SetTaskCompleted task true])
  ∧ (∀ outcome s',
       PLXBackground.executingTasks (Background.native s') !! taskName = Some task →
       outcome ≠ Waiting →
       PLXBackground.effects (Background.native (jobSettled taskName outcome s'))
       = PLXBackground.effects (Background.native s')
         ++ [PLXBackground.SetTaskCompleted task true])
  ∧ (∀ outcome s' t,
       PLXBackground.SetTaskCompleted t false
         ∈ PLXBackground.effects (Background.native (jobSettled taskName outcome s')) →
       PLXBackground.SetTaskCompleted t false
         ∈ PLXBackground.effects (Background.native s'))
  ∧ (∀ s',
       PLXBackground.executingTasks (Background.native s') !! taskName = Some task →
       PLXBackground.effects (Background.native (taskExpiredCallback taskName s'))
       = PLXBackground.effects (Background.native s')
         ++ [PLXBackground.SetTaskCompleted task false])
  ∧ (∀ w t,
       PLXBackground.SetTaskCompleted t false
         ∈ PLXBackground.effects (PLXBackground.backgroundTaskExecuting task w)
       ∨ PLXBackground.SetTaskCompleted t false
         ∈ PLXBackground.effects (PLXBackground.processingTaskExpired taskName w) →
       PLXBackground.SetTaskCompleted t false ∈ PLXBackground.effects w).
Proof.
  intros taskName launched.
  assert (Hsettled : ∀ outcome s',
            PLXBackground.executingTasks (Background.native s') !! taskName = Some task →
            outcome ≠ Waiting →
            PLXBackground.effects (Background.native (jobSettled taskName outcome s'))
            = PLXBackground.effects (Background.native s')
              ++ [PLXBackground.SetTaskCompleted task true]).
  { intros outcome s' Hexec Hends.
    destruct outcome as [[] | e |]; [| | done]; cbn [jobSettled];
      destruct (native_completeBackgroundProcessingTask taskName true s') as [b ->];
      rewrite completeBackgroundProcessing_effects;
      cbn [PLXBackground.executingTasks PLXBackground.effects
             PLXBackground.set_hasListeners];
      rewrite Hexec; done. }
  split; [| split; [exact Hsettled | split; [| split]]].
  - intros Hobs Hends. unfold taskExecutionCallback.
    rewrite Hsettled; [| | done].
    + subst launched. cbn [Background.native Background.set_native].
      unfold PLXBackground.backgroundTaskExecuting. rewrite Hobs. cbn.
      by rewrite <- !app_assoc.
    + subst launched. cbn [Background.native Background.set_native].
      unfold PLXBackground.backgroundTaskExecuting. rewrite Hobs. cbn -[insert].
      apply lookup_insert_eq.
  - intros outcome s' t.
    destruct outcome as [[] | e |]; [| | done]; cbn [jobSettled];
      destruct (native_completeBackgroundProcessingTask taskName true s') as [b ->];
      rewrite completeBackgroundProcessing_effects;
      cbn [PLXBackground.executingTasks PLXBackground.effects
             PLXBackground.set_hasListeners];
      destruct (PLXBackground.executingTasks (Background.native s') !! taskName);
      rewrite elem_of_app, ?elem_of_cons, ?elem_of_nil;
      intros [Hin | Hin]; try done;
      destruct Hin as [Hin | []]; discriminate.
  - intros s' Hexec. unfold taskExpiredCallback.
    destruct (native_completeBackgroundProcessingTask taskName false s') as [b ->].
    rewrite completeBackgroundProcessing_effects.
    cbn [PLXBackground.executingTasks PLXBackground.effects
           PLXBackground.set_hasListeners].
    by rewrite Hexec.
  - intros w t.
    unfold PLXBackground.backgroundTaskExecuting, PLXBackground.processingTaskExpired.
    destruct (PLXBackground.hasListeners w);
      [| destruct (PLXBackground.executingTasks w !! taskName)]; cbn;
      rewrite ?elem_of_app, ?elem_of_cons, ?elem_of_nil;
      intros [Hin | Hin]; try done;
      repeat match goal with
             | H : _ ∨ _ |- _ => destruct H as [H | H]
             | H : False |- _ => destruct H
             end; try done; discriminate.
Qed.

Lemma scheduled_job_reports_success_witness :
  let tr := {| stateChanges := [PoweredOn];
               connectedDevices := fun _ => Returned [];
               scanned := Thrown (JsError "Scan timeout after 5000 ms");
               isConnected := fun _ => Returned false;
               connect := fun _ => Returned tt;
               discoverAllServicesAndCharacteristics := fun _ => Returned tt;
               downloaded := fun _ n => Returned n;
               connectedAtCleanup := fun _ => Returned [];
               cancelConnection := fun _ => Returned tt |} in
  let task := {| PLXBackground.identifier := "LongRunningTask";
                 PLXBackground.instance := 1 |} in
  let s := (scheduleBackgroundProcessingTask 1 2 true
              (Background.set_native
                 (PLXBackground.startObserving PLXBackground.init)
                 Background.init)).2 in
  (longRunningJob tr).2 = Thrown (JsError "Scan timeout after 5000 ms")
  ∧ PLXBackground.effects
      (Background.native
         (taskExecutionCallback tr "LongRunningTask"
            (Background.set_native
               (PLXBackground.backgroundTaskExecuting task (Background.native s)) s)))
    = [PLXBackground.SetExpirationHandler task;
       PLXBackground.SendEvent PLXBackground.BackgroundProcessingExecutingEvent
         "LongRunningTask";
       PLXBackground.SetTaskCompleted task true].
Proof.
  intros tr task s.
  destruct (scheduled_job_reports_success tr task s) as (Hlaunch & _).
  split; [reflexivity |].
  apply Hlaunch.
  - reflexivity.
  - vm_compute. discriminate.
Defined.

End ScheduledJobClaims.

(** ** More on the timer service *)

Section MoreTimers.
Import PLXBackground Invariants TimerRuns.

Lemma init_entries_live : registry_entries_live init.
Proof. intros timeoutId b H. cbn in H. by rewrite lookup_empty in H. Qed.

Lemma setTimeout_entries_live now timeout timeoutId w :
  registry_entries_live w → registry_entries_live (setTimeout now timeout timeoutId w).
Proof.
  intros Hinv id b Hreg. cbn in Hreg |- *.
  destruct (decide (timeoutId = id)) as [<- | Hne].
  - rewrite lookup_insert_eq in Hreg. injection Hreg as <-.
    eexists. rewrite list_lookup_middle by done. done.
  - rewrite lookup_insert_ne in Hreg by done.
    destruct (Hinv _ _ Hreg) as (blk & Hb & Hs & Hid).
    exists blk. by rewrite lookup_app_l by (by eapply lookup_lt_Some).
Qed.

Lemma clearTimeout_entries_live timeoutId w :
  registry_entries_live w → registry_entries_live (clearTimeout timeoutId w).
Proof.
  intros Hinv. unfold clearTimeout.
  destruct (pendingTimers w !! timeoutId) as [c |] eqn:Hc; [| done].
  intros id b Hreg. cbn in Hreg |- *.
  destruct (decide (timeoutId = id)) as [<- | Hne].
  { by rewrite lookup_delete_eq in Hreg. }
  rewrite lookup_delete_ne in Hreg by done.
  destruct (Hinv _ _ Hreg) as (blk & Hb & Hs & Hid).
  destruct (Hinv _ _ Hc) as (blkc & Hbc & Hsc & Hidc).
  exists blk. rewrite list_lookup_alter_ne; [done |].
  intros ->. congruence.
Qed.

Lemma runBlock_entries_live c w :
  registry_entries_live w → registry_entries_live (runBlock c w).
Proof.
  intros Hinv. unfold runBlock.
  destruct (blocks w !! c) as [blk0 |] eqn:Hc; [| done].
  destruct (blk_status blk0) eqn:H0; try done.
  intros id b Hreg. cbn in Hreg |- *.
  destruct (decide (blk_timeoutId blk0 = id)) as [<- | Hne].
  { by rewrite lookup_delete_eq in Hreg. }
  rewrite lookup_delete_ne in Hreg by done.
  destruct (Hinv _ _ Hreg) as (blk & Hb & Hs & Hid).
  exists blk. rewrite list_lookup_insert_ne; [done |].
  intros ->. congruence.
Qed.

Lemma timer_step_entries_live w a :
  registry_entries_live w → registry_entries_live (timer_step w a).
Proof.
  destruct a; cbn;
    auto using setTimeout_entries_live, clearTimeout_entries_live, runBlock_entries_live.
Qed.

Lemma timer_run_entries_live steps : ∀ w,
  registry_entries_live w → registry_entries_live (timer_run w steps).
Proof.
  induction steps as [| a steps IH]; intros w Hinv; [done |].
  cbn. by apply IH, timer_step_entries_live.
Qed.

Lemma timer_step_spent b w a : spent b w → spent b (timer_step w a).
Proof.
  intros (blk & Hb & Hs). destruct a as [now timeout timeoutId | timeoutId | c]; cbn.
  - exists blk. cbn. by rewrite lookup_app_l by (by eapply lookup_lt_Some).
  - unfold clearTimeout. destruct (pendingTimers w !! timeoutId) as [c |]; [| by exists blk].
    cbn. destruct (decide (c = b)) as [-> | Hne].
    + exists blk. cbn. rewrite list_lookup_alter_eq, Hb. cbn.
      by destruct (blk_status blk).
    + exists blk. cbn. by rewrite list_lookup_alter_ne.
  - unfold runBlock. destruct (blocks w !! c) as [blk0 |] eqn:Hc; [| by exists blk].
    destruct (blk_status blk0) eqn:H0; try by exists blk.
    exists blk. cbn. rewrite list_lookup_insert_ne; [done |].
    intros ->. congruence.
Qed.

Lemma timer_run_spent b steps : ∀ w, spent b w → spent b (timer_run w steps).
Proof.
  induction steps as [| a steps IH]; intros w Hs; [done |].
  cbn. by apply IH, timer_step_spent.
Qed.

Lemma runBlock_spent b w : spent b w → runBlock b w = w.
Proof.
  intros (blk & Hb & Hs). unfold runBlock. rewrite Hb.
  by destruct (blk_status blk).
Qed.

(** X1.  In every run of the timer service, once the timer stored under an
    identifier has been cancelled, or its block has fired, that block never
    does anything again: whenever the queue reaches it later, however many
    timers were started, cancelled or fired in between, the module is left
    as it is and no promise is resolved. *)
Theorem cancelled_or_fired_block_never_runs pre timeoutId b post :
  pendingTimers (timer_run init pre) !! timeoutId = Some b →
  runBlock b (timer_run (clearTimeout timeoutId (timer_run init pre)) post)
    = timer_run (clearTimeout timeoutId (timer_run init pre)) post
  ∧ runBlock b (timer_run (runBlock b (timer_run init pre)) post)
    = timer_run (runBlock b (timer_run init pre)) post.
Proof.
  intros Hreg.
  destruct (timer_run_entries_live pre _ init_entries_live _ _ Hreg)
    as (blk & Hb & Hs & Hid).
  split; apply runBlock_spent, timer_run_spent.
  - unfold clearTimeout. rewrite Hreg. eexists. cbn.
    rewrite list_lookup_alter_eq, Hb. cbn. rewrite Hs. done.
  - unfold runBlock. rewrite Hb, Hs. eexists. cbn.
    rewrite list_lookup_insert_eq by (by eapply lookup_lt_Some). done.
Qed.

Lemma cancelled_or_fired_block_never_runs_witness :
  let pre := [Start 0 5000 "0"; Start 100 10000 "1"] in
  let post := [Start 200 10000 "2"; Fire 0; Cancel "2"] in
  effects (runBlock 1 (timer_run (clearTimeout "1" (timer_run init pre)) post))
  = [Resolve "0"].
Proof.
  intros pre post.
  destruct (cancelled_or_fired_block_never_runs pre "1" 1 post) as [Hcancel _].
  - vm_compute. reflexivity.
  - rewrite Hcancel. vm_compute. reflexivity.
Defined.

(** X2.  In every run of the timer service, whatever identifiers are reused,
    an entry of [pendingTimers] always names a live timer of its identifier:
    [clearTimeout] on a stored identifier always cancels a block that had
    not run yet. *)
Theorem registered_timer_is_live steps timeoutId b :
  pendingTimers (timer_run init steps) !! timeoutId = Some b →
  In b (live_timers timeoutId (timer_run init steps))
  ∧ ∃ blk, blocks (clearTimeout timeoutId (timer_run init steps)) !! b
           = Some (with_status Cancelled blk).
Proof.
  intros Hreg.
  destruct (timer_run_entries_live steps _ init_entries_live _ _ Hreg)
    as (blk & Hb & Hs & Hid).
  split.
  - unfold live_timers. apply filter_In. split.
    + apply in_seq. apply lookup_lt_Some in Hb. lia.
    + unfold is_live. rewrite Hb. by apply bool_decide_eq_true.
  - exists blk. unfold clearTimeout. rewrite Hreg. cbn.
    by rewrite list_lookup_alter_eq, Hb; cbn; rewrite Hs.
Qed.

Lemma registered_timer_is_live_witness :
  let steps := [Start 0 5000 "a"; Start 10 5000 "a"; Fire 0; Start 20 5000 "a"] in
  In 2%nat (live_timers "a" (timer_run init steps)).
Proof.
  intros steps.
  apply (registered_timer_is_live steps "a" 2). vm_compute. reflexivity.
Defined.

Lemma Number_toString_inj n m :
  Background.Number_toString n = Background.Number_toString m → n = m.
Proof.
  unfold Background.Number_toString. intros H.
  assert (Hu : Nat.to_uint n = Nat.to_uint m).
  { pose proof (NilEmpty.usu (Nat.to_uint n)) as Hn.
    pose proof (NilEmpty.usu (Nat.to_uint m)) as Hm.
    rewrite H in Hn. congruence. }
  rewrite <- (DecimalNat.Unsigned.of_to n), <- (DecimalNat.Unsigned.of_to m).
  by rewrite Hu.
Qed.

Lemma pendingTimers_clearTimeout_Some timeoutId w id b :
  pendingTimers (clearTimeout timeoutId w) !! id = Some b →
  pendingTimers w !! id = Some b.
Proof.
  unfold clearTimeout. destruct (pendingTimers w !! timeoutId); [| done].
  cbn. rewrite lookup_delete_Some. by intros [_ ?].
Qed.

Lemma pendingTimers_runBlock_Some c w id b :
  pendingTimers (runBlock c w) !! id = Some b →
  pendingTimers w !! id = Some b.
Proof.
  unfold runBlock. destruct (blocks w !! c) as [blk |]; [| done].
  destruct (blk_status blk); try done.
  cbn. rewrite lookup_delete_Some. by intros [_ ?].
Qed.

Lemma js_timer_step_inv s a :
  registry_tracks_live (Background.native s) ∧ keys_issued s →
  registry_tracks_live (Background.native (js_timer_step s a))
  ∧ keys_issued (js_timer_step s a).
Proof.
  intros [Hlive Hkeys]. destruct a as [timeout | timeoutId | b t | t]; cbn.
  - split.
    + apply setTimeout_tracks_live; [| done].
      destruct (pendingTimers (Background.native s)
                  !! Background.Number_toString (Background.nextTimeoutId s))
        as [b |] eqn:Hreg; [| done].
      destruct (Hkeys _ _ Hreg) as (k & Hlt & Heq).
      apply Number_toString_inj in Heq. lia.
    + intros id b Hreg. cbn in Hreg.
      destruct (decide (Background.Number_toString (Background.nextTimeoutId s) = id))
        as [<- | Hne].
      * exists (Background.nextTimeoutId s). cbn. split; [lia | done].
      * rewrite lookup_insert_ne in Hreg by done.
        destruct (Hkeys _ _ Hreg) as (k & Hlt & Heq).
        exists k. cbn. split; [lia | done].
  - split; [by apply clearTimeout_tracks_live |].
    intros id b Hreg. cbn in Hreg.
    apply pendingTimers_clearTimeout_Some in Hreg. by apply Hkeys in Hreg.
  - split; [by apply runBlock_tracks_live |].
    intros id c Hreg. cbn in Hreg.
    apply pendingTimers_runBlock_Some in Hreg. by apply Hkeys in Hreg.
  - done.
Qed.

Lemma js_timer_run_inv steps : ∀ s,
  registry_tracks_live (Background.native s) ∧ keys_issued s →
  registry_tracks_live (Background.native (js_timer_run s steps))
  ∧ keys_issued (js_timer_run s steps).
Proof.
  induction steps as [| a steps IH]; intros s Hinv; [done |].
  cbn. by apply IH, js_timer_step_inv.
Qed.

(** X3.  Timers started through Background.ts never collide: in every run of
    [setTimeout], [clearTimeout], firing blocks and passing time from a
    fresh module, the identifier taken from [nextTimeoutId] is never one that
    [pendingTimers] still holds, so every identifier has at most one live
    timer and every stored identifier is the spelling of a number already
    handed out. *)
Theorem wrapper_timers_never_collide steps :
  let s := js_timer_run Background.init steps in
  (∀ timeoutId, (length (live_timers timeoutId (Background.native s)) ≤ 1)%nat)
  ∧ pendingTimers (Background.native s)
      !! Background.Number_toString (Background.nextTimeoutId s) = None
  ∧ keys_issued s.
Proof.
  intros s.
  assert (Hinit : registry_tracks_live (Background.native Background.init)
                  ∧ keys_issued Background.init).
  { split; [apply init_tracks_live |]. intros id b H. cbn in H.
    by rewrite lookup_empty in H. }
  destruct (js_timer_run_inv steps _ Hinit) as [Hlive Hkeys].
  fold s in Hlive, Hkeys.
  split; [| split; [| done]].
  - intros timeoutId. by apply tracked_live_timers_unique.
  - destruct (pendingTimers (Background.native s) !! _) as [b |] eqn:Hreg; [| done].
    destruct (Hkeys _ _ Hreg) as (k & Hlt & Heq).
    apply Number_toString_inj in Heq. lia.
Qed.

End MoreTimers.

(** ** The wire format of a tick *)

Section TickFormat.
Import BleManager.

Lemma testbit_above v k n :
  0 <= k → 0 <= v < 2 ^ k → k <= n → Z.testbit v n = false.
Proof.
  intros Hk [H0 Hlt] Hn.
  destruct (decide (v = 0)) as [-> | Hne]; [apply Z.testbit_0_l |].
  apply Z.bits_above_log2; [done |].
  assert (Z.log2 v < k) by (apply Z.log2_lt_pow2; lia). lia.
Qed.

Lemma lor_shifted a b k :
  0 <= k → 0 <= a < 2 ^ k →
  Z.lor a (Z.shiftl b k) = a + b * 2 ^ k.
Proof.
  intros Hk Ha.
  assert (Hdisjoint : Z.land a (Z.shiftl b k) = 0).
  { apply Z.bits_inj'. intros n Hn.
    rewrite Z.land_spec, Z.shiftl_spec, Z.bits_0 by done.
    destruct (Z.lt_ge_cases n k) as [Hlt | Hge].
    - rewrite (Z.testbit_neg_r b) by lia. apply andb_false_r.
    - by rewrite (testbit_above a k n). }
  rewrite <- Z.lxor_lor, <- Z.add_nocarry_lxor by done.
  by rewrite Z.shiftl_mul_pow2.
Qed.

Lemma byte_bit v k n :
  0 <= k →
  Z.testbit (Z.land (Z.shiftr v k) 255) n
  = Z.testbit v (n + k) && (0 <=? n) && (n <? 8).
Proof.
  intros Hk. rewrite Z.land_spec. change 255 with (Z.ones 8).
  rewrite Z.testbit_ones by lia.
  destruct (Z.leb_spec 0 n) as [Hn | Hn].
  - rewrite Z.shiftr_spec by lia. by rewrite andb_assoc.
  - cbn. by rewrite !andb_false_r.
Qed.

(** X4.  The 32-bit value is read little endian, and reading is the inverse
    of laying a value out in four bytes: for every [v] below 2^32 the frame
    of [v] decodes to [v]; four bytes each below 256 always decode to a
    value below 2^32; a payload shorter than four bytes decodes to nothing,
    and bytes after the fourth are ignored. *)
Theorem getUint32_reads_little_endian :
  (∀ v, 0 <= v < 2 ^ 32 → value (frame v) ≫= getUint32 = Some v)
  ∧ (∀ b0 b1 b2 b3 rest,
       0 <= b0 < 256 → 0 <= b1 < 256 → 0 <= b2 < 256 → 0 <= b3 < 256 →
       getUint32 (b0 :: b1 :: b2 :: b3 :: rest)
         = Some (b0 + 256 * b1 + 65536 * b2 + 16777216 * b3)
       ∧ 0 <= b0 + 256 * b1 + 65536 * b2 + 16777216 * b3 < 2 ^ 32)
  ∧ (∀ bytes, (length bytes < 4)%nat → getUint32 bytes = None).
Proof.
  split; [| split].
  - intros v Hv. cbn. f_equal. apply Z.bits_inj'. intros n Hn.
    rewrite !Z.lor_spec, !Z.shiftl_spec by lia.
    replace (Z.land v 255) with (Z.land (Z.shiftr v 0) 255)
      by (by rewrite Z.shiftr_0_r).
    rewrite !byte_bit by lia.
    replace (n + 0) with n by lia.
    replace (n - 8 + 8) with n by lia.
    replace (n - 16 + 16) with n by lia.
    replace (n - 24 + 24) with n by lia.
    destruct (Z.ltb_spec n 32) as [Hlt | Hge].
    + destruct (Z.testbit v n); cbn; [| done].
      destruct (Z.leb_spec 0 n), (Z.ltb_spec n 8), (Z.leb_spec 0 (n - 8)),
        (Z.ltb_spec (n - 8) 8), (Z.leb_spec 0 (n - 16)), (Z.ltb_spec (n - 16) 8),
        (Z.leb_spec 0 (n - 24)), (Z.ltb_spec (n - 24) 8); cbn; try done; lia.
    + rewrite (testbit_above v 32 n) by (done || lia). cbn.
      destruct (Z.ltb_spec n 8), (Z.ltb_spec (n - 8) 8), (Z.ltb_spec (n - 16) 8),
        (Z.ltb_spec (n - 24) 8); rewrite ?andb_false_r; cbn; try done; lia.
  - intros b0 b1 b2 b3 rest H0 H1 H2 H3. split; [| lia].
    cbn [getUint32]. f_equal.
    replace (Z.shiftl b3 24) with (Z.shiftl (Z.shiftl b3 8) 16)
      by (by rewrite Z.shiftl_shiftl by lia).
    rewrite <- Z.shiftl_lor.
    rewrite (lor_shifted b0 b1 8), (lor_shifted b2 b3 8) by lia.
    rewrite lor_shifted by lia. lia.
  - intros bytes Hlen.
    by destruct bytes as [| b0 [| b1 [| b2 [| b3 rest]]]]; cbn in Hlen; try lia.
Qed.

Lemma getUint32_reads_little_endian_witness :
  value (frame 4294967295) ≫= getUint32 = Some 4294967295
  ∧ getUint32 [1; 2; 3; 4; 99] = Some 67305985.
Proof.
  destruct getUint32_reads_little_endian as (Hround & Hbytes & _).
  split.
  - apply Hround. lia.
  - destruct (Hbytes 1 2 3 4 [99]) as [Heq _]; try lia. exact Heq.
Defined.

End TickFormat.

(** ** Sessions on an unreliable transport *)

Section RobustSessions.
Import BleManager Invariants TimerRuns.

Lemma download_bounded_step totalTicks s ev :
  download_bounded totalTicks s →
  download_bounded totalTicks (download_step totalTicks s ev).
Proof.
  intros Hinv. pose proof Hinv as (Hrecv & Hcounts & Hle & Hlive).
  destruct ev as [error characteristic | error]; cbn.
  - destruct (monitoring s) eqn:Hm; [| done].
    specialize (Hlive eq_refl).
    unfold download_listener.
    destruct error as [e |]; [done |].
    destruct characteristic as [[[bytes |]] |]; try done. cbn.
    destruct (getUint32 bytes) as [ticks |]; [| done].
    set (s1 := dl_tick totalTicks ticks s).
    assert (Hrecv' : receivedTicks s1 = Z.of_nat (length (onTick_calls s1))).
    { cbn. rewrite length_app. cbn. lia. }
    assert (Hcounts' : (fun c : Z * Z * Z => c.1.1) <$> onTick_calls s1
                       = Z.of_nat <$> seq 1 (length (onTick_calls s1))).
    { cbn. rewrite length_app, fmap_app, Hcounts. cbn.
      rewrite Nat.add_1_r, seq_S, fmap_app. cbn. do 2 f_equal. lia. }
    assert (Hplus : receivedTicks s1 = receivedTicks s + 1) by done.
    change (receivedTicks s + 1 =? totalTicks)
      with (receivedTicks s1 =? totalTicks).
    destruct (receivedTicks s1 =? totalTicks) eqn:Hlast.
    + repeat split; try done. cbn. lia.
    + apply Z.eqb_neq in Hlast. repeat split; try done; [lia |]. intros _. lia.
  - destruct (write_pending s); [| done].
    destruct error as [e |]; repeat split; try done.
Qed.

Lemma download_bounded_run totalTicks evs : ∀ s,
  download_bounded totalTicks s →
  download_bounded totalTicks (foldl (download_step totalTicks) s evs).
Proof.
  induction evs as [| ev evs IH]; intros s Hinv; [done |].
  cbn. by apply IH, download_bounded_step.
Qed.

(** X5.  Whatever the transport delivers to a [downloadTicks] session, in
    any order and with any errors, [onTick] is called with the counts 1, 2,
    3, ... and never more than [totalTicks] times; once it has been called
    [totalTicks] times the subscription is gone.  A request outside 1..255
    never calls it. *)
Theorem downloadTicks_never_overcounts totalTicks evs :
  let s := download_run totalTicks evs in
  (length (onTick_calls s) ≤ Z.to_nat totalTicks)%nat
  ∧ (fun c : Z * Z * Z => c.1.1) <$> onTick_calls s
    = Z.of_nat <$> seq 1 (length (onTick_calls s))
  ∧ (length (onTick_calls s) = Z.to_nat totalTicks → monitoring s = false)
  ∧ (totalTicks <= 0 ∨ 256 <= totalTicks → onTick_calls s = []).
Proof.
  intros s.
  destruct (decide (1 <= totalTicks <= 255)) as [Hin | Hout].
  - assert (Hstart : download_bounded totalTicks (downloadTicks totalTicks)).
    { rewrite downloadTicks_started by done. repeat split; cbn; try done; lia. }
    destruct (download_bounded_run totalTicks evs _ Hstart)
      as (Hrecv & Hcounts & Hle & Hlive).
    fold (download_run totalTicks evs) in Hrecv, Hcounts, Hle, Hlive.
    fold s in Hrecv, Hcounts, Hle, Hlive.
    split; [lia |]. split; [done |]. split; [| lia].
    intros Hfull. destruct (monitoring s); [| done].
    specialize (Hlive eq_refl). lia.
  - assert (Hbad : totalTicks <= 0 ∨ 256 <= totalTicks) by lia.
    subst s. rewrite download_run_rejected, downloadTicks_rejected by done.
    cbn. repeat split; try done. lia.
Qed.

Lemma downloadTicks_never_overcounts_witness :
  let evs := [Notified None (Some (frame 1));
              Notified (Some (BleError "Device was disconnected")) None;
              Notified None (Some (frame 2)); Notified None (Some (frame 3))] in
  (length (onTick_calls (download_run 2 evs)) ≤ 2)%nat
  ∧ monitoring (download_run 2 evs) = false
  ∧ onTick_calls (download_run 256 evs) = [].
Proof.
  intros evs.
  destruct (downloadTicks_never_overcounts 2 evs) as (Hle & _ & Hfull & _).
  destruct (downloadTicks_never_overcounts 256 evs) as (_ & _ & _ & Hout).
  split; [exact Hle |]. split.
  - apply Hfull. vm_compute. reflexivity.
  - apply Hout. lia.
Defined.

End RobustSessions.

(** ** Every task is finished at most once *)

Section TaskRunClaims.
Import PLXBackground TaskRuns.

Lemma reported_emit e w :
  reported (emit e w)
  = reported w ++ match e with SetTaskCompleted task _ => [task] | _ => [] end.
Proof.
  unfold reported. cbn. rewrite omap_app. by destruct e.
Qed.

Lemma processing_finish_inv seen w k task result :
  processing_inv seen w →
  executingTasks w !! k = Some task →
  processing_inv seen
    (emit (SetTaskCompleted task result) (set_executingTasks (delete k (executingTasks w)) w)).
Proof.
  intros (Hnd & Hseen & Hstored) Hk.
  destruct (Hstored _ _ Hk) as (Hid & Hfresh & Hin).
  unfold processing_inv. rewrite reported_emit.
  change (reported (set_executingTasks _ w)) with (reported w).
  split; [| split].
  - apply NoDup_app. split; [done |]. split; [| apply NoDup_singleton].
    intros t Ht ->%list_elem_of_singleton. done.
  - intros t [Ht | ->%list_elem_of_singleton]%elem_of_app; auto.
  - intros k' t Hk'. cbn in Hk'. apply lookup_delete_Some in Hk' as [Hne Hk'].
    destruct (Hstored _ _ Hk') as (Hid' & Hfresh' & Hin').
    repeat split; try done.
    intros [Ht | ->%list_elem_of_singleton]%elem_of_app; [done | congruence].
Qed.

Lemma processing_step_inv seen w a :
  processing_inv seen w →
  (∀ task, a = OsLaunch task → instance task ∉ seen) →
  processing_inv (seen ++ launched [a]) (processing_step w a).
Proof.
  intros Hinv Hfresh. pose proof Hinv as (Hnd & Hseen & Hstored).
  destruct a as [task | id | taskName result | [|]]; cbn;
    rewrite ?app_nil_r; try done.
  - specialize (Hfresh task eq_refl).
    assert (Hnew : task ∉ reported w) by (intros H; by apply Hseen in H).
    unfold backgroundTaskExecuting. destruct (hasListeners w).
    + unfold processing_inv. rewrite !reported_emit, !app_nil_r.
      change (reported (set_executingTasks _ _)) with (reported (emit (SetExpirationHandler task) w)).
      rewrite reported_emit, app_nil_r.
      split; [done |]. split.
      * intros t Ht. apply elem_of_app. left. auto.
      * intros k t Hk. cbn in Hk.
        destruct (decide (identifier task = k)) as [<- | Hne].
        -- rewrite lookup_insert_eq in Hk. injection Hk as <-.
           repeat split; try done. apply elem_of_app. right. by left.
        -- rewrite lookup_insert_ne in Hk by done.
           destruct (Hstored _ _ Hk) as (? & ? & ?).
           repeat split; try done. apply elem_of_app. by left.
    + unfold processing_inv. rewrite reported_emit.
      split; [| split].
      * apply NoDup_app. split; [done |]. split; [| apply NoDup_singleton].
        intros t Ht ->%list_elem_of_singleton. done.
      * intros t [Ht | ->%list_elem_of_singleton]%elem_of_app;
          apply elem_of_app; [left; auto | right; by left].
      * intros k t Hk. cbn in Hk.
        destruct (Hstored _ _ Hk) as (Hid & Hnot & Hin).
        repeat split; try done; [| apply elem_of_app; by left].
        intros [Ht | ->%list_elem_of_singleton]%elem_of_app; done.
  - unfold processingTaskExpired. destruct (hasListeners w).
    + unfold processing_inv. by rewrite reported_emit, app_nil_r.
    + destruct (executingTasks w !! id) as [task |] eqn:Hk; [| done].
      by apply processing_finish_inv.
  - unfold completeBackgroundProcessing.
    destruct (executingTasks w !! taskName) as [task |] eqn:Hk; [| done].
    by apply processing_finish_inv.
Qed.

Lemma processing_run_inv steps : ∀ seen w,
  processing_inv seen w →
  NoDup (launched steps) →
  (∀ i, i ∈ launched steps → i ∉ seen) →
  processing_inv (seen ++ launched steps) (processing_run w steps).
Proof.
  induction steps as [| a steps IH]; intros seen w Hinv Hnd Hfresh.
  - cbn. by rewrite app_nil_r.
  - cbn [processing_run foldl].
    assert (Hsplit : launched (a :: steps) = launched [a] ++ launched steps).
    { unfold launched. cbn. by destruct a. }
    rewrite Hsplit in Hnd, Hfresh |- *. rewrite app_assoc.
    apply NoDup_app in Hnd as (_ & Hdisj & Hnd).
    apply IH; [| done |].
    + apply processing_step_inv; [done |].
      intros task ->. apply Hfresh. apply elem_of_app. left. cbn. by left.
    + intros i Hi [Hin | Hin]%elem_of_app.
      * eapply Hfresh; [| done]. apply elem_of_app. by right.
      * by eapply Hdisj.
Qed.

(** X7.  In every run of the processing-task side of the module in which
    the scheduler delivers distinct task instances, however deliveries,
    expirations, completions and observers interleave,
    [setTaskCompletedWithSuccess:] is called at most once on each instance,
    only on instances that were delivered, and never on one that is still in
    [executingTasks]. *)
Theorem task_completion_reported_at_most_once steps :
  NoDup (launched steps) →
  let w := processing_run init steps in
  NoDup (reported w)
  ∧ (∀ task, task ∈ reported w → instance task ∈ launched steps)
  ∧ (∀ k task, executingTasks w !! k = Some task → task ∉ reported w).
Proof.
  intros Hnd w.
  assert (Hinit : processing_inv [] init).
  { repeat split; cbn; try done.
    - apply NoDup_nil_2.
    - intros task H. by apply elem_of_nil in H. }
  destruct (processing_run_inv steps [] init Hinit Hnd) as (H1 & H2 & H3).
  { intros i _ H. by apply elem_of_nil in H. }
  split; [done |]. split; [done |].
  intros k task Hk. by destruct (H3 _ _ Hk) as (_ & ? & _).
Qed.

Lemma task_completion_reported_at_most_once_witness :
  let t1 := {| identifier := "LongRunningTask"; instance := 1 |} in
  let t2 := {| identifier := "LongRunningTask"; instance := 2 |} in
  let steps := [Observing true; OsLaunch t1; OsExpire "LongRunningTask";
                JsComplete "LongRunningTask" false; JsComplete "LongRunningTask" true;
                Observing false; OsLaunch t2; OsExpire "LongRunningTask"] in
  NoDup (reported (processing_run init steps))
  ∧ reported (processing_run init steps) = [t1; t2].
Proof.
  intros t1 t2 steps.
  assert (Hnd : NoDup (launched steps)).
  { vm_compute. apply NoDup_cons. split; [| apply NoDup_singleton].
    intros H%list_elem_of_singleton. discriminate. }
  destruct (task_completion_reported_at_most_once steps Hnd) as (H & _).
  split; [exact H | reflexivity].
Defined.

Lemma ended_emit e w :
  ended (emit e w)
  = ended w ++ match e with EndBackgroundTask taskId => [taskId] | _ => [] end.
Proof.
  unfold ended. cbn. rewrite omap_app. by destruct e.
Qed.

Lemma background_release_inv seen w k taskId :
  background_inv seen w →
  pendingBackgroundTasks w !! k = Some taskId →
  background_inv seen
    (set_pendingBackgroundTasks
       (delete k (pendingBackgroundTasks (emit (EndBackgroundTask taskId) w)))
       (emit (EndBackgroundTask taskId) w)).
Proof.
  intros (Hnd & Hseen & Hstored & Hinj) Hk.
  destruct (Hstored _ _ Hk) as (Hfresh & Hin).
  unfold background_inv.
  change (ended (set_pendingBackgroundTasks _ _))
    with (ended (emit (EndBackgroundTask taskId) w)).
  rewrite ended_emit. cbn [pendingBackgroundTasks set_pendingBackgroundTasks emit].
  split; [| split; [| split]].
  - apply NoDup_app. split; [done |]. split; [| apply NoDup_singleton].
    intros t Ht ->%list_elem_of_singleton. done.
  - intros t [Ht | ->%list_elem_of_singleton]%elem_of_app; auto.
  - intros k' t Hk'. apply lookup_delete_Some in Hk' as [Hne Hk'].
    destruct (Hstored _ _ Hk') as (Hfresh' & Hin').
    split; [| done].
    intros [Ht | ->%list_elem_of_singleton]%elem_of_app; [done |].
    by apply Hne, (Hinj _ _ taskId).
  - intros k1 k2 t [_ H1]%lookup_delete_Some [_ H2]%lookup_delete_Some. eauto.
Qed.

Lemma background_step_inv seen w a :
  background_inv seen w →
  (∀ i, i ∈ granted [a] → i ∉ seen) →
  background_inv (seen ++ granted [a]) (background_step w a).
Proof.
  intros Hinv Hfresh. pose proof Hinv as (Hnd & Hseen & Hstored & Hinj).
  destruct a as [taskName id | taskName | taskName | [|]]; cbn;
    rewrite ?app_nil_r; try done.
  - unfold startBackgroundTask. cbn in Hfresh.
    destruct (decide (id = UIBackgroundTaskInvalid)) as [Hbad | Hok].
    + rewrite app_nil_r. unfold background_inv.
      by rewrite ended_emit, app_nil_r.
    + assert (Hnew : id ∉ seen) by (apply Hfresh; by left).
      unfold background_inv. rewrite ended_emit, app_nil_r.
      change (ended (set_pendingBackgroundTasks _ w)) with (ended w).
      cbn [pendingBackgroundTasks set_pendingBackgroundTasks emit].
      split; [done |]. split; [| split].
      * intros t Ht. apply elem_of_app. left. auto.
      * intros k t Hk.
        destruct (decide (taskName = k)) as [<- | Hne].
        -- rewrite lookup_insert_eq in Hk. injection Hk as <-.
           split; [| apply elem_of_app; right; by left].
           intros H. by apply Hseen in H.
        -- rewrite lookup_insert_ne in Hk by done.
           destruct (Hstored _ _ Hk) as (? & ?).
           split; [done |]. apply elem_of_app. by left.
      * intros k1 k2 t H1 H2.
        destruct (decide (taskName = k1)) as [<- | Hne1];
          destruct (decide (taskName = k2)) as [<- | Hne2]; try done.
        -- rewrite lookup_insert_eq in H1. injection H1 as <-.
           rewrite lookup_insert_ne in H2 by done.
           destruct (Hstored _ _ H2) as (_ & ?). done.
        -- rewrite lookup_insert_eq in H2. injection H2 as <-.
           rewrite lookup_insert_ne in H1 by done.
           destruct (Hstored _ _ H1) as (_ & ?). done.
        -- rewrite lookup_insert_ne in H1, H2 by done. eauto.
  - unfold endBackgroundTask.
    destruct (pendingBackgroundTasks w !! taskName) as [taskId |] eqn:Hk; [| done].
    by apply background_release_inv.
  - unfold backgroundTaskExpired.
    destruct (pendingBackgroundTasks w !! taskName) as [taskId |] eqn:Hk; [| done].
    destruct (hasListeners w).
    + unfold background_inv. by rewrite ended_emit, app_nil_r.
    + by apply background_release_inv.
Qed.

Lemma background_run_inv steps : ∀ seen w,
  background_inv seen w →
  NoDup (granted steps) →
  (∀ i, i ∈ granted steps → i ∉ seen) →
  background_inv (seen ++ granted steps) (background_run w steps).
Proof.
  induction steps as [| a steps IH]; intros seen w Hinv Hnd Hfresh.
  - cbn. by rewrite app_nil_r.
  - cbn [background_run foldl].
    assert (Hsplit : granted (a :: steps) = granted [a] ++ granted steps).
    { unfold granted. cbn. destruct a; try done. by destruct (decide _). }
    rewrite Hsplit in Hnd, Hfresh |- *. rewrite app_assoc.
    apply NoDup_app in Hnd as (_ & Hdisj & Hnd).
    apply IH; [| done |].
    + apply background_step_inv; [done |].
      intros i Hi. apply Hfresh. apply elem_of_app. by left.
    + intros i Hi [Hin | Hin]%elem_of_app.
      * eapply Hfresh; [| done]. apply elem_of_app. by right.
      * by eapply Hdisj.
Qed.

(** X8.  In every run of the background-task side of the module in which
    the OS grants distinct tokens, however starts, ends, expirations and
    observers interleave and whatever names are reused,
    [endBackgroundTask:] is called at most once on each token, only on
    tokens that were granted, and never on one that is still in
    [pendingBackgroundTasks]; no two names share a token. *)
Theorem background_token_ended_at_most_once steps :
  NoDup (granted steps) →
  let w := background_run init steps in
  NoDup (ended w)
  ∧ (∀ taskId, taskId ∈ ended w → taskId ∈ granted steps)
  ∧ (∀ k taskId, pendingBackgroundTasks w !! k = Some taskId →
       (taskId ∉ ended w) ∧ taskId ∈ granted steps)
  ∧ (∀ k k' taskId, pendingBackgroundTasks w !! k = Some taskId →
       pendingBackgroundTasks w !! k' = Some taskId → k = k').
Proof.
  intros Hnd w.
  assert (Hinit : background_inv [] init).
  { split; [apply NoDup_nil_2 |]. split; [| split]; cbn; done. }
  apply (background_run_inv steps [] init Hinit Hnd).
  intros i _ H. by apply elem_of_nil in H.
Qed.

Lemma background_token_ended_at_most_once_witness :
  let steps := [JsStart "a" 3; JsStart "a" 4; TaskObserving true;
                OsTaskExpire "a"; JsEnd "a"; JsEnd "a"; JsStart "b" 0;
                TaskObserving false; JsStart "b" 5; OsTaskExpire "b"] in
  NoDup (ended (background_run init steps))
  ∧ ended (background_run init steps) = [4%N; 5%N].
Proof.
  intros steps.
  assert (Hnd : NoDup (granted steps)).
  { vm_compute. rewrite !NoDup_cons, !not_elem_of_cons.
    repeat split; try discriminate; try apply not_elem_of_nil. apply NoDup_nil_2. }
  destruct (background_token_ended_at_most_once steps Hnd) as (H & _).
  split; [exact H | reflexivity].
Defined.

End TaskRunClaims.

(** ** More on the connection sequence *)

Section MoreConnection.
Import BleManager.

Ltac split_trace :=
  rewrite ?elem_of_cons, ?elem_of_app, ?elem_of_nil;
  let Hin := fresh "Hin" in
  intros Hin;
  repeat match goal with
         | H : _ ∨ _ |- _ => destruct H as [H | H]
         | H : False |- _ => destruct H
         | H : @eq Op _ _ |- _ => first [discriminate H | injection H as ? ?; subst
                                        | injection H as ?; subst]
         end.

(** X9.  [connectToDevice] registers the disconnect listener before anything
    else, and it stays registered when the connection fails; it calls
    [connect] only on its own device, with its own timeout, and only after
    [isConnected] answered no; it starts discovery only on a device that was
    connected already or that it has just connected; and it returns its
    device only after discovery succeeded. *)
Theorem connectToDevice_order tr device timeout :
  (∃ rest, (connectToDevice tr device timeout).1
           = OnDisconnected device :: IsConnected device :: rest)
  ∧ (∀ d t, Connect d t ∈ (connectToDevice tr device timeout).1 →
       isConnected tr device = Returned false ∧ d = device ∧ t = timeout)
  ∧ (∀ d, DiscoverAllServicesAndCharacteristics d
            ∈ (connectToDevice tr device timeout).1 →
       d = device
       ∧ (isConnected tr device = Returned true
          ∨ isConnected tr device = Returned false ∧ connect tr device = Returned tt))
  ∧ (∀ d, (connectToDevice tr device timeout).2 = Returned d →
       d = device
       ∧ discoverAllServicesAndCharacteristics tr device = Returned tt).
Proof.
  unfold connectToDevice, await, log, mbind, Async_bind, mret, Async_ret. cbn.
  destruct (isConnected tr device) as [[|] | e |]; cbn;
    destruct (connect tr device) as [[] | e' |]; cbn;
    destruct (discoverAllServicesAndCharacteristics tr device) as [[] | e'' |]; cbn;
    (split; [eauto |]);
    (split; [intros d t; split_trace; done |]);
    (split; [intros d; split_trace; auto |]);
    intros d Hd; by simplify_eq.
Qed.

(** X10.  [establishConnection] touches nothing it does not need: while the
    radio has not reported [PoweredOn] it only listens for the state and
    logs the states it is told; when the query for connected devices fails
    it neither scans nor connects and fails with that error; when the scan
    fails it fails with the scan's error without touching any device. *)
Theorem establishConnection_fails_early tr :
  (PoweredOn ∉ stateChanges tr →
     establishConnection tr
     = ([Log "Waiting for PoweredOn state..."; OnStateChange]
        ++ (stateLog <$> stateChanges tr),
        Waiting))
  ∧ (∀ before after e,
       stateChanges tr = before ++ PoweredOn :: after →
       PoweredOn ∉ before →
       connectedDevices tr [serviceUUID] = Thrown e →
       establishConnection tr
       = ([Log "Waiting for PoweredOn state..."; OnStateChange]
          ++ (stateLog <$> (before ++ [PoweredOn]))
          ++ [StateSubscriptionRemove;
              Log "Checking connected devices..."; ConnectedDevices [serviceUUID]],
          Thrown e))
  ∧ (∀ before after e,
       stateChanges tr = before ++ PoweredOn :: after →
       PoweredOn ∉ before →
       connectedDevices tr [serviceUUID] = Returned [] →
       scanned tr = Thrown e →
       establishConnection tr
       = ([Log "Waiting for PoweredOn state..."; OnStateChange]
          ++ (stateLog <$> (before ++ [PoweredOn]))
          ++ [StateSubscriptionRemove;
              Log "Checking connected devices..."; ConnectedDevices [serviceUUID];
              Log "Scanning for device..."; StartDeviceScan [serviceUUID] 5000],
          Thrown e)).
Proof.
  split; [| split].
  - apply establishConnection_off.
  - intros before after e Hst Hnot Hq.
    rewrite (establishConnection_query tr before after Hst Hnot).
    rewrite (bind_returned _ _ tt) by done. cbn [fst snd].
    unfold await. rewrite Hq.
    rewrite (bind_thrown ([ConnectedDevices _], _) _ e) by done.
    cbn [fst snd app]. by rewrite <- !app_assoc.
  - intros before after e Hst Hnot Hq Hscan.
    rewrite (establishConnection_query tr before after Hst Hnot).
    rewrite (bind_returned _ _ tt) by done. cbn [fst snd].
    unfold await. rewrite Hq.
    rewrite (bind_returned ([ConnectedDevices _], _) _ []) by done.
    cbn [fst snd]. unfold log, scanDevice, await. rewrite Hscan.
    rewrite (bind_returned ([Log _], _) _ tt) by done. cbn [fst snd].
    rewrite (bind_thrown (_ ++ _, Thrown e) _ e) by done.
    cbn [fst snd app]. by rewrite <- !app_assoc.
Qed.

Lemma cancelEach_all tr devices :
  Forall (fun d => cancelConnection tr d = Returned tt) devices →
  cancelEach tr devices = (CancelConnection <$> devices, Returned tt).
Proof.
  induction 1 as [| d devices Hd _ IH]; [done |].
  cbn [cancelEach]. unfold await. rewrite (bind_returned _ _ tt) by (cbn; done).
  by rewrite IH.
Qed.

Lemma cancelEach_stops tr before device after e :
  Forall (fun d => cancelConnection tr d = Returned tt) before →
  cancelConnection tr device = Thrown e →
  cancelEach tr (before ++ device :: after)
  = (CancelConnection <$> (before ++ [device]), Thrown e).
Proof.
  intros Hbefore Hfail.
  induction Hbefore as [| d before Hd _ IH]; cbn [cancelEach app].
  - unfold await. by rewrite (bind_thrown _ _ e) by (cbn; done).
  - unfold await. rewrite (bind_returned _ _ tt) by (cbn; done).
    by rewrite IH.
Qed.

(** X11.  [cancelAllConnections] disconnects the connected devices in the
    order of the list and stops at the first that fails: the devices after
    it are never asked to disconnect and the error is the result.  When
    every device disconnects, every device of the list was asked exactly
    once. *)
Theorem cancelAllConnections_stops_at_first_failure tr :
  (∀ devices,
     connectedAtCleanup tr [serviceUUID] = Returned devices →
     Forall (fun d => cancelConnection tr d = Returned tt) devices →
     cancelAllConnections tr
     = (ConnectedDevices [serviceUUID] :: (CancelConnection <$> devices),
        Returned tt))
  ∧ (∀ before device after e,
       connectedAtCleanup tr [serviceUUID] = Returned (before ++ device :: after) →
       Forall (fun d => cancelConnection tr d = Returned tt) before →
       cancelConnection tr device = Thrown e →
       cancelAllConnections tr
       = (ConnectedDevices [serviceUUID]
            :: (CancelConnection <$> (before ++ [device])),
          Thrown e)).
Proof.
  split.
  - intros devices Hq Hall. unfold cancelAllConnections, await.
    rewrite (bind_returned _ _ devices) by done.
    by rewrite cancelEach_all.
  - intros before device after e Hq Hbefore Hfail.
    unfold cancelAllConnections, await.
    rewrite (bind_returned _ _ (before ++ device :: after)) by done.
    by rewrite (cancelEach_stops _ _ _ _ e).
Qed.

Lemma cancelAllConnections_stops_at_first_failure_witness :
  let tr := {| stateChanges := [PoweredOn];
               connectedDevices := fun _ => Returned [];
               scanned := Waiting;
               isConnected := fun _ => Returned true;
               connect := fun _ => Returned tt;
               discoverAllServicesAndCharacteristics := fun _ => Returned tt;
               downloaded := fun _ n => Returned n;
               connectedAtCleanup := fun _ => Returned ["p1"; "p2"; "p3"];
               cancelConnection := fun d =>
                 if String.eqb d "p2" then Thrown (BleError "busy") else Returned tt |} in
  cancelAllConnections tr
  = ([ConnectedDevices [serviceUUID]; CancelConnection "p1"; CancelConnection "p2"],
     Thrown (BleError "busy")).
Proof.
  intros tr.
  destruct (cancelAllConnections_stops_at_first_failure tr) as [_ Hstop].
  apply (Hstop ["p1"] "p2" ["p3"] (BleError "busy")).
  - reflexivity.
  - apply Forall_singleton. reflexivity.
  - reflexivity.
Defined.

End MoreConnection.

(** ** scanDevice *)

Section ScanClaims.
Import Scan.












End ScanClaims.

(** ** Jobs under a background task *)

Section JobClaims.
Import BleManager Jobs TaskRuns.

Lemma startBackgroundTask_granted taskName listener identifier s :
  identifier ≠ PLXBackground.UIBackgroundTaskInvalid →
  let s1 := Jobs.startBackgroundTask taskName listener identifier s in
  PLXBackground.pendingBackgroundTasks (Background.native s1)
    = <[taskName := identifier]> (PLXBackground.pendingBackgroundTasks (Background.native s))
  ∧ ended (Background.native s1) = ended (Background.native s)
  ∧ Background.listeners s1
    = Background.listeners s ++ [(PLXBackground.BackgroundTaskExpiredEvent, listener)].
Proof.
  intros Hok. unfold Jobs.startBackgroundTask, PLXBackground.startBackgroundTask.
  destruct (decide _) as [| _]; [done |].
  cbn -[insert Background.native_addListener].
  destruct (native_addListener_flag (length (Background.listeners s))
              (Background.native s)) as [b ->].
  cbn -[insert]. repeat split.
  unfold ended. cbn. rewrite omap_app. cbn. by rewrite app_nil_r.
Qed.

Lemma ended_set_hasListeners b w :
  ended (PLXBackground.set_hasListeners b w) = ended w.
Proof. done. Qed.

Lemma endBackgroundTask_registered taskName identifier s :
  PLXBackground.pendingBackgroundTasks (Background.native s) !! taskName = Some identifier →
  PLXBackground.pendingBackgroundTasks (Background.native (Jobs.endBackgroundTask taskName s))
    = delete taskName (PLXBackground.pendingBackgroundTasks (Background.native s))
  ∧ ended (Background.native (Jobs.endBackgroundTask taskName s))
    = ended (Background.native s) ++ [identifier]
  ∧ Background.listeners (Jobs.endBackgroundTask taskName s) = Background.listeners s.
Proof.
  intros Hreg. unfold Jobs.endBackgroundTask, PLXBackground.endBackgroundTask.
  rewrite Hreg. cbn -[delete]. repeat split.
  unfold ended. cbn. by rewrite omap_app.
Qed.

(** X14.  A background task started the way [executeJob] and
    [restoredProcess] start theirs is always released when the OS expires
    it, whether or not the module has observers at that moment: with
    observers the event reaches the listener, which ends the task; without
    them the module ends it itself.  Either way the granted token is ended
    exactly once and the handle is gone. *)
Theorem job_task_released_on_expiry taskName listener identifier s :
  identifier ≠ PLXBackground.UIBackgroundTaskInvalid →
  let s1 := Jobs.startBackgroundTask taskName listener identifier s in
  let s2 := osExpires taskName listener s1 in
  PLXBackground.pendingBackgroundTasks (Background.native s2) !! taskName = None
  ∧ ended (Background.native s2) = ended (Background.native s) ++ [identifier].
Proof.
  intros Hok s1 s2.
  destruct (startBackgroundTask_granted taskName listener identifier s Hok)
    as (Hreg & Hended & Hls).
  fold s1 in Hreg, Hended, Hls.
  assert (Hk : PLXBackground.pendingBackgroundTasks (Background.native s1) !! taskName
               = Some identifier).
  { rewrite Hreg. apply lookup_insert_eq. }
  subst s2. unfold osExpires.
  rewrite bool_decide_eq_true_2 by (by rewrite Hk).
  rewrite (bool_decide_eq_true_2 (_ ∈ _))
    by (rewrite Hls; apply elem_of_app; right; by left).
  rewrite andb_true_r. cbn [andb].
  unfold PLXBackground.backgroundTaskExpired. rewrite Hk.
  destruct (PLXBackground.hasListeners (Background.native s1)) eqn:Hl.
  - unfold expiredListener. destruct (decide (taskName = taskName)) as [_ | ?]; [| done].
    match goal with
    | |- context [Background.removeListener ?n ?l ?x] =>
        destruct (native_removeListener n l x) as [b ->]
    end.
    rewrite ended_set_hasListeners.
    cbn [PLXBackground.pendingBackgroundTasks PLXBackground.set_hasListeners].
    match goal with
    | |- context [Jobs.endBackgroundTask taskName ?x] =>
        destruct (endBackgroundTask_registered taskName identifier x) as (H1 & H2 & _)
    end; [exact Hk |].
    rewrite H1, H2. split; [apply lookup_delete_eq |].
    cbn. unfold ended in *. cbn. rewrite omap_app. cbn.
    by rewrite app_nil_r, Hended.
  - cbn -[delete]. split; [apply lookup_delete_eq |].
    unfold ended in *. cbn. by rewrite omap_app, Hended.
Qed.

Lemma job_task_released_on_expiry_witness :
  let observed := Background.set_native
                    (PLXBackground.startObserving PLXBackground.init) Background.init in
  ended (Background.native
           (osExpires "1583495305000" 1
              (Jobs.startBackgroundTask "1583495305000" 1 7 observed))) = [7%N]
  ∧ ended (Background.native
             (osExpires "1583495305000" 1
                (Jobs.startBackgroundTask "1583495305000" 1 7 Background.init))) = [7%N].
Proof.
  intros observed.
  assert (H7 : 7%N ≠ PLXBackground.UIBackgroundTaskInvalid) by (vm_compute; discriminate).
  destruct (job_task_released_on_expiry "1583495305000" 1 7 observed H7) as [_ H1].
  destruct (job_task_released_on_expiry "1583495305000" 1 7 Background.init H7) as [_ H2].
  split; [exact H1 | exact H2].
Defined.

(** X15.  [executeJob] ends its background task only when the download
    resolves: when the download is rejected the function throws with the
    task still registered and its token not ended, and even after a
    download that resolved the expiration listener stays registered.
    [restoredProcess] never throws: whatever its connect, drain and
    disconnect steps do, once they are over the task is ended and the handle
    removed. *)
Theorem jobs_and_their_background_task taskName listener identifier s :
  identifier ≠ PLXBackground.UIBackgroundTaskInvalid →
  (∀ e,
     let r := executeJob taskName listener identifier (Thrown e) s in
     r.2 = Thrown e
     ∧ PLXBackground.pendingBackgroundTasks (Background.native r.1) !! taskName
       = Some identifier
     ∧ ended (Background.native r.1) = ended (Background.native s))
  ∧ (∀ n,
       let r := executeJob taskName listener identifier (Returned n) s in
       r.2 = Returned tt
       ∧ PLXBackground.pendingBackgroundTasks (Background.native r.1) !! taskName = None
       ∧ ended (Background.native r.1) = ended (Background.native s) ++ [identifier]
       ∧ (PLXBackground.BackgroundTaskExpiredEvent, listener) ∈ Background.listeners r.1)
  ∧ (∀ tr device drained,
       (restoredBody tr device drained).2 ≠ Waiting →
       let r := restoredProcess tr device taskName listener identifier drained s in
       r.2 = Returned tt
       ∧ PLXBackground.pendingBackgroundTasks (Background.native r.1) !! taskName = None
       ∧ ended (Background.native r.1) = ended (Background.native s) ++ [identifier]).
Proof.
  intros Hok.
  destruct (startBackgroundTask_granted taskName listener identifier s Hok)
    as (Hreg & Hended & Hls).
  cbn zeta in Hreg, Hended, Hls.
  assert (Hk : PLXBackground.pendingBackgroundTasks
                 (Background.native (Jobs.startBackgroundTask taskName listener identifier s))
                 !! taskName = Some identifier).
  { rewrite Hreg. apply lookup_insert_eq. }
  destruct (endBackgroundTask_registered taskName identifier _ Hk) as (H1 & H2 & H3).
  split; [| split].
  - intros e. cbn. by rewrite Hk, Hended.
  - intros n. cbn [executeJob fst snd]. rewrite H1, H2, H3, Hended, Hls.
    repeat split; [apply lookup_delete_eq |].
    apply elem_of_app. right. by left.
  - intros tr device drained Hsettles. unfold restoredProcess.
    destruct (restoredBody tr device drained).2 as [[] | e |]; [| | done];
      cbn [fst snd]; rewrite H1, H2, Hended;
      (repeat split; apply lookup_delete_eq).
Qed.

Lemma jobs_and_their_background_task_witness :
  let failed := executeJob "1583495305000" 1 7
                  (Thrown (BleError "Device was disconnected")) Background.init in
  PLXBackground.pendingBackgroundTasks (Background.native failed.1) !! "1583495305000"
  = Some 7%N
  ∧ ended (Background.native failed.1) = [].
Proof.
  intros failed.
  assert (H7 : 7%N ≠ PLXBackground.UIBackgroundTaskInvalid) by (vm_compute; discriminate).
  destruct (jobs_and_their_background_task "1583495305000" 1 7 Background.init H7)
    as (Hfail & _).
  destruct (Hfail (BleError "Device was disconnected")) as (_ & Hreg & Hended).
  split; [exact Hreg | exact Hended].
Defined.

End JobClaims.

(** ** Callbacks of the scheduled task *)

Section ScheduleClaims.
Import Jobs.

Lemma filter_all {A} (f : A → bool) l :
  (∀ x, In x l → f x = true) → List.filter f l = l.
Proof.
  induction l as [| x l IH]; intros H; [done |]. cbn.
  rewrite (H x) by (by left). f_equal. apply IH. intros y Hy. apply H. by right.
Qed.

Lemma filter_none {A} (f : A → bool) l :
  (∀ x, In x l → f x = false) → List.filter f l = [].
Proof.
  induction l as [| x l IH]; intros H; [done |]. cbn.
  rewrite (H x) by (by left). apply IH. intros y Hy. apply H. by right.
Qed.

Lemma filter_split {A} (f : A → bool) l :
  (length (List.filter f l) + length (List.filter (fun x => negb (f x)) l)
   = length l)%nat.
Proof. induction l as [| x l IH]; [done |]. cbn. destruct (f x); cbn; lia. Qed.

Lemma other_listeners_not_processing s x :
  In x (other_listeners s) → is_processing x = false.
Proof. intros [_ H]%filter_In. by apply negb_true_iff in H. Qed.

Lemma filter_processing (ls : list (string * nat)) :
  List.filter
    (fun l => negb (bool_decide (l.1 = PLXBackground.BackgroundProcessingExpiredEvent)))
    (List.filter
       (fun l => negb (bool_decide (l.1 = PLXBackground.BackgroundProcessingExecutingEvent)))
       ls)
  = List.filter (fun l => negb (is_processing l)) ls.
Proof.
  induction ls as [| x ls IH]; [done |]. cbn. unfold is_processing at 1.
  destruct (decide (x.1 = PLXBackground.BackgroundProcessingExecutingEvent)) as [H1 | H1].
  - rewrite (bool_decide_eq_true_2 (x.1 = _)) by done.
    rewrite (bool_decide_eq_true_2 (_ ∨ _)) by (by left). done.
  - rewrite (bool_decide_eq_false_2 (x.1 = _)) by done. cbn.
    destruct (decide (x.1 = PLXBackground.BackgroundProcessingExpiredEvent)) as [H2 | H2].
    + rewrite (bool_decide_eq_true_2 (x.1 = _)) by done.
      rewrite (bool_decide_eq_true_2 (_ ∨ _)) by (by right). done.
    + rewrite (bool_decide_eq_false_2 (x.1 = _)) by done.
      rewrite (bool_decide_eq_false_2 (_ ∨ _)) by tauto. cbn. by rewrite IH.
Qed.

Lemma cancelAll_listeners s :
  Background.listeners (Background.cancelAllBackgroundProcessingTasks s)
  = other_listeners s.
Proof. apply filter_processing. Qed.

(** After [cancelAllBackgroundProcessingTasks] the module observes exactly
    when a listener of another event is left. *)
Lemma cancelAll_native s :
  Background.native (Background.cancelAllBackgroundProcessingTasks s)
  = if decide (other_listeners s = []) then PLXBackground.stopObserving (Background.native s)
    else Background.native s.
Proof.
  pose proof (filter_processing (Background.listeners s)) as Hothers.
  fold (other_listeners s) in Hothers.
  cbn [Background.cancelAllBackgroundProcessingTasks Background.native
       Background.removeAllListeners Background.listeners].
  set (L := Background.listeners s) in *.
  pose proof (filter_split
                (fun l => bool_decide (l.1 = PLXBackground.BackgroundProcessingExecutingEvent))
                L) as H1.
  cbn beta in H1.
  set (L1 := List.filter
               (fun l => negb (bool_decide
                                 (l.1 = PLXBackground.BackgroundProcessingExecutingEvent)))
               L) in *.
  pose proof (filter_split
                (fun l => bool_decide (l.1 = PLXBackground.BackgroundProcessingExpiredEvent))
                L1) as H2.
  cbn beta in H2. rewrite Hothers in H2.
  unfold Background.native_removeListeners.
  destruct (decide (other_listeners s = [])) as [Hnil | Hsome].
  - rewrite Hnil in H2. cbn [length] in H2.
    rewrite (decide_True (P := (length L1 - _)%nat = 0%nat)) by lia.
    by destruct (decide _).
  - assert (length (other_listeners s) ≠ 0%nat) as Hlen
      by (by destruct (other_listeners s)).
    rewrite (decide_False (P := (length L1 - _)%nat = 0%nat)) by lia.
    rewrite decide_False by lia. done.
Qed.

(** Removing the one subscription of a listener. *)
Lemma removeListener_single name listener pre post s :
  Background.listeners s = pre ++ (name, listener) :: post →
  (∀ x, In x pre → x ≠ (name, listener)) →
  (∀ x, In x post → x ≠ (name, listener)) →
  Background.listeners (Background.removeListener name listener s) = pre ++ post
  ∧ Background.native (Background.removeListener name listener s)
    = if decide (pre ++ post = []) then PLXBackground.stopObserving (Background.native s)
      else Background.native s.
Proof.
  intros Hls Hpre Hpost.
  assert (Hkeep : ∀ l, (∀ x, In x l → x ≠ (name, listener)) →
            List.filter (fun l => negb (bool_decide (l = (name, listener)))) l = l).
  { intros l Hl. apply filter_all. intros x Hx.
    apply negb_true_iff, bool_decide_eq_false. by apply Hl. }
  assert (Hdrop : ∀ l, (∀ x, In x l → x ≠ (name, listener)) →
            List.filter (fun l => bool_decide (l = (name, listener))) l = []).
  { intros l Hl. apply filter_none. intros x Hx.
    apply bool_decide_eq_false. by apply Hl. }
  cbn [Background.removeListener Background.listeners Background.native].
  rewrite Hls, !List.filter_app. cbn [List.filter].
  rewrite bool_decide_eq_true_2 by done. cbn [negb].
  rewrite !Hkeep, !Hdrop by done.
  split; [done |].
  cbn [app length Background.native_removeSubscriptions].
  unfold Background.native_removeListeners.
  rewrite length_app. cbn [length].
  destruct (decide (pre ++ post = [])) as [Hnil | Hsome].
  - apply app_eq_nil in Hnil as [-> ->]. cbn. done.
  - assert (length (pre ++ post) ≠ 0%nat) as Hlen by (by destruct (pre ++ post)).
    rewrite length_app in Hlen.
    rewrite decide_False by lia. done.
Qed.

Lemma addListener_native name listener s :
  Background.native (Background.addListener name listener s)
  = if decide (Background.listeners s = []) then PLXBackground.startObserving (Background.native s)
    else Background.native s.
Proof.
  cbn [Background.addListener Background.native]. unfold Background.native_addListener.
  destruct (Background.listeners s) as [| l ls]; [done |].
  by rewrite decide_False by (cbn; lia).
Qed.

(** X16.  Scheduling the long-running task replaces whatever was scheduled
    before: after a submission the OS accepted, the processing events have
    exactly the two new listeners and [registeredCallbacks] exactly the new
    entry; after one the OS refused they have none at all, the earlier
    registration included.  Completing the task removes both listeners and
    the entry again.  Listeners of other events are never touched.  On the
    native side only the observing flag can change, and it changes only
    when no listener of another event is registered: then the module
    observes after an accepted submission, and no longer observes after a
    refused one or once the task is completed. *)
Theorem scheduling_replaces_callbacks execution expired s :
  let ok := (BleManager.scheduleBackgroundProcessingTask execution expired true s).2 in
  let refused := (BleManager.scheduleBackgroundProcessingTask execution expired false s).2 in
  (Background.registeredCallbacks ok = {[ "LongRunningTask" := (execution, expired) ]}
   ∧ processing_listeners ok
     = [(PLXBackground.BackgroundProcessingExecutingEvent, execution);
        (PLXBackground.BackgroundProcessingExpiredEvent, expired)]
   ∧ other_listeners ok = other_listeners s
   ∧ Background.native ok
     = if decide (other_listeners s = [])
       then PLXBackground.startObserving (Background.native s)
       else Background.native s)
  ∧ (Background.registeredCallbacks refused = ∅
     ∧ processing_listeners refused = []
     ∧ other_listeners refused = other_listeners s
     ∧ Background.native refused
       = if decide (other_listeners s = [])
         then PLXBackground.stopObserving (Background.native s)
         else Background.native s)
  ∧ (∀ result,
       let finished :=
         Background.completeBackgroundProcessingTask "LongRunningTask" result ok in
       Background.registeredCallbacks finished = ∅
       ∧ processing_listeners finished = []
       ∧ other_listeners finished = other_listeners s
       ∧ Background.native finished
         = PLXBackground.completeBackgroundProcessing "LongRunningTask" result
             (if decide (other_listeners s = [])
              then PLXBackground.stopObserving (Background.native s)
              else Background.native s)).
Proof.
  intros ok refused.
  set (others := other_listeners s).
  set (cancelled := Background.cancelAllBackgroundProcessingTasks s).
  set (a := (PLXBackground.BackgroundProcessingExecutingEvent, execution)).
  set (b := (PLXBackground.BackgroundProcessingExpiredEvent, expired)).
  assert (Hothers : ∀ x, In x others → is_processing x = false).
  { intros x. apply other_listeners_not_processing. }
  assert (Hnone : List.filter is_processing others = []).
  { by apply filter_none. }
  assert (Hall : List.filter (fun l => negb (is_processing l)) others = others).
  { apply filter_all. intros x Hx. by rewrite Hothers. }
  assert (Ha : ∀ x, In x others → x ≠ a).
  { intros x Hx ->. apply Hothers in Hx. by vm_compute in Hx. }
  assert (Hb : ∀ x, In x others → x ≠ b).
  { intros x Hx ->. apply Hothers in Hx. by vm_compute in Hx. }
  assert (Hc : Background.listeners cancelled = others) by apply cancelAll_listeners.
  pose proof (cancelAll_native s) as Hcn. fold cancelled others in Hcn.
  set (s1 := Background.addListener PLXBackground.BackgroundProcessingExecutingEvent
               execution cancelled).
  set (s2 := Background.addListener PLXBackground.BackgroundProcessingExpiredEvent
               expired s1).
  assert (Hs2 : Background.listeners s2 = others ++ [a; b]).
  { subst s2 s1. cbn [Background.addListener Background.listeners].
    by rewrite Hc, <- app_assoc. }
  assert (Hn2 : Background.native s2
                = if decide (others = []) then PLXBackground.startObserving (Background.native s)
                  else Background.native s).
  { subst s2. rewrite addListener_native.
    rewrite decide_False
      by (subst s1; cbn [Background.addListener Background.listeners];
          by destruct (Background.listeners cancelled)).
    subst s1. rewrite addListener_native, Hc, Hcn.
    by destruct (decide (others = [])). }
  assert (Hr2 : Background.registeredCallbacks s2 = ∅) by done.
  (* both listeners removed again *)
  assert (Hremoved : ∀ s3,
            Background.listeners s3 = others ++ [a; b] →
            let s4 := Background.removeListener PLXBackground.BackgroundProcessingExpiredEvent
                        expired
                        (Background.removeListener
                           PLXBackground.BackgroundProcessingExecutingEvent execution s3) in
            Background.listeners s4 = others
            ∧ Background.native s4
              = if decide (others = []) then PLXBackground.stopObserving (Background.native s3)
                else Background.native s3).
  { intros s3 Hs3 s4.
    destruct (removeListener_single PLXBackground.BackgroundProcessingExecutingEvent
                execution others [b] s3) as [Hl1 Hn1]; [done | done | |].
    { intros x [<- | []]. discriminate. }
    destruct (removeListener_single PLXBackground.BackgroundProcessingExpiredEvent
                expired others []
                (Background.removeListener
                   PLXBackground.BackgroundProcessingExecutingEvent execution s3))
      as [Hl2 Hn2']; [done | done | by intros x [] |].
    subst s4. rewrite Hl2, Hn2', Hn1, !app_nil_r.
    split; [done |].
    rewrite (decide_False (P := others ++ [b] = []))
      by (by destruct others).
    done. }
  split; [| split].
  - assert (Hok : Background.listeners ok = others ++ [a; b]) by exact Hs2.
    split; [subst ok; cbn -[insert]; by rewrite insert_empty |].
    unfold processing_listeners, other_listeners. rewrite Hok, !List.filter_app.
    rewrite Hnone, Hall. cbn. rewrite app_nil_r.
    split; [done |]. split; [done |]. exact Hn2.
  - destruct (Hremoved s2 Hs2) as [Hl Hn].
    assert (Hrefused : Background.listeners refused = others) by exact Hl.
    unfold processing_listeners, other_listeners. rewrite Hrefused, Hnone, Hall.
    split; [done |]. split; [done |]. split; [done |].
    change (Background.native refused) with
      (Background.native
         (Background.removeListener PLXBackground.BackgroundProcessingExpiredEvent expired
            (Background.removeListener PLXBackground.BackgroundProcessingExecutingEvent
               execution s2))).
    rewrite Hn, Hn2. by destruct (decide (others = [])).
  - intros result finished.
    assert (Hreg : Background.registeredCallbacks ok !! "LongRunningTask"
                   = Some (execution, expired)).
    { subst ok. cbn -[insert]. apply lookup_insert_eq. }
    assert (Hokl : Background.listeners ok = others ++ [a; b]) by exact Hs2.
    assert (Hokn : Background.native ok = Background.native s2) by done.
    destruct (Hremoved ok Hokl) as [Hl Hn].
    assert (Hfinished : Background.listeners finished = others
                        ∧ Background.registeredCallbacks finished = ∅
                        ∧ Background.native finished
                          = PLXBackground.completeBackgroundProcessing "LongRunningTask" result
                              (if decide (others = [])
                               then PLXBackground.stopObserving (Background.native s)
                               else Background.native s)).
    { subst finished. unfold Background.completeBackgroundProcessingTask.
      rewrite Hreg.
      cbn [Background.listeners Background.set_native Background.native
           Background.delete_registeredCallbacks Background.registeredCallbacks].
      split; [exact Hl |]. split.
      - cbn [Background.removeListener Background.registeredCallbacks].
        subst ok. cbn -[insert delete]. by rewrite insert_empty, delete_singleton_eq.
      - rewrite Hn, Hokn, Hn2. by destruct (decide (others = [])). }
    destruct Hfinished as (Hls & Hrc & Hnat).
    unfold processing_listeners, other_listeners. by rewrite Hls, Hrc, Hnone, Hall.
Qed.

Lemma scheduling_replaces_callbacks_witness :
  let ok := (BleManager.scheduleBackgroundProcessingTask 1 2 true Background.init).2 in
  PLXBackground.hasListeners (Background.native ok) = true
  ∧ PLXBackground.hasListeners
      (Background.native
         (Background.completeBackgroundProcessingTask "LongRunningTask" true ok))
    = false.
Proof.
  intros ok.
  destruct (scheduling_replaces_callbacks 1 2 Background.init)
    as ((_ & _ & _ & Hok) & _ & Hdone).
  destruct (Hdone true) as (_ & _ & _ & Hfinished).
  cbn zeta in Hok, Hfinished. fold ok in Hok, Hfinished.
  rewrite Hok, Hfinished. split; reflexivity.
Defined.

End ScheduleClaims.

(** ** The log *)

Section LogClaims.
Import Utils.

(** X17.  The log keeps one line per millisecond: of two messages logged
    with the same [Date.now()] only the later one stays in storage, though
    both reach the console.  A listener that was removed receives nothing
    any more, however often it had been added, and in the background no
    listener is called while the line is stored all the same. *)
Theorem log_keeps_one_line_per_millisecond time first second u :
  (storage (log time second (log time first u)) = storage (log time second u)
   ∧ storage (log time second (log time first u)) !! Background.Number_toString time
     = Some (Background.Number_toString time +:+ ": " +:+ second)
   ∧ console (log time second (log time first u))
     = console u ++ [Background.Number_toString time +:+ ": " +:+ first;
                     Background.Number_toString time +:+ ": " +:+ second])
  ∧ (∀ listener message,
       (listener, message)
         ∈ delivered (log time first (removeLogListener listener u)) →
       (listener, message) ∈ delivered u)
  ∧ (inForeground u = false →
       delivered (log time first u) = delivered u
       ∧ storage (log time first u) !! Background.Number_toString time
         = Some (Background.Number_toString time +:+ ": " +:+ first)).
Proof.
  split; [| split].
  - cbn -[insert]. rewrite insert_insert_eq, lookup_insert_eq, <- app_assoc. done.
  - intros listener message. cbn.
    rewrite elem_of_app. intros [Hold | Hnew]; [done |].
    destruct (inForeground u); [| by apply elem_of_nil in Hnew].
    apply list_elem_of_fmap in Hnew as (l & Heq & Hl).
    injection Heq as <- _.
    apply list_elem_of_In, filter_In in Hl as [_ Hne].
    apply negb_true_iff, bool_decide_eq_false in Hne. done.
  - intros Hbg. cbn -[insert]. rewrite Hbg, app_nil_r, lookup_insert_eq. done.
Qed.

Lemma log_keeps_one_line_per_millisecond_witness :
  let u := log 1500 "Task 1500 started"
             (log 1500 "Executing job!"
                (appStateChanged 1400 "background" (addLogListener 1 init))) in
  size (storage u) = 2%nat ∧ length (console u) = 3%nat ∧ delivered u = [].
Proof.
  intros u.
  destruct (log_keeps_one_line_per_millisecond 1500 "Executing job!"
              "Task 1500 started"
              (appStateChanged 1400 "background" (addLogListener 1 init)))
    as ((Hstore & _ & Hconsole) & _ & _).
  subst u. rewrite Hstore, Hconsole.
  repeat split; vm_compute; reflexivity.
Defined.

End LogClaims.

(** ** The scheduled job, step by step *)

Section JobSteps.
Import BleManager.

(** X18.  The scheduled job asks for its ten ticks only on the device the
    connection sequence returned, and it disconnects only after the download
    resolved: when connecting fails nothing is downloaded, and when the
    download is rejected the job ends with that error and the connection is
    left open, with no disconnect asked of any device. *)
Theorem longRunningJob_steps tr :
  (∀ e, (establishConnection tr).2 = Thrown e →
     longRunningJob tr = ((establishConnection tr).1, Thrown e))
  ∧ (∀ device e,
       (establishConnection tr).2 = Returned device →
       downloaded tr device 10 = Thrown e →
       longRunningJob tr
       = ((establishConnection tr).1 ++ [DownloadTicks device 10], Thrown e))
  ∧ (∀ device n,
       (establishConnection tr).2 = Returned device →
       downloaded tr device 10 = Returned n →
       (longRunningJob tr).1
       = (establishConnection tr).1 ++ [DownloadTicks device 10]
         ++ (cancelAllConnections tr).1
       ∧ (longRunningJob tr).2 = (cancelAllConnections tr).2).
Proof.
  unfold longRunningJob. split; [| split].
  - intros e He. by rewrite (bind_thrown _ _ e).
  - intros device e Hdev Hdl. rewrite (bind_returned _ _ device) by done.
    unfold await. by rewrite (bind_thrown _ _ e) by done.
  - intros device n Hdev Hdl. rewrite (bind_returned _ _ device) by done.
    unfold await. by rewrite (bind_returned _ _ n) by done.
Qed.

Lemma longRunningJob_steps_witness :
  let tr := {| stateChanges := [PoweredOn];
               connectedDevices := fun _ => Returned ["p1"];
               scanned := Waiting;
               isConnected := fun _ => Returned true;
               connect := fun _ => Returned tt;
               discoverAllServicesAndCharacteristics := fun _ => Returned tt;
               downloaded := fun _ _ => Thrown (BleError "Device was disconnected");
               connectedAtCleanup := fun _ => Returned ["p1"];
               cancelConnection := fun _ => Returned tt |} in
  (longRunningJob tr).2 = Thrown (BleError "Device was disconnected")
  ∧ (CancelConnection "p1" ∉ (longRunningJob tr).1).
Proof.
  intros tr.
  destruct (longRunningJob_steps tr) as (_ & Hfail & _).
  rewrite (Hfail "p1" (BleError "Device was disconnected") eq_refl eq_refl).
  split; [reflexivity |]. cbn.
  repeat (apply not_elem_of_cons; split; [discriminate |]). apply not_elem_of_nil.
Defined.

Lemma connectToDevice_order_witness :
  let tr := {| stateChanges := [PoweredOn];
               connectedDevices := fun _ => Returned ["p1"];
               scanned := Waiting;
               isConnected := fun _ => Returned true;
               connect := fun _ => Returned tt;
               discoverAllServicesAndCharacteristics := fun _ => Returned tt;
               downloaded := fun _ _ => Thrown (BleError "Device was disconnected");
               connectedAtCleanup := fun _ => Returned ["p1"];
               cancelConnection := fun _ => Returned tt |} in
  (Connect "p1" 5000 ∉ (connectToDevice tr "p1" 5000).1)
  ∧ (connectToDevice tr "p1" 5000).2 = Returned "p1".
Proof.
  intros tr.
  destruct (connectToDevice_order tr "p1" 5000) as (_ & Hconnect & _ & _).
  split; [| reflexivity].
  intros Hin. destruct (Hconnect _ _ Hin) as (Hno & _). discriminate Hno.
Defined.

Lemma establishConnection_fails_early_witness :
  let tr := {| stateChanges := [PoweredOn];
               connectedDevices := fun _ => Returned [];
               scanned := Thrown (JsError "Scan timeout after 5000 ms");
               isConnected := fun _ => Returned false;
               connect := fun _ => Returned tt;
               discoverAllServicesAndCharacteristics := fun _ => Returned tt;
               downloaded := fun _ n => Returned n;
               connectedAtCleanup := fun _ => Returned [];
               cancelConnection := fun _ => Returned tt |} in
  (establishConnection tr).2 = Thrown (JsError "Scan timeout after 5000 ms")
  ∧ (establishConnection tr).1
    = [Log "Waiting for PoweredOn state..."; OnStateChange;
       Log "BLE state: PoweredOn"; StateSubscriptionRemove;
       Log "Checking connected devices..."; ConnectedDevices [serviceUUID];
       Log "Scanning for device..."; StartDeviceScan [serviceUUID] 5000].
Proof.
  intros tr.
  destruct (establishConnection_fails_early tr) as (_ & _ & Hscan).
  rewrite (Hscan [] [] (JsError "Scan timeout after 5000 ms") eq_refl).
  - split; reflexivity.
  - apply not_elem_of_nil.
  - reflexivity.
  - reflexivity.
Defined.

End JobSteps.

(** ** The end of a failed write *)

Section SessionTimers.
Import BleManager Invariants.

(** X20.  A failed write ends a [downloadTicks] session for good: the
    subscription is removed and the promise rejected (unless it was settled
    already), and whatever the transport delivers afterwards changes
    nothing: [onTick] is not called again. *)
Theorem failed_write_ends_download totalTicks s e evs :
  write_pending s = true →
  let failed := download_step totalTicks s (Written (Some e)) in
  foldl (download_step totalTicks) failed evs = failed
  ∧ onTick_calls failed = onTick_calls s
  ∧ monitoring failed = false
  ∧ promise failed = settle (Rejected e) (promise s).
Proof.
  intros Hw failed.
  assert (Hfailed : failed = dl_reject e (dl_remove (download_written None s))).
  { subst failed. cbn. by rewrite Hw. }
  split; [| by rewrite Hfailed].
  induction evs as [| ev evs IH]; [done |].
  cbn [foldl]. rewrite download_step_idle; [done | by rewrite Hfailed ..].
Qed.

Lemma failed_write_ends_download_witness :
  onTick_calls (download_run 10 [Notified None (Some (frame 1));
                                 Written (Some (BleError "Write failed"));
                                 Notified None (Some (frame 2))])
  = [(1, 10, 1)].
Proof.
  destruct (failed_write_ends_download 10
              (download_run 10 [Notified None (Some (frame 1))])
              (BleError "Write failed") [Notified None (Some (frame 2))])
    as (Hstuck & Hcalls & _).
  - reflexivity.
  - unfold download_run in *.
    change [Notified None (Some (frame 1)); Written (Some (BleError "Write failed"));
            Notified None (Some (frame 2))]
      with ([Notified None (Some (frame 1))]
            ++ [Written (Some (BleError "Write failed"))]
            ++ [Notified None (Some (frame 2))]).
    rewrite !foldl_app. cbn [foldl] in Hstuck, Hcalls |- *.
    rewrite Hstuck, Hcalls. reflexivity.
Defined.

End SessionTimers.

(** ** waitForPendingTicks *)

Section IdleDrain.
Import PLXBackground BleManager TimerRuns Sessions.

(** *** The timers of other code leave an owned timer alone *)

Lemma issued_below_setTimeout n now timeout w :
  issued_below n w →
  issued_below (S n) (setTimeout now timeout (Background.Number_toString n) w).
Proof.
  intros Hinv i blk Hi. cbn in Hi.
  apply lookup_app_Some in Hi as [Hold | [Hge Hnew]].
  - destruct (Hinv _ _ Hold) as (k & Hk & Hid). exists k. split; [lia | done].
  - destruct (i - length (blocks w))%nat; [| done].
    injection Hnew as <-. exists n. split; [lia | done].
Qed.

Lemma issued_below_clearTimeout n timeoutId w :
  issued_below n w → issued_below n (clearTimeout timeoutId w).
Proof.
  intros Hinv. unfold clearTimeout.
  destruct (pendingTimers w !! timeoutId) as [c |]; [| done].
  intros i blk Hi. cbn in Hi.
  destruct (decide (i = c)) as [-> | Hne].
  - rewrite list_lookup_alter_eq in Hi.
    destruct (blocks w !! c) as [blk0 |] eqn:Hc; [| done].
    cbn in Hi. injection Hi as <-.
    destruct (Hinv _ _ Hc) as (k & Hk & Hid). exists k.
    split; [done |]. by destruct (blk_status blk0).
  - rewrite list_lookup_alter_ne in Hi by done. eauto.
Qed.

Lemma issued_below_runBlock n b w :
  issued_below n w → issued_below n (runBlock b w).
Proof.
  intros Hinv. unfold runBlock.
  destruct (blocks w !! b) as [blk0 |] eqn:Hb; [| done].
  destruct (blk_status blk0); try done.
  intros i blk Hi. cbn in Hi.
  destruct (decide (i = b)) as [-> | Hne].
  - rewrite list_lookup_insert_eq in Hi by (by eapply lookup_lt_Some).
    injection Hi as <-. destruct (Hinv _ _ Hb) as (k & Hk & Hid). by exists k.
  - rewrite list_lookup_insert_ne in Hi by done. eauto.
Qed.

Lemma owns_start n now timeout w :
  issued_below n w →
  owns n (length (blocks w)) (now + timeout)
    (setTimeout now timeout (Background.Number_toString n) w).
Proof.
  intros Hinv. split; [| split].
  - cbn. apply lookup_insert_eq.
  - cbn. by rewrite list_lookup_middle.
  - intros i blk Hi Hid. cbn in Hi.
    apply lookup_app_Some in Hi as [Hold | [Hge Hnew]].
    + destruct (Hinv _ _ Hold) as (k & Hk & Hid'). rewrite Hid' in Hid.
      apply Number_toString_inj in Hid. lia.
    + destruct (i - length (blocks w))%nat eqn:E; [lia | done].
Qed.

Lemma owns_setTimeout_other timeoutId cur deadline now timeout n w :
  owns timeoutId cur deadline w → n ≠ timeoutId →
  owns timeoutId cur deadline (setTimeout now timeout (Background.Number_toString n) w).
Proof.
  intros (Hreg & Hblk & Huniq) Hne. split; [| split].
  - cbn. rewrite lookup_insert_ne; [done |].
    intros Heq. by apply Number_toString_inj in Heq.
  - cbn. rewrite lookup_app_l; [done | by eapply lookup_lt_Some].
  - intros i blk Hi Hid. cbn in Hi.
    apply lookup_app_Some in Hi as [Hold | [Hge Hnew]]; [eauto |].
    destruct (i - length (blocks w))%nat; [| done].
    injection Hnew as <-. cbn in Hid. by apply Number_toString_inj in Hid.
Qed.

Lemma owns_clearTimeout_other timeoutId cur deadline key w :
  owns timeoutId cur deadline w → registry_entries_live w →
  key ≠ Background.Number_toString timeoutId →
  owns timeoutId cur deadline (clearTimeout key w).
Proof.
  intros (Hreg & Hblk & Huniq) Hlive Hne. unfold clearTimeout.
  destruct (pendingTimers w !! key) as [c |] eqn:Hc; [| done].
  destruct (Hlive _ _ Hc) as (blkc & Hbc & Hsc & Hidc).
  assert (c ≠ cur) as Hcc.
  { intros ->. rewrite Hblk in Hbc. injection Hbc as <-. cbn in Hidc. congruence. }
  split; [| split].
  - cbn. by rewrite lookup_delete_ne.
  - cbn. by rewrite list_lookup_alter_ne.
  - intros i blk Hi Hid. cbn in Hi.
    destruct (decide (i = c)) as [-> | Hic].
    + rewrite list_lookup_alter_eq, Hbc in Hi. cbn in Hi. injection Hi as <-.
      apply (Huniq c blkc Hbc). by rewrite Hsc in Hid.
    + rewrite list_lookup_alter_ne in Hi by done. eauto.
Qed.

Lemma owns_runBlock_other timeoutId cur deadline b w :
  owns timeoutId cur deadline w → b ≠ cur →
  owns timeoutId cur deadline (runBlock b w).
Proof.
  intros (Hreg & Hblk & Huniq) Hne. unfold runBlock.
  destruct (blocks w !! b) as [blk0 |] eqn:Hb; [| done].
  destruct (blk_status blk0) eqn:Hs; try done.
  assert (blk_timeoutId blk0 ≠ Background.Number_toString timeoutId) as Hid0.
  { intros Heq. apply Hne. eauto. }
  split; [| split]; cbn.
  - by rewrite lookup_delete_ne.
  - by rewrite list_lookup_insert_ne.
  - intros i blk Hi Hid.
    destruct (decide (i = b)) as [-> | Hib].
    + rewrite list_lookup_insert_eq in Hi by (by eapply lookup_lt_Some).
      injection Hi as <-. done.
    + rewrite list_lookup_insert_ne in Hi by done. eauto.
Qed.

Lemma clearTimeout_owned timeoutId cur deadline w :
  owns timeoutId cur deadline w →
  spent cur (clearTimeout (Background.Number_toString timeoutId) w).
Proof.
  intros (Hreg & Hblk & _). unfold clearTimeout. rewrite Hreg.
  eexists. cbn. rewrite list_lookup_alter_eq, Hblk. cbn. split; [done | discriminate].
Qed.

Lemma runBlock_owned timeoutId cur deadline w :
  owns timeoutId cur deadline w →
  spent cur (runBlock cur w) ∧ resolves w (runBlock cur w) = true.
Proof.
  intros (Hreg & Hblk & _). unfold runBlock. rewrite Hblk. cbn. split.
  - eexists. cbn. rewrite list_lookup_insert_eq by (by eapply lookup_lt_Some).
    split; [done | discriminate].
  - unfold resolves. cbn. by rewrite drop_app_length.
Qed.

Lemma resolves_same w : resolves w w = false.
Proof. unfold resolves. by rewrite drop_all. Qed.

Lemma spent_setTimeout b now timeout timeoutId w :
  spent b w → spent b (setTimeout now timeout timeoutId w).
Proof. apply (timer_step_spent b w (Start now timeout timeoutId)). Qed.

Lemma spent_clearTimeout b timeoutId w :
  spent b w → spent b (clearTimeout timeoutId w).
Proof. apply (timer_step_spent b w (Cancel timeoutId)). Qed.

Lemma spent_runBlock b c w : spent b w → spent b (runBlock c w).
Proof. apply (timer_step_spent b w (Fire c)). Qed.

(** *** The wrapper keeps its state well formed *)

Lemma wrapper_state_setTimeout timeout b :
  wrapper_state b → wrapper_state (Background.setTimeout timeout b).2.
Proof.
  intros [Hi Hl]. split; cbn -[setTimeout].
  - by apply issued_below_setTimeout.
  - by apply setTimeout_entries_live.
Qed.

Lemma wrapper_state_clearTimeout timeoutId b :
  wrapper_state b → wrapper_state (Background.clearTimeout timeoutId b).
Proof.
  intros [Hi Hl]. split; cbn -[clearTimeout].
  - by apply issued_below_clearTimeout.
  - by apply clearTimeout_entries_live.
Qed.

Lemma wrapper_state_runTimer c t b :
  wrapper_state b → wrapper_state (Background.runTimer c t b).
Proof.
  intros [Hi Hl]. split; cbn -[runBlock].
  - by apply issued_below_runBlock.
  - by apply runBlock_entries_live.
Qed.

Lemma init_wrapper_state : wrapper_state Background.init.
Proof.
  split.
  - intros i blk Hi. cbn in Hi. by rewrite lookup_nil in Hi.
  - apply init_entries_live.
Qed.

(** *** A waiting session *)

Lemma waitForPendingTicks_waiting tickTimeout b :
  wrapper_state b →
  idle_waiting (Background.clock b + tickTimeout) [] (waitForPendingTicks tickTimeout b).
Proof.
  intros Hw. pose proof Hw as [Hi Hl].
  exists (Background.nextTimeoutId b), (length (blocks (Background.native b))).
  cbn -[setTimeout].
  split; [done |]. split; [lia |].
  split; [by apply owns_start |].
  split; [by apply (wrapper_state_setTimeout tickTimeout b) |].
  split; [| done].
  exists []. split; [done |]. split; [done |]. intros c Hc. by apply elem_of_nil in Hc.
Qed.

Lemma waiting_set_clock deadline ticks t s :
  idle_waiting deadline ticks s →
  idle_waiting deadline ticks (set_bg (Background.set_clock t (bg s)) s).
Proof. intros H. exact H. Qed.


Lemma idle_listener_value tickTimeout deadline ticks bytes v s :
  idle_waiting deadline ticks s →
  getUint32 bytes = Some v →
  ∃ s', idle_listener tickTimeout None (Some {| value := Some bytes |}) s = Some s'
        ∧ idle_waiting (Background.clock (bg s) + tickTimeout) (ticks ++ [v]) s'.
Proof.
  intros (timeoutId & cur & Htmo & Hlt & Hown & [Hi Hl] & (older & Htb & Hlen & Hold)
          & Hrb & Hmon & Hlive & Hp & Hset & Hticks & Htr) Hv.
  unfold idle_listener. cbn [value]. rewrite Hv. eexists. split; [done |].
  cbn [idle_tick subscriptions_timeout]. rewrite Htmo.
  set (w := Background.native (bg s)) in *.
  set (w1 := clearTimeout (Background.Number_toString timeoutId) w).
  assert (Hi1 : issued_below (Background.nextTimeoutId (bg s)) w1)
    by (by apply issued_below_clearTimeout).
  assert (Hl1 : registry_entries_live w1) by (by apply clearTimeout_entries_live).
  assert (Hcur1 : spent cur w1) by (by eapply clearTimeout_owned).
  exists (Background.nextTimeoutId (bg s)), (length (blocks w1)).
  cbn -[setTimeout clearTimeout Background.Number_toString]. fold w w1.
  split; [done |]. split; [lia |].
  split; [by apply owns_start |].
  split; [split; [by apply issued_below_setTimeout | by apply setTimeout_entries_live] |].
  split.
  { exists (older ++ [cur]). rewrite Htb, !length_app, Hlen.
    split; [done |]. split; [done |].
    intros c [Hc | Hc%list_elem_of_singleton]%elem_of_app.
    - by apply spent_setTimeout, spent_clearTimeout, Hold.
    - subst c. by apply spent_setTimeout. }
  rewrite Hticks. done.
Qed.

Lemma idle_listener_error tickTimeout deadline ticks e c s :
  idle_waiting deadline ticks s →
  ∃ s', idle_listener tickTimeout (Some e) c s = Some s'
        ∧ idle_over (Rejected e) (Background.clock (bg s)) ticks true
            [PromiseReject e] s'.
Proof.
  intros (timeoutId & cur & Htmo & Hlt & Hown & [Hi Hl] & (older & Htb & Hlen & Hold)
          & Hrb & Hmon & Hlive & Hp & Hset & Hticks & Htr).
  unfold idle_listener. eexists. split; [done |].
  unfold clearSubscriptions.
  cbn [set_monitor subscriptions_monitor subscriptions_timeout]. rewrite Htmo.
  unfold idle_over, timers_spent, idle_reject, idle_settle.
  cbn -[clearTimeout Background.Number_toString]. rewrite Hp, Htr.
  split.
  { intros c' Hc'. rewrite Htb in Hc'.
    apply elem_of_app in Hc' as [Hc' | Hc'%list_elem_of_singleton].
    - by apply spent_clearTimeout, Hold.
    - subst c'. by eapply clearTimeout_owned. }
  split; [by apply clearTimeout_entries_live |].
  done.
Qed.

Lemma waiting_other_block tickTimeout deadline ticks s b t :
  idle_waiting deadline ticks s →
  current_block s ≠ Some b →
  ∃ s', idle_step tickTimeout s (TimerBlockRuns b t) = Some s'
        ∧ idle_waiting deadline ticks s'.
Proof.
  intros Hw Hnot.
  pose proof Hw as (timeoutId & cur & Htmo & Hlt & Hown & Hws
                    & (older & Htb & Hlen & Hold) & Hrest).
  assert (Hcur : b ≠ cur).
  { intros ->. apply Hnot. unfold current_block. rewrite Htmo. apply Hown. }
  set (s1 := set_bg (Background.runTimer b t (bg s)) s).
  assert (Hw1 : idle_waiting deadline ticks s1).
  { exists timeoutId, cur. subst s1. cbn -[runBlock].
    split; [done |]. split; [done |].
    split; [by apply owns_runBlock_other |].
    split; [by apply (wrapper_state_runTimer b t (bg s)) |].
    split; [| done].
    exists older. split; [done |]. split; [done |].
    intros c Hc. by apply spent_runBlock, Hold. }
  assert (Hq : resolves (Background.native (bg s)) (Background.native (bg s1))
               && bool_decide (b ∈ timer_blocks s) = false).
  { destruct (bool_decide (b ∈ timer_blocks s)) eqn:Hin; [| by rewrite andb_false_r].
    apply bool_decide_eq_true in Hin. rewrite Htb in Hin.
    apply elem_of_app in Hin as [Hin | Hin%list_elem_of_singleton]; [| done].
    subst s1. cbn -[runBlock]. rewrite (runBlock_spent b _ (Hold b Hin)).
    by rewrite resolves_same. }
  exists s1. split; [| done].
  unfold idle_step. fold s1. by rewrite Hq.
Qed.

Lemma waiting_other_setTimeout deadline ticks timeout s :
  idle_waiting deadline ticks s →
  idle_waiting deadline ticks (set_bg (Background.setTimeout timeout (bg s)).2 s).
Proof.
  intros (timeoutId & cur & Htmo & Hlt & Hown & Hws
          & (older & Htb & Hlen & Hold) & Hrest).
  exists timeoutId, cur. cbn -[setTimeout Background.Number_toString].
  split; [done |]. split; [lia |].
  split; [apply owns_setTimeout_other; [done | lia] |].
  split; [by apply (wrapper_state_setTimeout timeout (bg s)) |].
  split; [| done].
  exists older. split; [done |]. split; [done |].
  intros c Hc. by apply spent_setTimeout, Hold.
Qed.

Lemma waiting_other_clearTimeout deadline ticks timeoutId s :
  idle_waiting deadline ticks s →
  subscriptions_timeout s ≠ Some timeoutId →
  idle_waiting deadline ticks (set_bg (Background.clearTimeout timeoutId (bg s)) s).
Proof.
  intros (mine & cur & Htmo & Hlt & Hown & Hws
          & (older & Htb & Hlen & Hold) & Hrest) Hne.
  exists mine, cur. cbn -[clearTimeout Background.Number_toString].
  split; [done |]. split; [done |].
  split.
  { apply owns_clearTimeout_other; [done | apply Hws |].
    intros Heq. apply Number_toString_inj in Heq. congruence. }
  split; [by apply (wrapper_state_clearTimeout timeoutId (bg s)) |].
  split; [| done].
  exists older. split; [done |]. split; [done |].
  intros c Hc. by apply spent_clearTimeout, Hold.
Qed.

Lemma last_value_time_cons last ev evs :
  last_value_time last (ev :: evs) = last_value_time (last_value_time last [ev]) evs.
Proof. by destruct ev as [t [e |] [[[bytes |]] |] | | | |]. Qed.

Lemma clock_after_cons start ev evs :
  clock_after start (ev :: evs) = clock_after (clock_after start [ev]) evs.
Proof. by destruct ev. Qed.

Lemma clock_after_app start evs1 evs2 :
  clock_after start (evs1 ++ evs2) = clock_after (clock_after start evs1) evs2.
Proof.
  revert start. induction evs1 as [| ev evs1 IH]; intros start; [done |].
  cbn [app]. rewrite clock_after_cons, IH. by rewrite <- clock_after_cons.
Qed.

Lemma idle_step_waiting tickTimeout last ticks s ev :
  idle_waiting (last + tickTimeout) ticks s →
  keeps_waiting s ev = true →
  ∃ s', idle_step tickTimeout s ev = Some s'
        ∧ idle_waiting (last_value_time last [ev] + tickTimeout)
            (ticks ++ option_list (idle_tick_of ev)) s'.
Proof.
  intros Hw Hkeep.
  assert (Hlive : idle_monitoring s = true).
  { destruct Hw as (? & ? & H). apply H. }
  assert (Hrb : resolved_blocks s = []).
  { destruct Hw as (? & ? & H). apply H. }
  destruct ev as [t [e |] [[[bytes |]] |] | b t | b | timeout | timeoutId];
    cbn [keeps_waiting value] in Hkeep; try done;
    cbn [last_value_time idle_tick_of value mbind option_bind option_list].
  - apply bool_decide_eq_true in Hkeep.
    destruct (getUint32_four bytes Hkeep) as [v Hv]. rewrite Hv. cbn [option_list].
    destruct (idle_listener_value tickTimeout _ _ bytes v _
                (waiting_set_clock _ _ t _ Hw) Hv) as (s' & Hs' & Hw').
    exists s'. split; [| exact Hw'].
    unfold idle_step. cbn [idle_monitoring set_bg]. by rewrite Hlive.
  - rewrite app_nil_r. eexists. split; [| by apply (waiting_set_clock _ _ t)].
    unfold idle_step. cbn [idle_monitoring set_bg]. by rewrite Hlive.
  - rewrite app_nil_r. eexists. split; [| by apply (waiting_set_clock _ _ t)].
    unfold idle_step. cbn [idle_monitoring set_bg]. by rewrite Hlive.
  - rewrite app_nil_r. apply bool_decide_eq_true in Hkeep.
    by apply waiting_other_block.
  - rewrite app_nil_r. exists s. split; [| done].
    unfold idle_step. rewrite Hrb.
    rewrite bool_decide_eq_false_2; [done |]. apply not_elem_of_nil.
  - rewrite app_nil_r. eexists. split; [done |]. by apply waiting_other_setTimeout.
  - rewrite app_nil_r. apply bool_decide_eq_true in Hkeep.
    eexists. split; [done |]. by apply waiting_other_clearTimeout.
Qed.

Lemma idle_run_waiting tickTimeout evs : ∀ last ticks s,
  idle_waiting (last + tickTimeout) ticks s →
  waiting_run tickTimeout s evs = true →
  ∃ s', idle_run tickTimeout s evs = Some s'
        ∧ idle_waiting (last_value_time last evs + tickTimeout)
            (ticks ++ omap idle_tick_of evs) s'.
Proof.
  induction evs as [| ev evs IH]; intros last ticks s Hw Hrun.
  - exists s. cbn. by rewrite app_nil_r.
  - cbn [waiting_run] in Hrun. apply andb_true_iff in Hrun as [Hkeep Hrest].
    destruct (idle_step_waiting tickTimeout last ticks s ev Hw Hkeep) as (s1 & Hs1 & Hw1).
    rewrite Hs1 in Hrest.
    destruct (IH _ _ _ Hw1 Hrest) as (s' & Hs' & Hw').
    exists s'. cbn [idle_run]. rewrite Hs1. split; [done |].
    rewrite last_value_time_cons.
    replace (ticks ++ omap idle_tick_of (ev :: evs))
      with ((ticks ++ option_list (idle_tick_of ev)) ++ omap idle_tick_of evs); [done |].
    rewrite <- app_assoc. f_equal. cbn. by destruct (idle_tick_of ev).
Qed.

Lemma idle_run_app tickTimeout evs1 evs2 : ∀ s,
  idle_run tickTimeout s (evs1 ++ evs2)
  = idle_run tickTimeout s evs1 ≫= fun s' => idle_run tickTimeout s' evs2.
Proof.
  induction evs1 as [| ev evs1 IH]; intros s; [done |].
  cbn [app idle_run]. destruct (idle_step tickTimeout s ev); [apply IH | done].
Qed.

(** *** The timer runs, and its continuation *)

Lemma waiting_fires tickTimeout deadline ticks s cur t :
  idle_waiting deadline ticks s →
  current_block s = Some cur →
  ∃ s', idle_step tickTimeout s (TimerBlockRuns cur t) = Some s'
        ∧ idle_fired cur ticks s'
        ∧ Background.clock (bg s') = t.
Proof.
  intros (timeoutId & cur' & Htmo & Hlt & Hown & [Hi Hl]
          & (older & Htb & Hlen & Hold) & Hrb & Hrest) Hcur.
  assert (cur' = cur) as ->.
  { unfold current_block in Hcur. rewrite Htmo in Hcur.
    destruct Hown as [Hreg _]. congruence. }
  destruct (runBlock_owned _ _ _ _ Hown) as [Hspent Hres].
  eexists. split; [| split].
  - unfold idle_step. cbn -[runBlock]. rewrite Hres.
    rewrite bool_decide_eq_true_2; [done |].
    rewrite Htb. apply elem_of_app. right. by apply list_elem_of_singleton.
  - unfold idle_fired, timers_spent. cbn -[runBlock]. rewrite Hrb.
    split; [done |]. split; [| split; [by apply runBlock_entries_live | done]].
    intros c Hc. rewrite Htb in Hc.
    apply elem_of_app in Hc as [Hc | Hc%list_elem_of_singleton].
    + by apply spent_runBlock, Hold.
    + by subst c.
  - done.
Qed.

Lemma spent_never_resolves b t s :
  timers_spent s →
  resolves (Background.native (bg s))
    (Background.native (bg (set_bg (Background.runTimer b t (bg s)) s)))
  && bool_decide (b ∈ timer_blocks s) = false.
Proof.
  intros Hsp.
  destruct (bool_decide (b ∈ timer_blocks s)) eqn:Hin; [| by rewrite andb_false_r].
  apply bool_decide_eq_true in Hin.
  cbn -[runBlock]. rewrite (runBlock_spent b _ (Hsp b Hin)).
  by rewrite resolves_same.
Qed.

Lemma fired_gap tickTimeout cur ticks s ev :
  idle_fired cur ticks s →
  in_gap cur ev = true →
  ∃ s', idle_step tickTimeout s ev = Some s'
        ∧ idle_fired cur ticks s'
        ∧ Background.clock (bg s') = clock_after (Background.clock (bg s)) [ev].
Proof.
  intros (Hrb & Hsp & Hl & Hrest) Hgap.
  destruct ev as [t error c | b t | b | timeout | timeoutId]; cbn [in_gap] in Hgap;
    [done | | | |].
  - eexists. split; [| split].
    + unfold idle_step. by rewrite spent_never_resolves.
    + unfold idle_fired, timers_spent. cbn -[runBlock].
      split; [done |]. split; [| split; [by apply runBlock_entries_live | done]].
      intros c Hc. by apply spent_runBlock, Hsp.
    + done.
  - exists s. split; [| done].
    unfold idle_step. rewrite Hrb.
    rewrite bool_decide_eq_false_2; [done |].
    intros Hin%list_elem_of_singleton. subst b.
    by rewrite bool_decide_eq_true_2 in Hgap.
  - eexists. split; [done |]. split; [| done].
    unfold idle_fired, timers_spent. cbn -[setTimeout Background.Number_toString].
    split; [done |]. split; [| split; [by apply setTimeout_entries_live | done]].
    intros c Hc. by apply spent_setTimeout, Hsp.
  - eexists. split; [done |]. split; [| done].
    unfold idle_fired, timers_spent. cbn -[clearTimeout Background.Number_toString].
    split; [done |]. split; [| split; [by apply clearTimeout_entries_live | done]].
    intros c Hc. by apply spent_clearTimeout, Hsp.
Qed.

Lemma fired_run tickTimeout cur ticks gap : ∀ s,
  idle_fired cur ticks s →
  forallb (in_gap cur) gap = true →
  ∃ s', idle_run tickTimeout s gap = Some s'
        ∧ idle_fired cur ticks s'
        ∧ Background.clock (bg s') = clock_after (Background.clock (bg s)) gap.
Proof.
  induction gap as [| ev gap IH]; intros s Hf Hgap; [by exists s |].
  cbn [forallb] in Hgap. apply andb_true_iff in Hgap as [Hev Hgap].
  destruct (fired_gap tickTimeout cur ticks s ev Hf Hev) as (s1 & Hs1 & Hf1 & Hc1).
  destruct (IH s1 Hf1 Hgap) as (s' & Hs' & Hf' & Hc').
  exists s'. cbn [idle_run]. rewrite Hs1. split; [done |]. split; [done |].
  by rewrite clock_after_cons, <- Hc1.
Qed.

Lemma fired_continues tickTimeout cur ticks s :
  idle_fired cur ticks s →
  ∃ s', idle_step tickTimeout s (Continues cur) = Some s'
        ∧ idle_over (Resolved tt) (Background.clock (bg s)) ticks false
            [SubscriptionRemove; PromiseResolve] s'.
Proof.
  intros (Hrb & Hsp & Hl & Hmon & Hlive & Hp & Hset & Hticks & Htr).
  eexists. split.
  - unfold idle_step. rewrite Hrb.
    rewrite bool_decide_eq_true_2 by (by apply list_elem_of_singleton). done.
  - unfold timeoutCallback, clearSubscriptions.
    cbn [set_timeout set_resolved_blocks subscriptions_monitor subscriptions_timeout].
    rewrite Hmon.
    unfold idle_over, timers_spent, idle_resolve, idle_settle. cbn.
    rewrite Hp, Htr, bool_decide_eq_true_2 by done. done.
Qed.

Lemma over_step tickTimeout outcome at_time ticks calls s ev :
  idle_over outcome at_time ticks false calls s →
  ∃ s', idle_step tickTimeout s ev = Some s'
        ∧ idle_over outcome at_time ticks false calls s'.
Proof.
  intros (Hsp & Hl & Hrb & Hmon & Htmo & Hlive & Hrest).
  destruct ev as [t error c | b t | b | timeout | timeoutId].
  - eexists. split.
    + unfold idle_step. cbn [idle_monitoring set_bg]. by rewrite Hlive.
    + done.
  - eexists. split.
    + unfold idle_step. by rewrite spent_never_resolves.
    + unfold idle_over, timers_spent. cbn -[runBlock].
      split; [| split; [by apply runBlock_entries_live | done]].
      intros c Hc. by apply spent_runBlock, Hsp.
  - exists s. split; [| done].
    unfold idle_step. rewrite Hrb.
    rewrite bool_decide_eq_false_2; [done |]. apply not_elem_of_nil.
  - eexists. split; [done |].
    unfold idle_over, timers_spent. cbn -[setTimeout Background.Number_toString].
    split; [| split; [by apply setTimeout_entries_live | done]].
    intros c Hc. by apply spent_setTimeout, Hsp.
  - eexists. split; [done |].
    unfold idle_over, timers_spent. cbn -[clearTimeout Background.Number_toString].
    split; [| split; [by apply clearTimeout_entries_live | done]].
    intros c Hc. by apply spent_clearTimeout, Hsp.
Qed.

Lemma over_run tickTimeout outcome at_time ticks calls evs : ∀ s,
  idle_over outcome at_time ticks false calls s →
  ∃ s', idle_run tickTimeout s evs = Some s'
        ∧ idle_over outcome at_time ticks false calls s'.
Proof.
  induction evs as [| ev evs IH]; intros s Hover; [by exists s |].
  destruct (over_step tickTimeout _ _ _ _ s ev Hover) as (s1 & Hs1 & Hover1).
  destruct (IH s1 Hover1) as (s' & Hs' & Hover').
  exists s'. cbn [idle_run]. by rewrite Hs1.
Qed.

(** A waiting session whose timer runs, with its continuation run before
    the listener is called again, is over for good. *)
Lemma waiting_resolves tickTimeout deadline ticks s cur t gap later :
  idle_waiting deadline ticks s →
  current_block s = Some cur →
  forallb (in_gap cur) gap = true →
  ∃ s', idle_run tickTimeout s (TimerBlockRuns cur t :: gap ++ Continues cur :: later)
        = Some s'
        ∧ idle_over (Resolved tt) (clock_after t gap) ticks false
            [SubscriptionRemove; PromiseResolve] s'.
Proof.
  intros Hw Hcur Hgap.
  destruct (waiting_fires tickTimeout _ _ _ _ t Hw Hcur) as (s1 & Hs1 & Hf1 & Hc1).
  destruct (fired_run tickTimeout _ _ gap s1 Hf1 Hgap) as (s2 & Hs2 & Hf2 & Hc2).
  destruct (fired_continues tickTimeout _ _ s2 Hf2) as (s3 & Hs3 & Hover3).
  destruct (over_run tickTimeout _ _ _ _ later s3 Hover3) as (s4 & Hs4 & Hover4).
  exists s4. cbn [idle_run]. rewrite Hs1, idle_run_app, Hs2. cbn [mbind option_bind idle_run].
  rewrite Hs3. split; [done |]. by rewrite <- Hc1, <- Hc2.
Qed.

Lemma waiting_rejects tickTimeout deadline ticks s t e c :
  idle_waiting deadline ticks s →
  ∃ s', idle_step tickTimeout s (Monitored t (Some e) c) = Some s'
        ∧ idle_over (Rejected e) t ticks true [PromiseReject e] s'.
Proof.
  intros Hw.
  assert (Hlive : idle_monitoring s = true).
  { destruct Hw as (? & ? & H). apply H. }
  destruct (idle_listener_error tickTimeout _ _ e c _ (waiting_set_clock _ _ t _ Hw))
    as (s' & Hs' & Hover).
  exists s'. split; [| exact Hover].
  unfold idle_step. cbn [idle_monitoring set_bg]. by rewrite Hlive.
Qed.

Lemma wrapper_state_run steps : ∀ b,
  wrapper_state b → wrapper_state (js_timer_run b steps).
Proof.
  induction steps as [| a steps IH]; intros b Hw; [done |].
  cbn [js_timer_run foldl]. apply IH.
  destruct a as [timeout | timeoutId | c t | t]; cbn [js_timer_step].
  - by apply wrapper_state_setTimeout.
  - by apply wrapper_state_clearTimeout.
  - by apply wrapper_state_runTimer.
  - exact Hw.
Qed.

Lemma spent_not_registered timeoutId b w :
  registry_entries_live w → spent b w → pendingTimers w !! timeoutId ≠ Some b.
Proof.
  intros Hl (blk & Hb & Hs) Hreg.
  destruct (Hl _ _ Hreg) as (blk' & Hb' & Hs' & _). congruence.
Qed.




End IdleDrain.

(** ** What a finished session leaves behind *)

Section Teardown.
Import PLXBackground BleManager Invariants TimerRuns Sessions.

(** C5, as amended.  On the paths on which a tick session ends by its own
    decision the subscription is removed before the promise is settled:
    [downloadTicks] on the last tick and on a failed write,
    [waitForPendingTicks] when the continuation of its timer runs (before
    the listener is called again).  Neither end of [waitForPendingTicks],
    that one or an error on the notification channel, leaves one of the
    session's timers pending: the [timeout] slot is empty, none of the
    blocks the session created is going to run, and [pendingTimers] names
    none of them.  An error on the notification channel makes either
    operation reject without a call to [remove()]. *)
Theorem sessions_release_what_they_hold :
  (∀ totalTicks evs,
     1 <= totalTicks <= 255 → forallb clean evs = true →
     totalTicks <= Z.of_nat (length (omap tick_of evs)) →
     monitoring (download_run totalTicks evs) = false
     ∧ ∃ pre, trace (download_run totalTicks evs)
              = pre ++ [SubscriptionRemove; PromiseResolve])
  ∧ (∀ totalTicks s e,
       write_pending s = true →
       monitoring (download_step totalTicks s (Written (Some e))) = false
       ∧ trace (download_step totalTicks s (Written (Some e)))
         = trace s ++ [SubscriptionRemove; PromiseReject e]
       ∧ promise (download_step totalTicks s (Written (Some e)))
         = settle (Rejected e) (promise s))
  ∧ (∀ tickTimeout b evs s cur t gap later,
       wrapper_state b →
       waiting_run tickTimeout (waitForPendingTicks tickTimeout b) evs = true →
       idle_run tickTimeout (waitForPendingTicks tickTimeout b) evs = Some s →
       current_block s = Some cur →
       forallb (in_gap cur) gap = true →
       ∃ s',
         idle_run tickTimeout (waitForPendingTicks tickTimeout b)
           (evs ++ TimerBlockRuns cur t :: gap ++ Continues cur :: later) = Some s'
         ∧ idle_monitoring s' = false
         ∧ idle_trace s' = [MonitorCharacteristic serviceUUID rxUUID;
                            SubscriptionRemove; PromiseResolve]
         ∧ subscriptions_timeout s' = None
         ∧ timers_spent s'
         ∧ ∀ timeoutId c,
             pendingTimers (Background.native (bg s')) !! timeoutId = Some c →
             c ∉ timer_blocks s')
  ∧ (∀ tickTimeout b evs t e c,
       wrapper_state b →
       waiting_run tickTimeout (waitForPendingTicks tickTimeout b) evs = true →
       ∃ s',
         idle_run tickTimeout (waitForPendingTicks tickTimeout b)
           (evs ++ [Monitored t (Some e) c]) = Some s'
         ∧ idle_promise s' = Rejected e
         ∧ idle_trace s' = [MonitorCharacteristic serviceUUID rxUUID; PromiseReject e]
         ∧ subscriptions_timeout s' = None
         ∧ timers_spent s'
         ∧ ∀ timeoutId c,
             pendingTimers (Background.native (bg s')) !! timeoutId = Some c →
             c ∉ timer_blocks s')
  ∧ (∀ totalTicks s e c,
       monitoring s = true →
       monitoring (download_step totalTicks s (Notified (Some e) c)) = true
       ∧ trace (download_step totalTicks s (Notified (Some e) c))
         = trace s ++ [PromiseReject e]
       ∧ promise (download_step totalTicks s (Notified (Some e) c))
         = settle (Rejected e) (promise s)).
Proof.
  assert (Hfree : ∀ outcome at_time ticks monitoring calls s',
            idle_over outcome at_time ticks monitoring calls s' →
            ∀ timeoutId c,
              pendingTimers (Background.native (bg s')) !! timeoutId = Some c →
              c ∉ timer_blocks s').
  { intros outcome at_time ticks monitoring calls s' (Hsp & Hl & _) timeoutId c Hreg Hc.
    by apply (spent_not_registered timeoutId c _ Hl (Hsp c Hc)). }
  split; [| split; [| split; [| split]]].
  - intros totalTicks evs Hrange Hclean Hall.
    pose proof (download_inv_run totalTicks evs [] _
                  (download_inv_start _ Hrange) Hclean) as [_ Hst].
    cbn [app] in Hst.
    destruct (decide _) as [Hlt | _] in Hst; [lia |].
    destruct Hst as (_ & Hm & Htr). by split.
  - intros totalTicks s e Hw. cbn. rewrite Hw. cbn.
    by rewrite <- app_assoc.
  - intros tickTimeout b evs s cur t gap later Hb Hrun Hs Hcur Hgap.
    destruct (idle_run_waiting tickTimeout evs (Background.clock b) [] _
                (waitForPendingTicks_waiting tickTimeout b Hb) Hrun)
      as (s0 & Hs0 & Hw).
    rewrite Hs in Hs0. injection Hs0 as <-.
    destruct (waiting_resolves tickTimeout _ _ _ _ t gap later Hw Hcur Hgap)
      as (s' & Hs' & Hover).
    exists s'. rewrite idle_run_app, Hs. cbn [mbind option_bind].
    split; [done |].
    split; [apply Hover |]. split; [apply Hover |]. split; [apply Hover |].
    split; [apply Hover |]. by eapply Hfree.
  - intros tickTimeout b evs t e c Hb Hrun.
    destruct (idle_run_waiting tickTimeout evs (Background.clock b) [] _
                (waitForPendingTicks_waiting tickTimeout b Hb) Hrun)
      as (s & Hs & Hw).
    destruct (waiting_rejects tickTimeout _ _ _ t e c Hw) as (s' & Hs' & Hover).
    exists s'. rewrite idle_run_app, Hs. cbn [mbind option_bind idle_run].
    rewrite Hs'. split; [done |].
    split; [apply Hover |]. split; [apply Hover |]. split; [apply Hover |].
    split; [apply Hover |]. by eapply Hfree.
  - intros totalTicks s e c Hm. cbn. by rewrite Hm.
Qed.

Lemma sessions_release_what_they_hold_witness :
  (monitoring (download_run 2 [Notified None (Some (frame 5)); Written None;
                               Notified None (Some (frame 6))]) = false)
  ∧ (monitoring (download_step 2 (downloadTicks 2)
                   (Written (Some (BleError "Write failed")))) = false)
  ∧ (∃ s, idle_run 10000 (waitForPendingTicks 10000 Background.init)
            [Monitored 9000 None (Some (frame 42));
             TimerBlockRuns 1 19000; Continues 1] = Some s
          ∧ idle_monitoring s = false
          ∧ pendingTimers (Background.native (bg s)) = ∅)
  ∧ (∃ s, idle_run 10000 (waitForPendingTicks 10000 Background.init)
            [Monitored 9000 None (Some (frame 42));
             Monitored 9500 (Some (BleError "Device was disconnected")) None] = Some s
          ∧ idle_promise s = Rejected (BleError "Device was disconnected")
          ∧ pendingTimers (Background.native (bg s)) = ∅).
Proof.
  destruct sessions_release_what_they_hold as (Hdone & Hwrite & Hquiet & Herror & _).
  refine (conj _ (conj _ (conj _ _))).
  - apply (Hdone 2 [Notified None (Some (frame 5)); Written None;
                    Notified None (Some (frame 6))]).
    + lia.
    + vm_compute. reflexivity.
    + vm_compute. discriminate.
  - apply (Hwrite 2 (downloadTicks 2) (BleError "Write failed")). reflexivity.
  - destruct (Hquiet 10000 Background.init [Monitored 9000 None (Some (frame 42))]
                _ 1%nat 19000 [] [] init_wrapper_state eq_refl eq_refl eq_refl eq_refl)
      as (s' & Hs' & Hm & _).
    exists s'. split; [exact Hs' |]. split; [exact Hm |].
    vm_compute in Hs'. injection Hs' as <-. vm_compute. reflexivity.
  - destruct (Herror 10000 Background.init [Monitored 9000 None (Some (frame 42))]
                9500 (BleError "Device was disconnected") None
                init_wrapper_state eq_refl)
      as (s' & Hs' & Hp & _).
    exists s'. split; [exact Hs' |]. split; [exact Hp |].
    vm_compute in Hs'. injection Hs' as <-. vm_compute. reflexivity.
Defined.

End Teardown.

(** ** More on idle-drain sessions *)

Section IdleSessions.
Import PLXBackground BleManager TimerRuns Sessions.

(** X6.  A notification that carries no value (no characteristic, or no
    payload) does not keep an idle-drain session alive: while the session
    is waiting it calls nothing and starts or clears no timer, so the
    running timer stays as it is.  A payload of fewer than four bytes makes
    the listener throw, before [onTick] is called or a timer is touched. *)
Theorem empty_notification_does_not_restart_timer
    tickTimeout b evs t (characteristic : option Characteristic) :
  wrapper_state b →
  let start := waitForPendingTicks tickTimeout b in
  waiting_run tickTimeout start evs = true →
  ∃ s,
    idle_run tickTimeout start evs = Some s
    ∧ (characteristic ≫= value = None →
       ∃ s',
         idle_run tickTimeout start (evs ++ [Monitored t None characteristic]) = Some s'
         ∧ idle_promise s' = Pending
         ∧ idle_onTick_calls s' = idle_onTick_calls s
         ∧ subscriptions_timeout s' = subscriptions_timeout s
         ∧ timer_blocks s' = timer_blocks s
         ∧ Background.native (bg s') = Background.native (bg s))
    ∧ (∀ bytes,
         characteristic ≫= value = Some bytes →
         (length bytes < 4)%nat →
         idle_run tickTimeout start (evs ++ [Monitored t None characteristic]) = None).
Proof.
  intros Hb start Hrun.
  destruct (idle_run_waiting tickTimeout evs (Background.clock b) [] start
              (waitForPendingTicks_waiting tickTimeout b Hb) Hrun)
    as (s & Hs & Hw).
  assert (Hlive : idle_monitoring s = true).
  { destruct Hw as (? & ? & H). apply H. }
  assert (Hp : idle_promise s = Pending).
  { destruct Hw as (? & ? & H). apply H. }
  exists s. split; [done |]. split.
  - intros Hnone.
    exists (set_bg (Background.set_clock t (bg s)) s).
    rewrite idle_run_app, Hs. cbn [mbind option_bind idle_run idle_step].
    cbn [idle_monitoring set_bg]. rewrite Hlive.
    destruct characteristic as [[[bytes |]] |]; try done.
  - intros bytes Hsome Hshort.
    rewrite idle_run_app, Hs. cbn [mbind option_bind idle_run idle_step].
    cbn [idle_monitoring set_bg]. rewrite Hlive.
    destruct characteristic as [[[bytes' |]] |]; try done.
    cbn in Hsome. injection Hsome as ->.
    unfold idle_listener. cbn [value].
    destruct bytes as [| b0 [| b1 [| b2 [| b3 rest]]]]; cbn in Hshort |- *; try done.
    lia.
Qed.

Lemma empty_notification_does_not_restart_timer_witness :
  let start := waitForPendingTicks 10000 Background.init in
  (∃ s, idle_run 10000 start
          [Monitored 9000 None (Some (frame 42));
           Monitored 15000 None (Some {| value := None |})] = Some s
        ∧ idle_onTick_calls s = [42]
        ∧ subscriptions_timeout s = Some 1%nat)
  ∧ idle_run 10000 start
      [Monitored 9000 None (Some (frame 42));
       Monitored 15000 None (Some {| value := Some [1; 2] |})] = None.
Proof.
  intros start.
  split.
  - destruct (empty_notification_does_not_restart_timer 10000 Background.init
                [Monitored 9000 None (Some (frame 42))] 15000
                (Some {| value := None |}) init_wrapper_state eq_refl)
      as (s & Hs & Hnone & _).
    destruct (Hnone eq_refl) as (s' & Hs' & _ & Hticks & Htmo & _).
    exists s'. split; [exact Hs' |].
    rewrite Hticks, Htmo. vm_compute in Hs. injection Hs as <-. split; reflexivity.
  - destruct (empty_notification_does_not_restart_timer 10000 Background.init
                [Monitored 9000 None (Some (frame 42))] 15000
                (Some {| value := Some [1; 2] |}) init_wrapper_state eq_refl)
      as (s & _ & _ & Hshort).
    apply (Hshort [1; 2] eq_refl). cbn. lia.
Defined.

(** X19.  While an idle-drain session is waiting it has exactly one timer
    of its own pending: every value cancels the timer before it starts the
    next, so of the blocks the session has created, one per value and one
    at the start, only the newest is still going to run; it is the block
    [pendingTimers] holds for the identifier in [subscriptions.timeout], no
    other block captured that identifier, and it is due [tickTimeout] after
    the last value. *)
Theorem waiting_session_has_one_timer tickTimeout b evs :
  wrapper_state b →
  waiting_run tickTimeout (waitForPendingTicks tickTimeout b) evs = true →
  ∃ s timeoutId cur older,
    idle_run tickTimeout (waitForPendingTicks tickTimeout b) evs = Some s
    ∧ subscriptions_timeout s = Some timeoutId
    ∧ pendingTimers (Background.native (bg s)) !! Background.Number_toString timeoutId
      = Some cur
    ∧ blocks (Background.native (bg s)) !! cur
      = Some {| blk_timeoutId := Background.Number_toString timeoutId;
                blk_deadline := last_value_time (Background.clock b) evs + tickTimeout;
                blk_status := Scheduled |}
    ∧ timer_blocks s = older ++ [cur]
    ∧ length older = length (omap idle_tick_of evs)
    ∧ (∀ c blk,
         c ∈ timer_blocks s →
         blocks (Background.native (bg s)) !! c = Some blk →
         blk_status blk = Scheduled → c = cur)
    ∧ (∀ i blk,
         blocks (Background.native (bg s)) !! i = Some blk →
         blk_timeoutId blk = Background.Number_toString timeoutId → i = cur).
Proof.
  intros Hb Hrun.
  destruct (idle_run_waiting tickTimeout evs (Background.clock b) [] _
              (waitForPendingTicks_waiting tickTimeout b Hb) Hrun)
    as (s & Hs & timeoutId & cur & Htmo & _ & (Hreg & Hblk & Huniq) & _
        & (older & Htb & Hlen & Hold) & _).
  exists s, timeoutId, cur, older.
  split; [done |]. split; [done |]. split; [done |]. split; [done |].
  split; [done |]. split; [done |]. split; [| done].
  intros c blk Hc Hcb Hsched. rewrite Htb in Hc.
  apply elem_of_app in Hc as [Hc | Hc%list_elem_of_singleton]; [| done].
  destruct (Hold c Hc) as (blk' & Hcb' & Hspent). congruence.
Qed.

Lemma waiting_session_has_one_timer_witness :
  let b := (Background.setTimeout 5000 Background.init).2 in
  ∃ s, idle_run 10000 (waitForPendingTicks 10000 b)
         [Monitored 2000 None (Some (frame 1)); Monitored 9000 None (Some (frame 2))]
       = Some s
       ∧ subscriptions_timeout s = Some 3%nat
       ∧ timer_blocks s = [1; 2; 3]%nat
       ∧ blocks (Background.native (bg s)) !! 3%nat
         = Some {| blk_timeoutId := "3"; blk_deadline := 19000; blk_status := Scheduled |}.
Proof.
  intros b.
  assert (Hb : wrapper_state b).
  { apply (wrapper_state_setTimeout 5000 Background.init), init_wrapper_state. }
  destruct (waiting_session_has_one_timer 10000 b
              [Monitored 2000 None (Some (frame 1)); Monitored 9000 None (Some (frame 2))]
              Hb eq_refl)
    as (s & timeoutId & cur & older & Hs & Htmo & Hreg & Hblk & Htb & _).
  exists s. split; [exact Hs |].
  vm_compute in Hs. injection Hs as <-.
  repeat split; vm_compute; reflexivity.
Defined.

End IdleSessions.
